(** * SeaBattle: the board, shot resolution and the AI targeting heuristic

    A shallow embedding of [src/main.py].  Python integers are [Z]; the
    classes [Dot], [Ship] and [Board] are records; methods that mutate the
    board and may raise are computations in a small state-and-exception
    monad over [Board], so that the state left behind by a [raise] is the
    state at the point of the [raise], as in Python.

    A [Board] holds its ships by value.  This is faithful as long as a ship
    object is owned by one board and appears once in its list, which is how
    [Game.try_board] builds boards (a fresh [Ship] per attempt).

    [print] calls and [time.sleep] are not modelled.  The text built by
    [Board.__str__] is a list of Unicode code points. *)

From Stdlib Require Import ZArith List Bool Lia String Ascii.
Import ListNotations.
Open Scope Z_scope.

(** ** Python helpers *)

(** [range(a, b)]: empty when [b <= a]. *)
Definition range (a b : Z) : list Z :=
  map (fun k => a + Z.of_nat k) (seq 0 (Z.to_nat (b - a))).

(** Resolution of a Python list index against a list of [n] elements:
    negative indices count from the end, anything else is an IndexError. *)
Definition py_index (n : nat) (i : Z) : option nat :=
  if (0 <=? i) && (i <? Z.of_nat n) then Some (Z.to_nat i)
  else if (- Z.of_nat n <=? i) && (i <? 0) then Some (Z.to_nat (Z.of_nat n + i))
  else None.

Fixpoint list_set {A} (l : list A) (k : nat) (v : A) : list A :=
  match l, k with
  | [], _ => []
  | _ :: t, O => v :: t
  | h :: t, S k' => h :: list_set t k' v
  end.

(** [l[i]] and [l[i] = v] *)
Definition getitem {A} (l : list A) (i : Z) : option A :=
  match py_index (List.length l) i with
  | Some k => nth_error l k
  | None => None
  end.

Definition setitem {A} (l : list A) (i : Z) (v : A) : option (list A) :=
  match py_index (List.length l) i with
  | Some k => Some (list_set l k v)
  | None => None
  end.

(** ** Data model *)

Record Dot := mkDot { x : Z; y : Z }.

(** [Dot.__eq__] *)
Definition Dot_eq (a b : Dot) : bool := (x a =? x b) && (y a =? y b).

(** [d in l] for a list of dots (uses [Dot.__eq__]). *)
Definition contains (l : list Dot) (d : Dot) : bool := existsb (Dot_eq d) l.

Record Ship := mkShip {
  start : Dot;
  horizontal : bool;
  length : Z;
  lives : Z
}.

(** [Ship.__init__] *)
Definition Ship_init (start : Dot) (horizontal : bool) (length : Z) : Ship :=
  mkShip start horizontal length length.

(** [Ship.dots] *)
Definition dots (s : Ship) : list Dot :=
  map (fun i =>
         if horizontal s then mkDot (x (start s)) (y (start s) + i)
         else mkDot (x (start s) + i) (y (start s)))
      (range 0 (length s)).

(** [Ship.is_hit] *)
Definition is_hit (s : Ship) (shot : Dot) : bool := contains (dots s) shot.

(** [ship.lives -= 1] *)
Definition lose_life (s : Ship) : Ship :=
  mkShip (start s) (horizontal s) (length s) (lives s - 1).

(** Cell symbols of [Board.field]. *)
Inductive Cell :=
| CellO      (* "O": untouched *)
| CellShip   (* the ship marker *)
| CellX      (* "X": hit *)
| CellDot.   (* ".": miss, or margin of a sunk ship *)

Record Board := mkBoard {
  size : Z;
  field : list (list Cell);
  busy : list Dot;
  ships : list Ship;
  count : Z;
  is_hidden : bool
}.

(** [Board.__init__] *)
Definition Board_init (size : Z) (is_hidden : bool) : Board :=
  mkBoard size
          (repeat (repeat CellO (Z.to_nat size)) (Z.to_nat size))
          [] [] 0 is_hidden.

(** [Board.is_out] *)
Definition is_out (b : Board) (d : Dot) : bool :=
  negb (((0 <=? x d) && (x d <? size b)) && ((0 <=? y d) && (y d <? size b))).

(** ** Exceptions and the board monad *)

Inductive Exn :=
| BoardOutException
| BoardBusyException
| BoardShipFailureException
| IndexError.

Inductive Outcome (A : Type) :=
| Return (a : A)
| Raise (e : Exn).
Arguments Return {A} a.
Arguments Raise {A} e.

Definition M (A : Type) : Type := Board -> Board * Outcome A.

Definition ret {A} (a : A) : M A := fun b => (b, Return a).
Definition raise {A} (e : Exn) : M A := fun b => (b, Raise e).
Definition bind {A B} (m : M A) (k : A -> M B) : M B :=
  fun b => match m b with
           | (b', Return a) => k a b'
           | (b', Raise e) => (b', Raise e)
           end.
Definition get : M Board := fun b => (b, Return b).

Notation "v <- m ;; k" := (bind m (fun v => k))
  (at level 61, m at next level, right associativity).
Notation "m ;; k" := (bind m (fun _ => k))
  (at level 61, right associativity).

(** [for a in l: body(a)] *)
Fixpoint for_each {A} (l : list A) (body : A -> M unit) : M unit :=
  match l with
  | [] => ret tt
  | a :: t => body a ;; for_each t body
  end.

(** [self.field[d.x][d.y] = c] *)
Definition set_field (d : Dot) (c : Cell) : M unit :=
  fun b =>
    match getitem (field b) (x d) with
    | None => (b, Raise IndexError)
    | Some row =>
        match setitem row (y d) c with
        | None => (b, Raise IndexError)
        | Some row' =>
            match setitem (field b) (x d) row' with
            | None => (b, Raise IndexError)
            | Some f' =>
                (mkBoard (size b) f' (busy b) (ships b) (count b) (is_hidden b),
                 Return tt)
            end
        end
    end.

(** [self.busy.append(d)] *)
Definition busy_append (d : Dot) : M unit :=
  fun b => (mkBoard (size b) (field b) (busy b ++ [d]) (ships b) (count b)
                    (is_hidden b), Return tt).

(** [self.ships.append(ship)] *)
Definition ships_append (s : Ship) : M unit :=
  fun b => (mkBoard (size b) (field b) (busy b) (ships b ++ [s]) (count b)
                    (is_hidden b), Return tt).

(** The ship at position [i] of [self.ships] loses a life. *)
Definition ship_lose_life (i : nat) : M unit :=
  fun b =>
    match nth_error (ships b) i with
    | Some s =>
        (mkBoard (size b) (field b) (busy b) (list_set (ships b) i (lose_life s))
                 (count b) (is_hidden b), Return tt)
    | None => (b, Return tt)
    end.

(** [self.count += 1] *)
Definition count_incr : M unit :=
  fun b => (mkBoard (size b) (field b) (busy b) (ships b) (count b + 1)
                    (is_hidden b), Return tt).

(** ** Board operations *)

(** The cells visited by the two nested loops of [Board.contour], in order. *)
Definition contour_cells (s : Ship) : list Dot :=
  let '(cx, cy) := if horizontal s then (x (start s), y (start s))
                   else (y (start s), x (start s)) in
  flat_map (fun i =>
              map (fun j => if horizontal s then mkDot i j else mkDot j i)
                  (range (cy - 1) (cy + length s + 1)))
           (range (cx - 1) (cx + 2)).

(** [Board.contour] *)
Definition contour (s : Ship) (is_visible : bool) : M unit :=
  for_each (contour_cells s) (fun cur =>
    b <- get ;;
    if is_out b cur || contains (busy b) cur then ret tt
    else
      (if is_visible then set_field cur CellDot else ret tt) ;;
      busy_append cur).

(** [Board.add_ship] *)
Definition add_ship (s : Ship) : M unit :=
  for_each (dots s) (fun d =>
    b <- get ;;
    if is_out b d || contains (busy b) d
    then raise BoardShipFailureException
    else ret tt) ;;
  for_each (dots s) (fun d =>
    set_field d CellShip ;;
    busy_append d) ;;
  contour s false ;;
  ships_append s.

(** The [for ship in self.ships] loop of [Board.shot], from position [i]
    on; [None] when the loop ends without a [return]. *)
Fixpoint shot_ships (i : nat) (rest : list Ship) (d : Dot) : M (option bool) :=
  match rest with
  | [] => ret None
  | ship :: rest' =>
      if is_hit ship d then
        set_field d CellX ;;
        ship_lose_life i ;;
        if lives (lose_life ship) >? 0 then ret (Some true)
        else
          count_incr ;;
          contour (lose_life ship) true ;;
          ret (Some false)
      else shot_ships (S i) rest' d
  end.

(** [Board.shot] *)
Definition shot (d : Dot) : M bool :=
  b <- get ;;
  if is_out b d then raise BoardOutException
  else if contains (busy b) d then raise BoardBusyException
  else
    busy_append d ;;
    b1 <- get ;;
    r <- shot_ships 0 (ships b1) d ;;
    match r with
    | Some repeat => ret repeat
    | None => set_field d CellDot ;; ret false
    end.

(** [Board.begin] *)
Definition begin : M unit :=
  fun b => (mkBoard (size b) (field b) [] (ships b) (count b) (is_hidden b),
            Return tt).

(** ** The AI player *)

(** The three fixed cell lists of the search phase of [AI.ai_brain]. *)
Definition diagonals : list Dot :=
  map (fun i => mkDot i i) (range 0 6)
  ++ map (fun i => mkDot i (i + 3)) (range 0 3)
  ++ map (fun i => mkDot (i + 3) i) (range 0 3).

Definition offset_diagonals : list Dot :=
  map (fun i => mkDot i (i - 1)) (range 1 6)
  ++ map (fun i => mkDot i (i + 2)) (range 0 4)
  ++ [mkDot 0 5; mkDot 5 0].

Definition all_cells : list Dot :=
  flat_map (fun i => map (fun j => mkDot i j) (range 0 6)) (range 0 6).

(** [[x for x in shot_set if x not in enemy.busy]] *)
Definition not_busy (enemy : Board) (shot_set : list Dot) : list Dot :=
  filter (fun d => negb (contains (busy enemy) d)) shot_set.

(** [not shot_set] *)
Definition is_empty {A} (l : list A) : bool :=
  match l with [] => true | _ => false end.

(** [AI.ai_brain]; [prev] is [self.prev]. *)
Definition ai_brain (prev : list Dot) (enemy : Board) : list Dot :=
  match prev with
  | [p0; p1] =>
      not_busy enemy
        (if x p0 =? x p1
         then [mkDot (x p0) (Z.min (y p0) (y p1) - 1);
               mkDot (x p0) (Z.max (y p0) (y p1) + 1)]
         else [mkDot (Z.min (x p0) (x p1) - 1) (y p0);
               mkDot (Z.max (x p0) (x p1) + 1) (y p0)])
  | [p0] =>
      not_busy enemy
        [mkDot (x p0 + 1) (y p0);
         mkDot (x p0 - 1) (y p0);
         mkDot (x p0) (y p0 + 1);
         mkDot (x p0) (y p0 - 1)]
  | _ =>
      let shot_set := not_busy enemy diagonals in
      if is_empty shot_set then
        let shot_set := not_busy enemy offset_diagonals in
        if is_empty shot_set then not_busy enemy all_cells
        else shot_set
      else shot_set
  end.

(** The random source: the [k]-th draw is [rnd k]. *)
Definition Rand := nat -> Z.

(** [random.randint(a, b)] on the raw draw [r], for [a <= b].  (For
    [a > b] the call raises ValueError; [try_board] makes such a call only
    for a board side below 1.) *)
Definition randint (a b : Z) (r : Z) : Z := a + r mod (b - a + 1).

(** [random.choice(l)] on the raw draw [r]; [None] is the IndexError
    raised for an empty list. *)
Definition choice {A} (l : list A) (r : Z) : option A :=
  match l with
  | [] => None
  | _ => nth_error l (Z.to_nat (r mod Z.of_nat (List.length l)))
  end.

(** [AI.ask] *)
Definition AI_ask (rnd : Rand) (k : nat) (prev : list Dot) (enemy : Board)
  : option Dot :=
  choice (ai_brain prev enemy) (rnd k).

Inductive MoveResult :=
| Moved (enemy : Board) (prev : list Dot) (repeat : bool) (k : nat)
| Uncaught (e : Exn)
| OutOfFuel.

(** The [while True] loop of [Player.move] for the AI: at most [fuel]
    iterations.  A [BoardException] is caught and the loop retries; the
    IndexError of [choice] on an empty list is not. *)
Fixpoint move_loop (fuel : nat) (rnd : Rand) (k : nat) (is_sunk : Z)
         (prev : list Dot) (enemy : Board) : MoveResult :=
  match fuel with
  | O => OutOfFuel
  | S fuel' =>
      match AI_ask rnd k prev enemy with
      | None => Uncaught IndexError
      | Some target =>
          match shot target enemy with
          | (enemy', Return repeat) =>
              let prev1 := if repeat then prev ++ [target] else prev in
              let prev2 := if negb (is_sunk =? count enemy') then [] else prev1 in
              Moved enemy' prev2 repeat (S k)
          | (_, Raise IndexError) => Uncaught IndexError
          | (enemy', Raise _) => move_loop fuel' rnd (S k) is_sunk prev enemy'
          end
      end
  end.

(** [Player.move] for the AI. *)
Definition AI_move (fuel : nat) (rnd : Rand) (k : nat)
           (prev : list Dot) (enemy : Board) : MoveResult :=
  move_loop fuel rnd k (count enemy) prev enemy.

(** ** Match setup *)

Definition lens : list Z := [3; 2; 2; 1; 1; 1; 1].

(** The [for attempt in range(0, 2000)] loop of [Game.try_board] for one
    length [l].  [Return (Some _)] carries on with the next length,
    [Return None] is [return None]. *)
Fixpoint try_attempts (sz l : Z) (rnd : Rand) (attempts : list Z) (k : nat)
         (board : Board) : Outcome (option (Board * nat)) :=
  match attempts with
  | [] => Return (Some (board, k))
  | attempt :: rest =>
      let ship :=
        Ship_init (mkDot (randint 0 (sz - 1) (rnd k))
                         (randint 0 (sz - 1) (rnd (S k))))
                  (negb (randint 0 1 (rnd (S (S k))) =? 0)) l in
      match add_ship ship board with
      | (board', Return _) => Return (Some (board', S (S (S k))))
      | (board', Raise BoardShipFailureException) =>
          if attempt =? 1999 then Return None
          else try_attempts sz l rnd rest (S (S (S k))) board'
      | (_, Raise e) => Raise e
      end
  end.

(** The [for l in lens] loop. *)
Fixpoint try_lens (sz : Z) (rnd : Rand) (ls : list Z) (k : nat)
         (board : Board) : Outcome (option (Board * nat)) :=
  match ls with
  | [] => Return (Some (board, k))
  | l :: ls' =>
      match try_attempts sz l rnd (range 0 2000) k board with
      | Return (Some (board', k')) => try_lens sz rnd ls' k' board'
      | other => other
      end
  end.

(** [Game.try_board] *)
Definition try_board (sz : Z) (rnd : Rand) (k : nat)
  : Outcome (option (Board * nat)) :=
  match try_lens sz rnd lens k (Board_init sz false) with
  | Return (Some (board, k')) => Return (Some (fst (begin board), k'))
  | other => other
  end.

(** The board size of [g = Game(6)]. *)
Definition game_size : Z := 6.

(** ** Specification-side notions *)

(** [d] lies on a board of side [n]. *)
Definition in_bounds (n : Z) (d : Dot) : Prop :=
  0 <= x d < n /\ 0 <= y d < n.

(** The rectangle reaching one cell beyond the bounding box of a vessel in
    every direction. *)
Definition margin_rect (s : Ship) (d : Dot) : Prop :=
  if horizontal s
  then x (start s) - 1 <= x d <= x (start s) + 1
       /\ y (start s) - 1 <= y d <= y (start s) + length s
  else x (start s) - 1 <= x d <= x (start s) + length s
       /\ y (start s) - 1 <= y d <= y (start s) + 1.

(** [d] is a cell of the vessel or within one step (king move) of one. *)
Definition touches (s : Ship) (d : Dot) : Prop :=
  exists c, In c (dots s) /\ Z.abs (x d - x c) <= 1 /\ Z.abs (y d - y c) <= 1.

(** The field is a square matrix of side [size], as [Board.__init__]
    builds it. *)
Definition field_ok (b : Board) : Prop :=
  List.length (field b) = Z.to_nat (size b)
  /\ Forall (fun row => List.length row = Z.to_nat (size b)) (field b).

(** The busy list after a [contour] pass over [cells], as a pure fold. *)
Definition margin_busy (n : Z) (cells : list Dot) (bz : list Dot) : list Dot :=
  fold_left (fun acc cur =>
               if negb (((0 <=? x cur) && (x cur <? n))
                        && ((0 <=? y cur) && (y cur <? n)))
                  || contains acc cur
               then acc else acc ++ [cur])
            cells bz.

(** Number of cells of a vessel that are not in a busy list. *)
Definition free_cells (bz : list Dot) (s : Ship) : Z :=
  Z.of_nat (List.length (filter (fun d => negb (contains bz d)) (dots s))).

(** Number of vessels with no life left. *)
Definition sunk_ships (l : list Ship) : Z :=
  Z.of_nat (List.length (filter (fun s => lives s =? 0) l)).

(** ** Notions used in the statements and proofs *)

(** Outcome-independent properties of computations: [stable R m] says that
    the boards before and after [m] are related by [R], whether [m] returns
    or raises. *)
Definition stable (R : Board -> Board -> Prop) {A} (m : M A) : Prop :=
  forall b b' r, m b = (b', r) -> R b b'.

(** [b'] has the size of [b] and at least its busy cells. *)
Definition extends (b b' : Board) : Prop :=
  size b' = size b /\ incl (busy b) (busy b').

(** A computation is growing when, whatever its outcome, it keeps the
    board size and only ever adds to the busy list. *)
Definition growing {A} (m : M A) : Prop := stable extends m.

(** A square matrix of side [n]. *)
Definition dims (n : Z) (f : list (list Cell)) : Prop :=
  List.length f = Z.to_nat n
  /\ Forall (fun row => List.length row = Z.to_nat n) f.

(** The validating pre-pass of [add_ship] as a boolean. *)
Definition placeable (b : Board) (s : Ship) : bool :=
  forallb (fun d => negb (is_out b d || contains (busy b) d)) (dots s).

(** What a shot at a free in-bounds cell does to a well-shaped board:
    a miss, a non-lethal hit on the first vessel holding the cell, or a
    lethal one. *)
Inductive fired (b : Board) (d : Dot) : Board -> bool -> Prop :=
| fired_miss f' :
    (forall t, In t (ships b) -> ~ In d (dots t)) ->
    dims (size b) f' ->
    fired b d (mkBoard (size b) f' (busy b ++ [d]) (ships b) (count b)
                       (is_hidden b)) false
| fired_wound l1 s l2 f' :
    ships b = l1 ++ s :: l2 ->
    (forall t, In t l1 -> ~ In d (dots t)) ->
    In d (dots s) ->
    dims (size b) f' ->
    0 < lives s - 1 ->
    fired b d (mkBoard (size b) f' (busy b ++ [d]) (l1 ++ lose_life s :: l2)
                       (count b) (is_hidden b)) true
| fired_sunk l1 s l2 f' :
    ships b = l1 ++ s :: l2 ->
    (forall t, In t l1 -> ~ In d (dots t)) ->
    In d (dots s) ->
    dims (size b) f' ->
    lives s - 1 <= 0 ->
    fired b d (mkBoard (size b) f'
                       (margin_busy (size b) (contour_cells s) (busy b ++ [d]))
                       (l1 ++ lose_life s :: l2) (count b + 1) (is_hidden b))
          false.

(** The only exception a computation can raise is an IndexError. *)
Definition index_only {A} (m : M A) : Prop :=
  forall b b' e, m b = (b', Raise e) -> e = IndexError.

(** The sunk counter is unchanged. *)
Definition same_count (b b' : Board) : Prop := count b' = count b.

(** [s'] is, after the shot, a vessel of [b] that holds [d] and lost one
    life to it. *)
Definition took_hit (b b' : Board) (d : Dot) (s' : Ship) : Prop :=
  exists i s, nth_error (ships b) i = Some s
              /\ nth_error (ships b') i = Some s'
              /\ In d (dots s)
              /\ lives s' = lives s - 1.

(** Example boards. *)
Definition demo_ship : Ship := Ship_init (mkDot 0 0) true 2.
Definition demo_board : Board :=
  fst (begin (fst (add_ship demo_ship (Board_init 6 false)))).

(** The primary diagonal stripes of the 6x6 board, and the offset ones. *)
Definition on_diagonals (d : Dot) : Prop :=
  in_bounds 6 d /\ (y d = x d \/ y d = x d + 3 \/ x d = y d + 3).

Definition on_offset_diagonals (d : Dot) : Prop :=
  in_bounds 6 d
  /\ (y d = x d - 1 \/ y d = x d + 2 \/ d = mkDot 0 5 \/ d = mkDot 5 0).

(** No cell of [s] lies in the margin rectangle of [t]. *)
Definition apart (s t : Ship) : Prop :=
  forall d, In d (dots s) -> ~ margin_rect t d.

(** Vessels at different positions of the list do not touch. *)
Fixpoint separated (l : list Ship) : Prop :=
  match l with
  | [] => True
  | s :: rest => (forall t, In t rest -> apart s t /\ apart t s) /\ separated rest
  end.

(** A fleet on a board of side [n]: vessels of length at least 1, inside
    the board, pairwise not touching. *)
Definition fleet_ok (n : Z) (l : list Ship) : Prop :=
  separated l
  /\ forall s, In s l ->
       1 <= length s /\ forall d, In d (dots s) -> in_bounds n d.

(** The vessel as it was built: same cells, all lives. *)
Definition hull (s : Ship) : Ship := Ship_init (start s) (horizontal s) (length s).

(** What holds while vessels are being placed. *)
Definition placing_inv (b : Board) : Prop :=
  field_ok b /\ count b = 0 /\ fleet_ok (size b) (ships b)
  /\ (forall s, In s (ships b) -> lives s = length s)
  /\ (forall s d, In s (ships b) -> in_bounds (size b) d -> margin_rect s d ->
                  In d (busy b)).

(** What holds once the match has begun. *)
Definition playing_inv (b : Board) : Prop :=
  field_ok b /\ fleet_ok (size b) (ships b)
  /\ (forall s, In s (ships b) -> lives s = free_cells (busy b) s)
  /\ count b = sunk_ships (ships b).

(** The three operations on a grid; an added vessel is built by
    [Ship_init]. *)
Inductive Op :=
| OpAdd (start : Dot) (horizontal : bool) (length : Z)
| OpBegin
| OpFire (d : Dot).

(** The board after one operation, whether it returned or raised. *)
Definition run_op (b : Board) (op : Op) : Board :=
  match op with
  | OpAdd p h len => fst (add_ship (Ship_init p h len) b)
  | OpBegin => fst (begin b)
  | OpFire d => fst (shot d b)
  end.

Definition run (ops : list Op) (b : Board) : Board := fold_left run_op ops b.

(** An [OpAdd] of a vessel of length at least 1; an [OpFire]. *)
Definition is_add (op : Op) : bool :=
  match op with OpAdd _ _ len => 1 <=? len | _ => false end.

Definition is_fire (op : Op) : bool :=
  match op with OpFire _ => true | _ => false end.

(** A shot at [d] on [b] passes the guards of [shot] and finds a vessel
    holding [d]. *)
Definition hits (b : Board) (d : Dot) : bool :=
  negb (is_out b d) && negb (contains (busy b) d)
  && existsb (fun s => is_hit s d) (ships b).

(** A sequence of operations, run from [b], in which every added vessel
    has length at least 1 and no [begin] comes after a shot that hit a
    vessel; [hit] tells whether a shot has hit before the sequence
    starts. *)
Fixpoint orderly (hit : bool) (b : Board) (ops : list Op) : bool :=
  match ops with
  | [] => true
  | op :: rest =>
      match op with
      | OpAdd _ _ len => 1 <=? len
      | OpBegin => negb hit
      | OpFire _ => true
      end
      && orderly (match op with OpFire d => hit || hits b d | _ => hit end)
                 (run_op b op) rest
  end.

(** What holds along an orderly sequence: no vessel has lost more lives
    than it has busy cells, and none has lost any before the first hit. *)
Definition counter_inv (hit : bool) (b : Board) : Prop :=
  field_ok b
  /\ (forall s, In s (ships b) ->
        1 <= length s /\ free_cells (busy b) s <= lives s)
  /\ count b = sunk_ships (ships b)
  /\ (hit = false -> forall s, In s (ships b) -> lives s = length s).

(** An orderly sequence: a shot during placement, two [begin]s with only
    a miss between them, vessels added after [begin] (one of them over
    the first), shots before and after a late addition. *)
Definition demo_ops : list Op :=
  [OpFire (mkDot 4 4); OpAdd (mkDot 0 0) true 2; OpBegin; OpFire (mkDot 5 5);
   OpBegin; OpAdd (mkDot 0 0) false 3; OpAdd (mkDot 3 3) false 1; OpBegin;
   OpFire (mkDot 0 0); OpFire (mkDot 0 1); OpAdd (mkDot 5 0) true 2;
   OpFire (mkDot 1 0); OpFire (mkDot 2 0); OpFire (mkDot 3 3)].

(** Orthogonal neighbours. *)
Definition adjacent (p q : Dot) : Prop :=
  Z.abs (x p - x q) + Z.abs (y p - y q) = 1.

(** A vessel that is untouched or sunk. *)
Definition calm (t : Ship) : Prop := lives t = length t \/ lives t = 0.

(** [s] is the wounded vessel the AI is after: [prev] holds exactly its hit
    cells, every other vessel is untouched or sunk. *)
Definition hunting (b : Board) (prev : list Dot) (s : Ship) : Prop :=
  In s (ships b)
  /\ 0 < lives s
  /\ lives s = length s - Z.of_nat (List.length prev)
  /\ (forall c, In c prev <-> In c (dots s) /\ In c (busy b))
  /\ (forall t, In t (ships b) -> t <> s -> calm t)
  /\ (forall p0 p1, prev = [p0; p1] -> adjacent p0 p1).

Definition hunt_inv (b : Board) (prev : list Dot) : Prop :=
  match prev with
  | [] => forall t, In t (ships b) -> calm t
  | _ => exists s, hunting b prev s
  end.

(** What holds of the enemy board and of the AI's [prev] between moves. *)
Definition game_inv (b : Board) (prev : list Dot) : Prop :=
  playing_inv b /\ size b = game_size /\ map length (ships b) = lens
  /\ hunt_inv b prev.

(** The states the AI can be asked to move in: the enemy board comes out
    of [try_board] and is then only changed by the AI's own moves, each
    made while the enemy's counter is not yet 7 (the loop of [Game.loop]
    stops there). *)
Inductive ai_play : Board -> list Dot -> Prop :=
| ai_play_start rnd k b k' :
    try_board game_size rnd k = Return (Some (b, k')) ->
    ai_play b []
| ai_play_move b prev fuel rnd k b' prev' repeat k' :
    ai_play b prev ->
    count b <> 7 ->
    AI_move fuel rnd k prev b = Moved b' prev' repeat k' ->
    ai_play b' prev'.

(** A random source under which [try_board] places the whole fleet at its
    first attempts. *)
Definition demo_rnd : Rand :=
  fun k => nth k [0; 0; 1;  2; 0; 1;  2; 3; 1;  4; 0; 1;  4; 2; 1;  4; 4; 1;
                  0; 4; 1] 0.

Definition demo_game : Board :=
  match try_board game_size demo_rnd 0 with
  | Return (Some (b, _)) => b
  | _ => Board_init game_size false
  end.

(** The same board after a first AI move that wounds the vessel at (0,0). *)
Definition demo_game_hit : Board :=
  match AI_move 1 (fun _ => 0) 0 [] demo_game with
  | Moved b _ _ _ => b
  | _ => demo_game
  end.

(** ** The rest of the program: reading the field, the user's move, the game loop *)

(** [self.field[d.x][d.y]] *)
Definition get_field (b : Board) (d : Dot) : option Cell :=
  match getitem (field b) (x d) with
  | Some row => getitem row (y d)
  | None => None
  end.

(** How many shots of a sequence return (rather than raise), each fired at
    the board the previous ones left. *)
Fixpoint returned_shots (ds : list Dot) (b : Board) : nat :=
  match ds with
  | [] => O
  | d :: rest =>
      match shot d b with
      | (b', Return _) => S (returned_shots rest b')
      | (b', Raise _) => returned_shots rest b'
      end
  end.

(** The board after a sequence of shots, whatever their outcomes. *)
Definition after_shots (ds : list Dot) (b : Board) : Board :=
  fold_left (fun b d => fst (shot d b)) ds b.

(** All cells of a vessel lie on a board of side [n]. *)
Definition fits (n : Z) (s : Ship) : Prop :=
  forall d, In d (dots s) -> in_bounds n d.





(** The two players of [Game]: [user_board] is [player_1] (the AI's enemy),
    [ai_board] is [player_2] (the user's enemy); each player has its
    [prev]. *)
Record Game := mkGame {
  user_board : Board;
  ai_board : Board;
  user_prev : list Dot;
  ai_prev : list Dot
}.

(** [Game.__init__], given the two boards [random_board] returned:
    [player_2.is_hidden = True]. *)
Definition Game_init (player_1 player_2 : Board) : Game :=
  mkGame player_1
         (mkBoard (size player_2) (field player_2) (busy player_2)
                  (ships player_2) (count player_2) true)
         [] [].



(** From [b] to [b'] the size is kept, the busy list only grows and, on a
    well-shaped board, the marks on the cells that were busy stay. *)
Definition keeps_marks (b b' : Board) : Prop :=
  extends b b'
  /\ (field_ok b ->
      field_ok b'
      /\ forall d, in_bounds (size b) d -> In d (busy b) ->
                   get_field b' d = get_field b d).

(** All cells of a board of side [n]. *)
Definition board_cells (n : Z) : list Dot :=
  flat_map (fun i => map (fun j => mkDot i j) (range 0 n)) (range 0 n).

(** A well-shaped board whose busy list is a duplicate-free list of cells
    of the board. *)
Definition tidy (b : Board) : Prop :=
  field_ok b /\ NoDup (busy b)
  /\ forall d, In d (busy b) -> in_bounds (size b) d.

(** The field shows the ship marker exactly on the cells of the vessels
    and "O" on the other cells of the board. *)
Definition shows_fleet (b : Board) : Prop :=
  forall d, in_bounds (size b) d ->
    get_field b d
    = Some (if existsb (fun s => is_hit s d) (ships b) then CellShip else CellO).

(** What holds of the board [try_board] is filling. *)
Definition setup_inv (b : Board) : Prop :=
  placing_inv b /\ is_hidden b = false /\ shows_fleet b.

(** Boolean check, for a start cell [c]: each vessel of length [len]
    starting at [c] that lies on the 6x6 board has a cell in [pattern]. *)
Definition covered_from (pattern : list Dot) (len : Z) (c : Dot) : bool :=
  forallb (fun h =>
             implb (forallb (contains all_cells) (dots (Ship_init c h len)))
                   (existsb (contains pattern) (dots (Ship_init c h len))))
          [true; false].

(** [n] completed AI moves in a row, each made while the enemy's counter
    is not 7; [None] when a move does not complete within [fuel] retries. *)
Fixpoint ai_moves (n : nat) (fuel : nat) (rnd : Rand) (k : nat)
         (prev : list Dot) (b : Board) : option (Board * list Dot) :=
  match n with
  | O => Some (b, prev)
  | S n' =>
      if count b =? 7 then None
      else match AI_move fuel rnd k prev b with
           | Moved b' prev' _ k' => ai_moves n' fuel rnd k' prev' b'
           | _ => None
           end
  end.

(** The demo game after 17 AI moves: both diagonal patterns are used up. *)
Definition demo_game_late : Board :=
  match ai_moves 17 10 (fun k => Z.of_nat k) 0 [] demo_game with
  | Some (b, _) => b
  | None => demo_game
  end.


(** ** [Board.__str__] *)

(** Python strings as lists of code points. *)
Definition pystr := list N.

(** An ASCII literal. *)
Definition lit (s : string) : pystr :=
  map N_of_ascii (list_ascii_of_string s).

(** The digits of [str(i)]. *)
Fixpoint digits (d : Decimal.uint) : pystr :=
  match d with
  | Decimal.Nil => []
  | Decimal.D0 d => 48%N :: digits d
  | Decimal.D1 d => 49%N :: digits d
  | Decimal.D2 d => 50%N :: digits d
  | Decimal.D3 d => 51%N :: digits d
  | Decimal.D4 d => 52%N :: digits d
  | Decimal.D5 d => 53%N :: digits d
  | Decimal.D6 d => 54%N :: digits d
  | Decimal.D7 d => 55%N :: digits d
  | Decimal.D8 d => 56%N :: digits d
  | Decimal.D9 d => 57%N :: digits d
  end.

(** [f'{i}'] for an integer [i]: its decimal digits, after a minus sign
    when negative. *)
Definition format_int (i : Z) : pystr :=
  match Z.to_int i with
  | Decimal.Pos d => digits d
  | Decimal.Neg d => 45%N :: digits d
  end.

(** The code point of the ship marker, U+25A0. *)
Definition ship_marker : N := 9632.

(** The one-character string held by a cell of the field. *)
Definition symbol (c : Cell) : pystr :=
  match c with
  | CellO => lit "O"
  | CellShip => [ship_marker]
  | CellX => lit "X"
  | CellDot => lit "."
  end.

(** [sep.join(l)] *)
Fixpoint join (sep : pystr) (l : list pystr) : pystr :=
  match l with
  | [] => []
  | [a] => a
  | a :: t => a ++ sep ++ join sep t
  end.

(** [s.replace(old, new)] for one-character [old] and [new]. *)
Definition replace_char (old new : N) (s : pystr) : pystr :=
  map (fun c => if N.eqb c old then new else c) s.

(** [enumerate(l)] *)
Definition enumerate {A} (l : list A) : list (Z * A) :=
  combine (map Z.of_nat (seq 0 (List.length l))) l.

(** [Board.__str__] *)
Definition Board_str (b : Board) : pystr :=
  let res :=
    lit "    "
    ++ List.concat (map (fun i => lit " " ++ format_int i ++ lit " |")
                        (range 1 (size b + 1))) in
  let res :=
    fold_left (fun res ir =>
                 res ++ [10%N] ++ lit " " ++ format_int (fst ir + 1) ++ lit " | "
                     ++ join (lit " | ") (map symbol (snd ir)) ++ lit " |")
              (enumerate (field b)) res in
  let res := res ++ [10%N] in
  if is_hidden b then replace_char ship_marker 79%N res else res.

(** The board as the opponent may see it: ship cells shown as untouched. *)
Definition hide_cell (c : Cell) : Cell :=
  match c with CellShip => CellO | _ => c end.

Definition hidden_view (b : Board) : Board :=
  mkBoard (size b) (map (map hide_cell) (field b)) (busy b) (ships b)
          (count b) false.

(** One round of the row loop of [Board.__str__]. *)
Definition str_row (res : pystr) (ir : Z * list Cell) : pystr :=
  res ++ [10%N] ++ lit " " ++ format_int (fst ir + 1) ++ lit " | "
      ++ join (lit " | ") (map symbol (snd ir)) ++ lit " |".



(** * Basic facts *)

Lemma range_In (a b k : Z) : In k (range a b) <-> a <= k < b.
Proof.
  unfold range. rewrite in_map_iff. split.
  - intros [n [<- Hn]]. apply in_seq in Hn. lia.
  - intros H. exists (Z.to_nat (k - a)). split; [lia|].
    apply in_seq. lia.
Qed.

Lemma range_NoDup (a b : Z) : NoDup (range a b).
Proof.
  unfold range. generalize (seq_NoDup (Z.to_nat (b - a)) 0).
  generalize (seq 0 (Z.to_nat (b - a))) as l.
  induction l as [|n l IH]; intros Hnd; simpl; [constructor|].
  inversion Hnd as [|? ? Hn Hl]; subst. constructor; auto.
  rewrite in_map_iff. intros [m [Hm Hin]].
  assert (m = n) by lia. subst. contradiction.
Qed.

Lemma Dot_eq_true (a b : Dot) : Dot_eq a b = true <-> a = b.
Proof.
  unfold Dot_eq. rewrite andb_true_iff, !Z.eqb_eq.
  destruct a, b; simpl. split.
  - intros [-> ->]. reflexivity.
  - intros H. inversion H. auto.
Qed.

Lemma Dot_eq_dec (a b : Dot) : {a = b} + {a <> b}.
Proof.
  destruct (Dot_eq a b) eqn:E.
  - left. apply Dot_eq_true. exact E.
  - right. intros H. apply Dot_eq_true in H. congruence.
Defined.

Lemma contains_In (l : list Dot) (d : Dot) : contains l d = true <-> In d l.
Proof.
  unfold contains. rewrite existsb_exists. split.
  - intros [c [Hc E]]. apply Dot_eq_true in E. subst. exact Hc.
  - intros H. exists d. split; [exact H|]. apply Dot_eq_true. reflexivity.
Qed.

Lemma contains_false (l : list Dot) (d : Dot) : contains l d = false <-> ~ In d l.
Proof.
  rewrite <- contains_In. destruct (contains l d); split; congruence.
Qed.

Lemma is_out_false (b : Board) (d : Dot) :
  is_out b d = false <-> in_bounds (size b) d.
Proof.
  unfold is_out, in_bounds. rewrite negb_false_iff, !andb_true_iff.
  rewrite !Z.leb_le, !Z.ltb_lt. tauto.
Qed.

Lemma is_out_true (b : Board) (d : Dot) :
  is_out b d = true <-> ~ in_bounds (size b) d.
Proof.
  rewrite <- is_out_false. destruct (is_out b d); split; congruence.
Qed.

Lemma dots_In (s : Ship) (d : Dot) :
  In d (dots s) <->
  exists i, 0 <= i < length s /\
            d = if horizontal s then mkDot (x (start s)) (y (start s) + i)
                else mkDot (x (start s) + i) (y (start s)).
Proof.
  unfold dots. rewrite in_map_iff. split.
  - intros [i [<- Hi]]. apply range_In in Hi. exists i. auto.
  - intros [i [Hi ->]]. exists i. split; [reflexivity|]. apply range_In. exact Hi.
Qed.

Lemma dots_NoDup (s : Ship) : NoDup (dots s).
Proof.
  unfold dots. generalize (range_NoDup 0 (length s)).
  generalize (range 0 (length s)) as l.
  induction l as [|i l IH]; intros Hnd; simpl; [constructor|].
  inversion Hnd as [|? ? Hi Hl]; subst. constructor; auto.
  rewrite in_map_iff. intros [j [Hj Hin]].
  assert (j = i) by (destruct (horizontal s); inversion Hj; lia).
  subst. contradiction.
Qed.

Lemma dots_length (s : Ship) : 0 <= length s ->
  Z.of_nat (List.length (dots s)) = length s.
Proof.
  intros H. unfold dots, range. rewrite !length_map, length_seq. lia.
Qed.

Lemma dots_lose_life (s : Ship) : dots (lose_life s) = dots s.
Proof. reflexivity. Qed.

Lemma contour_cells_In (s : Ship) (d : Dot) :
  In d (contour_cells s) <-> margin_rect s d.
Proof.
  unfold contour_cells, margin_rect.
  destruct (horizontal s); rewrite in_flat_map; split.
  - intros [i [Hi Hd]]. apply in_map_iff in Hd. destruct Hd as [j [<- Hj]].
    apply range_In in Hi. apply range_In in Hj. simpl. lia.
  - intros H. exists (x d). split; [apply range_In; lia|].
    apply in_map_iff. exists (y d). split; [destruct d; reflexivity|].
    apply range_In. lia.
  - intros [i [Hi Hd]]. apply in_map_iff in Hd. destruct Hd as [j [<- Hj]].
    apply range_In in Hi. apply range_In in Hj. simpl. lia.
  - intros H. exists (y d). split; [apply range_In; lia|].
    apply in_map_iff. exists (x d). split; [destruct d; reflexivity|].
    apply range_In. lia.
Qed.

(** For a vessel of length at least 1 the margin rectangle is exactly the
    set of cells touching the vessel. *)
Lemma margin_rect_touches (s : Ship) (d : Dot) :
  1 <= length s -> (margin_rect s d <-> touches s d).
Proof.
  intros Hlen. unfold margin_rect, touches. split.
  - intros H.
    pose (i := if horizontal s
               then Z.max 0 (Z.min (length s - 1) (y d - y (start s)))
               else Z.max 0 (Z.min (length s - 1) (x d - x (start s)))).
    exists (if horizontal s then mkDot (x (start s)) (y (start s) + i)
            else mkDot (x (start s) + i) (y (start s))).
    split.
    + apply dots_In. exists i. split; [|reflexivity].
      unfold i. destruct (horizontal s); lia.
    + unfold i. destruct (horizontal s); simpl; lia.
  - intros [c [Hc [Hx Hy]]]. apply dots_In in Hc. destruct Hc as [i [Hi ->]].
    destruct (horizontal s); simpl in *; lia.
Qed.

(** * Reasoning about board computations *)

Lemma bind_inv {A B} (m : M A) (k : A -> M B) (b b' : Board) (r : Outcome B) :
  bind m k b = (b', r) ->
  (exists b1 a, m b = (b1, Return a) /\ k a b1 = (b', r))
  \/ (exists e, m b = (b', Raise e) /\ r = Raise e).
Proof.
  unfold bind. destruct (m b) as [b1 [a|e]]; intros H.
  - left. exists b1, a. auto.
  - right. inversion H; subst. exists e. auto.
Qed.

Lemma bind_Return {A B} (m : M A) (k : A -> M B) (b b1 : Board) (a : A) :
  m b = (b1, Return a) -> bind m k b = k a b1.
Proof. intros H. unfold bind. rewrite H. reflexivity. Qed.

(** Combinators for [stable R], for a preorder [R]. *)
Section Stable.
Variable R : Board -> Board -> Prop.
Hypothesis R_refl : forall b, R b b.
Hypothesis R_trans : forall a b c, R a b -> R b c -> R a c.

Lemma stable_ret {A} (a : A) : stable R (ret a).
Proof. intros b b' r H. inversion H; subst. apply R_refl. Qed.

Lemma stable_raise {A} (e : Exn) : stable R (@raise A e).
Proof. intros b b' r H. inversion H; subst. apply R_refl. Qed.

Lemma stable_get : stable R get.
Proof. intros b b' r H. inversion H; subst. apply R_refl. Qed.

Lemma stable_bind {A B} (m : M A) (k : A -> M B) :
  stable R m -> (forall a, stable R (k a)) -> stable R (bind m k).
Proof.
  intros Hm Hk b b' r H. apply bind_inv in H.
  destruct H as [[b1 [a [H1 H2]]] | [e [H1 _]]].
  - eapply R_trans; [eapply Hm | eapply Hk]; eauto.
  - eapply Hm; eauto.
Qed.

Lemma stable_for_each {A} (l : list A) (body : A -> M unit) :
  (forall a, stable R (body a)) -> stable R (for_each l body).
Proof.
  intros Hb. induction l as [|a l IH]; simpl.
  - apply stable_ret.
  - apply stable_bind; auto.
Qed.

(** Primitives that leave the [R]-relevant part of the board alone. *)
Hypothesis R_field : forall b f,
  R b (mkBoard (size b) f (busy b) (ships b) (count b) (is_hidden b)).
Hypothesis R_busy : forall b d,
  R b (mkBoard (size b) (field b) (busy b ++ [d]) (ships b) (count b)
               (is_hidden b)).

Lemma stable_set_field (d : Dot) (c : Cell) : stable R (set_field d c).
Proof.
  intros b b' r H. unfold set_field in H.
  destruct (getitem (field b) (x d)) as [row|];
    [|inversion H; subst; apply R_refl].
  destruct (setitem row (y d) c) as [row'|];
    [|inversion H; subst; apply R_refl].
  destruct (setitem (field b) (x d) row') as [f'|]; inversion H; subst;
    [apply R_field | apply R_refl].
Qed.

Lemma stable_busy_append (d : Dot) : stable R (busy_append d).
Proof. intros b b' r H. inversion H; subst. apply R_busy. Qed.

Lemma stable_contour (s : Ship) (vis : bool) : stable R (contour s vis).
Proof.
  unfold contour. apply stable_for_each. intros cur.
  apply stable_bind; [apply stable_get|]. intros b0.
  destruct (is_out b0 cur || contains (busy b0) cur); [apply stable_ret|].
  apply stable_bind; [|intros; apply stable_busy_append].
  destruct vis; [apply stable_set_field | apply stable_ret].
Qed.
End Stable.

Lemma extends_refl (b : Board) : extends b b.
Proof. split; [reflexivity | apply incl_refl]. Qed.

Lemma extends_trans (a b c : Board) : extends a b -> extends b c -> extends a c.
Proof.
  intros [H1 H2] [H3 H4]. split; [congruence | eapply incl_tran; eauto].
Qed.

Lemma extends_field (b : Board) (f : list (list Cell)) :
  extends b (mkBoard (size b) f (busy b) (ships b) (count b) (is_hidden b)).
Proof. split; simpl; [reflexivity | apply incl_refl]. Qed.

Lemma extends_busy (b : Board) (d : Dot) :
  extends b (mkBoard (size b) (field b) (busy b ++ [d]) (ships b) (count b)
                     (is_hidden b)).
Proof. split; simpl; [reflexivity | apply incl_appl, incl_refl]. Qed.

Lemma growing_ret {A} (a : A) : growing (ret a).
Proof. apply stable_ret, extends_refl. Qed.

Lemma growing_raise {A} (e : Exn) : growing (@raise A e).
Proof. apply stable_raise, extends_refl. Qed.

Lemma growing_get : growing get.
Proof. apply stable_get, extends_refl. Qed.

Lemma growing_bind {A B} (m : M A) (k : A -> M B) :
  growing m -> (forall a, growing (k a)) -> growing (bind m k).
Proof. apply stable_bind, extends_trans. Qed.

Lemma growing_set_field (d : Dot) (c : Cell) : growing (set_field d c).
Proof. apply stable_set_field; [apply extends_refl | apply extends_field]. Qed.

Lemma growing_busy_append (d : Dot) : growing (busy_append d).
Proof. apply stable_busy_append, extends_busy. Qed.

Lemma growing_ships_append (s : Ship) : growing (ships_append s).
Proof.
  intros b b' r H. inversion H; subst. split; simpl; [reflexivity | apply incl_refl].
Qed.

Lemma growing_ship_lose_life (i : nat) : growing (ship_lose_life i).
Proof.
  intros b b' r H. unfold ship_lose_life in H.
  destruct (nth_error (ships b) i); inversion H; subst;
    [split; simpl; [reflexivity | apply incl_refl] | apply extends_refl].
Qed.

Lemma growing_count_incr : growing count_incr.
Proof.
  intros b b' r H. inversion H; subst. split; simpl; [reflexivity | apply incl_refl].
Qed.

Lemma growing_contour (s : Ship) (vis : bool) : growing (contour s vis).
Proof.
  apply stable_contour;
    [apply extends_refl | apply extends_trans | apply extends_field
    | apply extends_busy].
Qed.

Lemma growing_shot_ships (rest : list Ship) (d : Dot) :
  forall i, growing (shot_ships i rest d).
Proof.
  induction rest as [|s rest IH]; intros i; simpl.
  - apply growing_ret.
  - destruct (is_hit s d); [|apply IH].
    apply growing_bind; [apply growing_set_field|]. intros _.
    apply growing_bind; [apply growing_ship_lose_life|]. intros _.
    match goal with |- growing (if ?c then _ else _) => destruct c end;
      [apply growing_ret|].
    apply growing_bind; [apply growing_count_incr|]. intros _.
    apply growing_bind; [apply growing_contour|]. intros _.
    apply growing_ret.
Qed.

Lemma growing_shot (d : Dot) : growing (shot d).
Proof.
  unfold shot. apply growing_bind; [apply growing_get|]. intros b0.
  destruct (is_out b0 d); [apply growing_raise|].
  destruct (contains (busy b0) d); [apply growing_raise|].
  apply growing_bind; [apply growing_busy_append|]. intros _.
  apply growing_bind; [apply growing_get|]. intros b1.
  apply growing_bind; [apply growing_shot_ships|]. intros [r|].
  - apply growing_ret.
  - apply growing_bind; [apply growing_set_field | intros; apply growing_ret].
Qed.

Lemma extends_is_out (b b' : Board) (d : Dot) :
  extends b b' -> is_out b' d = is_out b d.
Proof. intros [H _]. unfold is_out. rewrite H. reflexivity. Qed.

(** ** Exact effect of the primitives on a well-shaped board *)

Lemma list_set_length {A} (l : list A) (k : nat) (v : A) :
  List.length (list_set l k v) = List.length l.
Proof.
  revert k. induction l as [|h t IH]; intros [|k]; simpl; auto.
Qed.

Lemma list_set_Forall {A} (P : A -> Prop) (l : list A) (k : nat) (v : A) :
  Forall P l -> P v -> Forall P (list_set l k v).
Proof.
  intros Hl Hv. revert k. induction Hl as [|h t Hh Ht IH]; intros [|k]; simpl;
    constructor; auto.
Qed.

Lemma py_index_in_range (n : nat) (i : Z) :
  0 <= i < Z.of_nat n -> py_index n i = Some (Z.to_nat i).
Proof.
  intros H. unfold py_index.
  replace ((0 <=? i) && (i <? Z.of_nat n)) with true; [reflexivity|].
  symmetry. apply andb_true_iff. rewrite Z.leb_le, Z.ltb_lt. lia.
Qed.

Lemma set_field_ok (b : Board) (d : Dot) (c : Cell) :
  field_ok b -> in_bounds (size b) d ->
  exists f', dims (size b) f' /\
    set_field d c b =
      (mkBoard (size b) f' (busy b) (ships b) (count b) (is_hidden b), Return tt).
Proof.
  intros [Hlen Hrows] [Hx Hy]. unfold set_field, getitem, setitem.
  rewrite (py_index_in_range (List.length (field b)) (x d)) by lia.
  destruct (nth_error (field b) (Z.to_nat (x d))) as [row|] eqn:Erow.
  - assert (Hrow : List.length row = Z.to_nat (size b)).
    { apply nth_error_In in Erow.
      rewrite Forall_forall in Hrows. apply Hrows. exact Erow. }
    rewrite (py_index_in_range (List.length row) (y d)) by lia.
    eexists. split; [|reflexivity]. split.
    + rewrite list_set_length. exact Hlen.
    + apply list_set_Forall; [exact Hrows|].
      rewrite list_set_length. exact Hrow.
  - apply nth_error_None in Erow. lia.
Qed.

Lemma margin_busy_In (n : Z) (cells bz : list Dot) (d : Dot) :
  In d (margin_busy n cells bz) <-> In d bz \/ (In d cells /\ in_bounds n d).
Proof.
  unfold margin_busy. revert bz.
  induction cells as [|c cells IH]; intros bz; simpl.
  - tauto.
  - rewrite IH. clear IH.
    destruct (negb (((0 <=? x c) && (x c <? n)) && ((0 <=? y c) && (y c <? n))))
      eqn:Eout; simpl.
    + assert (~ in_bounds n c).
      { unfold in_bounds. apply negb_true_iff in Eout.
        apply andb_false_iff in Eout.
        rewrite !andb_false_iff, !Z.leb_gt, !Z.ltb_ge in Eout. lia. }
      split; [tauto|]. intros [?|[[->|?] ?]]; tauto.
    + assert (in_bounds n c).
      { unfold in_bounds. apply negb_false_iff in Eout.
        rewrite !andb_true_iff, !Z.leb_le, !Z.ltb_lt in Eout. tauto. }
      destruct (contains bz c) eqn:Ebz.
      * apply contains_In in Ebz. split; [tauto|].
        intros [?|[[->|?] ?]]; tauto.
      * rewrite in_app_iff. simpl. split; [|intros [?|[[->|?] ?]]; tauto].
        intros [[?|[->|[]]]|?]; tauto.
Qed.

Lemma margin_busy_incl (n : Z) (cells bz : list Dot) :
  incl bz (margin_busy n cells bz).
Proof. intros d H. apply margin_busy_In. left. exact H. Qed.

(** The loop of [contour] on a well-shaped board: it always completes and
    only [field] and [busy] change. *)
Lemma contour_loop_ok (vis : bool) (cells : list Dot) :
  forall b, field_ok b ->
  exists f', dims (size b) f' /\ (vis = false -> f' = field b) /\
    for_each cells (fun cur =>
      b <- get ;;
      if is_out b cur || contains (busy b) cur then ret tt
      else (if vis then set_field cur CellDot else ret tt) ;; busy_append cur) b
    = (mkBoard (size b) f' (margin_busy (size b) cells (busy b)) (ships b)
               (count b) (is_hidden b), Return tt).
Proof.
  induction cells as [|c cells IH]; intros b Hok.
  - exists (field b). split; [exact Hok|]. split; [reflexivity|].
    destruct b; reflexivity.
  - cbn [for_each margin_busy fold_left].
    unfold bind at 1. unfold bind at 1. unfold get at 1.
    fold (is_out b c).
    destruct (is_out b c) eqn:Eout; cbn [orb].
    + unfold ret at 1. apply IH. exact Hok.
    + destruct (contains (busy b) c) eqn:Ebz.
      * unfold ret at 1. apply IH. exact Hok.
      * apply is_out_false in Eout.
        destruct vis.
        -- destruct (set_field_ok b c CellDot Hok Eout) as [f1 [Hd1 E1]].
           unfold bind at 1. rewrite E1. unfold busy_append at 1.
           cbn [size field busy ships count is_hidden].
           match goal with |- context [for_each cells ?body ?b1] =>
             destruct (IH b1) as [f' [Hd [_ E]]]; [exact Hd1|] end.
           cbn [size field busy ships count is_hidden] in *.
           exists f'. split; [exact Hd|]. split; [discriminate|]. exact E.
        -- unfold bind at 1. unfold ret at 1. unfold busy_append at 1.
           match goal with |- context [for_each cells ?body ?b1] =>
             destruct (IH b1) as [f' [Hd [Hf E]]]; [exact Hok|] end.
           cbn [size field busy ships count is_hidden] in *.
           exists f'. split; [exact Hd|]. split; [exact Hf|]. exact E.
Qed.

Lemma contour_ok (s : Ship) (vis : bool) (b : Board) :
  field_ok b ->
  exists f', dims (size b) f' /\ (vis = false -> f' = field b) /\
    contour s vis b =
      (mkBoard (size b) f' (margin_busy (size b) (contour_cells s) (busy b))
               (ships b) (count b) (is_hidden b), Return tt).
Proof. intros H. apply (contour_loop_ok vis (contour_cells s) b H). Qed.

Lemma set_field_inv (d : Dot) (c : Cell) (b b' : Board) (r : Outcome unit) :
  set_field d c b = (b', r) ->
  (r = Raise IndexError /\ b' = b)
  \/ (r = Return tt /\ exists f',
        b' = mkBoard (size b) f' (busy b) (ships b) (count b) (is_hidden b)).
Proof.
  unfold set_field. intros H.
  destruct (getitem (field b) (x d)) as [row|]; [|inversion H; auto].
  destruct (setitem row (y d) c) as [row'|]; [|inversion H; auto].
  destruct (setitem (field b) (x d) row') as [f'|]; inversion H; auto.
  right. split; [reflexivity|]. exists f'. reflexivity.
Qed.

(** Without making the margin visible, [contour] never touches the field,
    so it completes on any board. *)
Lemma contour_hidden (s : Ship) (b : Board) :
  contour s false b =
    (mkBoard (size b) (field b)
             (margin_busy (size b) (contour_cells s) (busy b))
             (ships b) (count b) (is_hidden b), Return tt).
Proof.
  unfold contour. generalize (contour_cells s) as cells. intros cells. revert b.
  induction cells as [|c cells IH]; intros b.
  - destruct b; reflexivity.
  - cbn [for_each margin_busy fold_left].
    unfold bind at 1. unfold bind at 1. unfold get at 1.
    fold (is_out b c).
    destruct (is_out b c || contains (busy b) c) eqn:E.
    + unfold ret at 1. apply IH.
    + unfold bind at 1. unfold ret at 1. unfold busy_append at 1.
      rewrite IH. reflexivity.
Qed.

Lemma placeable_true (b : Board) (s : Ship) :
  placeable b s = true <->
  forall d, In d (dots s) -> in_bounds (size b) d /\ ~ In d (busy b).
Proof.
  unfold placeable. rewrite forallb_forall. split; intros H d Hd.
  - specialize (H d Hd). apply negb_true_iff, orb_false_iff in H.
    destruct H as [H1 H2]. split; [apply is_out_false | apply contains_false]; auto.
  - destruct (H d Hd) as [H1 H2]. apply negb_true_iff, orb_false_iff.
    split; [apply is_out_false | apply contains_false]; auto.
Qed.

Lemma placeable_false (b : Board) (s : Ship) :
  placeable b s = false <->
  exists d, In d (dots s) /\ (~ in_bounds (size b) d \/ In d (busy b)).
Proof.
  unfold placeable. split.
  - intros H. induction (dots s) as [|d l IH]; simpl in H; [discriminate|].
    apply andb_false_iff in H. destruct H as [H|H].
    + exists d. split; [left; reflexivity|].
      apply negb_false_iff, orb_true_iff in H. destruct H as [H|H].
      * left. apply is_out_true. exact H.
      * right. apply contains_In. exact H.
    + destruct (IH H) as [d' [Hin Hd']]. exists d'. split; [right|]; auto.
  - intros [d [Hin Hd]].
    destruct (forallb _ (dots s)) eqn:E; [|reflexivity].
    rewrite forallb_forall in E. specialize (E d Hin).
    apply negb_true_iff, orb_false_iff in E. destruct E as [E1 E2].
    apply is_out_false in E1. apply contains_false in E2. tauto.
Qed.

(** The validating loop reads the board and never writes it. *)
Lemma validate_loop (ds : list Dot) (b : Board) :
  for_each ds (fun d =>
    b <- get ;;
    if is_out b d || contains (busy b) d
    then raise BoardShipFailureException
    else ret tt) b
  = (b, if forallb (fun d => negb (is_out b d || contains (busy b) d)) ds
        then Return tt else Raise BoardShipFailureException).
Proof.
  induction ds as [|d ds IH]; [reflexivity|].
  cbn [for_each forallb]. unfold bind at 1. unfold bind at 1. unfold get at 1.
  destruct (is_out b d || contains (busy b) d); cbn [negb andb].
  - reflexivity.
  - unfold ret at 1. exact IH.
Qed.

(** The painting loop of [add_ship]. *)
Lemma paint_loop_inv (ds : list Dot) :
  forall b b' r,
  for_each ds (fun d => set_field d CellShip ;; busy_append d) b = (b', r) ->
  r = Raise IndexError
  \/ (r = Return tt /\ exists f',
        b' = mkBoard (size b) f' (busy b ++ ds) (ships b) (count b) (is_hidden b)).
Proof.
  induction ds as [|d ds IH]; intros b b' r H.
  - cbn [for_each] in H. unfold ret in H. injection H as <- <-.
    right. split; [reflexivity|]. exists (field b).
    rewrite app_nil_r. destruct b; reflexivity.
  - cbn [for_each] in H. apply bind_inv in H.
    destruct H as [[b1 [[] [H1 H2]]] | [e [H1 ->]]].
    + apply bind_inv in H1. destruct H1 as [[b0 [[] [H0 H1]]] | [e [H0 ?]]];
        [|discriminate].
      apply set_field_inv in H0. destruct H0 as [[? _] | [_ [f0 ->]]];
        [discriminate|].
      inversion H1; subst; clear H1.
      apply IH in H2. destruct H2 as [-> | [-> [f' ->]]]; [left; reflexivity|].
      right. split; [reflexivity|]. exists f'. cbn.
      rewrite <- app_assoc. reflexivity.
    + left. apply bind_inv in H1.
      destruct H1 as [[b0 [[] [H0 H1]]] | [e' [H0 E]]].
      * inversion H1.
      * apply set_field_inv in H0. destruct H0 as [[E' _] | [E' _]];
          congruence.
Qed.

Lemma paint_loop_ok (ds : list Dot) :
  forall b, field_ok b -> (forall d, In d ds -> in_bounds (size b) d) ->
  exists f', dims (size b) f' /\
    for_each ds (fun d => set_field d CellShip ;; busy_append d) b
    = (mkBoard (size b) f' (busy b ++ ds) (ships b) (count b) (is_hidden b),
       Return tt).
Proof.
  induction ds as [|d ds IH]; intros b Hok Hin.
  - exists (field b). split; [exact Hok|]. rewrite app_nil_r.
    destruct b; reflexivity.
  - destruct (set_field_ok b d CellShip Hok (Hin d (or_introl eq_refl)))
      as [f1 [Hd1 E1]].
    cbn [for_each]. unfold bind at 1. unfold bind at 1. rewrite E1.
    unfold busy_append at 1. cbn [size field busy ships count is_hidden].
    match goal with |- context [for_each ds ?body ?b1] =>
      destruct (IH b1) as [f' [Hd E]]; [exact Hd1 | |] end.
    + intros d' Hd'. apply Hin. right. exact Hd'.
    + cbn [size field busy ships count is_hidden] in *.
      exists f'. split; [exact Hd|]. rewrite E, <- app_assoc. reflexivity.
Qed.

(** ** [add_ship] *)

Lemma add_ship_rejects (s : Ship) (b : Board) :
  placeable b s = false -> add_ship s b = (b, Raise BoardShipFailureException).
Proof.
  intros H. unfold add_ship. unfold bind at 1. rewrite validate_loop.
  fold (placeable b s). rewrite H. reflexivity.
Qed.

Lemma add_ship_inv (s : Ship) (b b' : Board) (r : Outcome unit) :
  placeable b s = true -> add_ship s b = (b', r) ->
  r = Raise IndexError
  \/ (r = Return tt /\ exists f',
        b' = mkBoard (size b) f'
               (margin_busy (size b) (contour_cells s) (busy b ++ dots s))
               (ships b ++ [s]) (count b) (is_hidden b)).
Proof.
  intros Hp H. unfold add_ship in H. unfold bind at 1 in H.
  rewrite validate_loop in H. fold (placeable b s) in H. rewrite Hp in H.
  apply bind_inv in H. destruct H as [[b1 [[] [H1 H2]]] | [e [H1 ->]]].
  - apply paint_loop_inv in H1. destruct H1 as [? | [_ [f1 ->]]]; [discriminate|].
    unfold bind at 1 in H2. rewrite contour_hidden in H2.
    inversion H2; subst; clear H2. right. split; [reflexivity|].
    exists f1. reflexivity.
  - apply paint_loop_inv in H1. destruct H1 as [-> | [? _]]; [|discriminate].
    left. reflexivity.
Qed.

Lemma add_ship_ok (s : Ship) (b : Board) :
  field_ok b -> placeable b s = true ->
  exists f', dims (size b) f' /\
    add_ship s b =
      (mkBoard (size b) f'
               (margin_busy (size b) (contour_cells s) (busy b ++ dots s))
               (ships b ++ [s]) (count b) (is_hidden b), Return tt).
Proof.
  intros Hok Hp. unfold add_ship. unfold bind at 1. rewrite validate_loop.
  fold (placeable b s). rewrite Hp.
  destruct (paint_loop_ok (dots s) b Hok) as [f1 [Hd1 E1]].
  { intros d Hd. rewrite placeable_true in Hp. apply (Hp d Hd). }
  unfold bind at 1. rewrite E1. unfold bind at 1. rewrite contour_hidden.
  exists f1. split; [exact Hd1|]. reflexivity.
Qed.

(** ** [shot] *)

Lemma nth_error_middle {A} (l1 l2 : list A) (a : A) :
  nth_error (l1 ++ a :: l2) (List.length l1) = Some a.
Proof. induction l1; simpl; auto. Qed.

Lemma list_set_middle {A} (l1 l2 : list A) (a v : A) :
  list_set (l1 ++ a :: l2) (List.length l1) v = l1 ++ v :: l2.
Proof. induction l1; simpl; [reflexivity | f_equal; auto]. Qed.

Lemma is_hit_false (s : Ship) (d : Dot) : is_hit s d = false <-> ~ In d (dots s).
Proof. apply contains_false. Qed.

Lemma is_hit_true (s : Ship) (d : Dot) : is_hit s d = true <-> In d (dots s).
Proof. apply contains_In. Qed.

Lemma shot_ships_ok (d : Dot) (rest : list Ship) :
  forall pre b, field_ok b -> in_bounds (size b) d -> ships b = pre ++ rest ->
  ((forall t, In t rest -> ~ In d (dots t))
   /\ shot_ships (List.length pre) rest d b = (b, Return None))
  \/ (exists l1 s l2 f',
        rest = l1 ++ s :: l2
        /\ (forall t, In t l1 -> ~ In d (dots t))
        /\ In d (dots s)
        /\ dims (size b) f'
        /\ shot_ships (List.length pre) rest d b =
           if lives s - 1 >? 0
           then (mkBoard (size b) f' (busy b) (pre ++ l1 ++ lose_life s :: l2)
                         (count b) (is_hidden b), Return (Some true))
           else (mkBoard (size b) f'
                         (margin_busy (size b) (contour_cells s) (busy b))
                         (pre ++ l1 ++ lose_life s :: l2) (count b + 1)
                         (is_hidden b), Return (Some false))).
Proof.
  induction rest as [|s rest IH]; intros pre b Hok Hin Hships.
  - left. split; [intros t []|reflexivity].
  - cbn [shot_ships]. destruct (is_hit s d) eqn:Ehit.
    + right. exists [], s, rest. apply is_hit_true in Ehit.
      destruct (set_field_ok b d CellX Hok Hin) as [f1 [Hd1 E1]].
      unfold bind at 1. rewrite E1.
      unfold bind at 1. unfold ship_lose_life at 1.
      cbn [size field busy ships count is_hidden].
      rewrite Hships, nth_error_middle, list_set_middle.
      change (lives (lose_life s)) with (lives s - 1).
      destruct (lives s - 1 >? 0).
      * exists f1. repeat split; auto; try (intros t []); apply Hd1.
      * unfold bind at 1. unfold count_incr at 1.
        cbn [size field busy ships count is_hidden].
        unfold bind at 1.
        match goal with |- context [contour ?s' true ?b1] =>
          destruct (contour_ok s' true b1) as [f2 [Hd2 [_ E2]]];
            [exact Hd1|] end.
        cbn [size field busy ships count is_hidden] in *.
        exists f2. split; [reflexivity|]. split; [intros t []|].
        split; [exact Ehit|]. split; [exact Hd2|].
        rewrite E2. reflexivity.
    + apply is_hit_false in Ehit.
      destruct (IH (pre ++ [s]) b Hok Hin) as [[Hno E] | [l1 [s' [l2 [f' H]]]]].
      * rewrite Hships, <- app_assoc. reflexivity.
      * left. rewrite length_app, Nat.add_1_r in E. split; [|exact E].
        intros t [<-|Ht]; auto.
      * destruct H as [-> [Hno [Hs' [Hd E]]]]. right.
        exists (s :: l1), s', l2, f'.
        rewrite length_app, Nat.add_1_r in E.
        rewrite <- !app_assoc in E. cbn [app] in *.
        split; [reflexivity|]. split; [intros t [<-|Ht]; auto|].
        split; [exact Hs'|]. split; [exact Hd|]. exact E.
Qed.

Lemma shot_fired (b : Board) (d : Dot) :
  field_ok b -> in_bounds (size b) d -> ~ In d (busy b) ->
  exists b' r, shot d b = (b', Return r) /\ fired b d b' r.
Proof.
  intros Hok Hin Hfree. unfold shot. unfold bind at 1. unfold get at 1.
  apply is_out_false in Hin. rewrite Hin.
  apply contains_false in Hfree. rewrite Hfree.
  apply is_out_false in Hin.
  unfold bind at 1. unfold busy_append at 1. cbn beta iota.
  unfold bind at 1. unfold get at 1. cbn beta iota.
  cbn [size field busy ships count is_hidden].
  set (b1 := mkBoard (size b) (field b) (busy b ++ [d]) (ships b) (count b)
                     (is_hidden b)).
  destruct (shot_ships_ok d (ships b) [] b1 Hok Hin eq_refl)
    as [[Hno E] | [l1 [s [l2 [f' [Hs [Hno [Hs' [Hd E]]]]]]]]];
    cbn [List.length app] in E; unfold bind at 1; rewrite E.
  - destruct (set_field_ok b1 d CellDot Hok Hin) as [f1 [Hd1 E1]].
    unfold bind at 1. rewrite E1. unfold ret.
    eexists. eexists. split; [reflexivity|].
    apply (fired_miss b d f1 Hno Hd1).
  - destruct (lives s - 1 >? 0) eqn:El; unfold ret;
      eexists; eexists; (split; [reflexivity|]).
    + apply (fired_wound b d l1 s l2 f' Hs Hno Hs' Hd). lia.
    + apply (fired_sunk b d l1 s l2 f' Hs Hno Hs' Hd). lia.
Qed.

Lemma shot_out (b : Board) (d : Dot) :
  is_out b d = true -> shot d b = (b, Raise BoardOutException).
Proof. intros H. unfold shot, bind, get. rewrite H. reflexivity. Qed.

Lemma shot_busy (b : Board) (d : Dot) :
  is_out b d = false -> contains (busy b) d = true ->
  shot d b = (b, Raise BoardBusyException).
Proof. intros H1 H2. unfold shot, bind, get. rewrite H1, H2. reflexivity. Qed.

Lemma fired_field_ok (b : Board) (d : Dot) (b' : Board) (r : bool) :
  fired b d b' r -> field_ok b'.
Proof. intros H. destruct H; assumption. Qed.

Lemma fired_size (b : Board) (d : Dot) (b' : Board) (r : bool) :
  fired b d b' r -> size b' = size b.
Proof. intros H. destruct H; reflexivity. Qed.

(** ** Exceptions raised after the guards, and the sunk counter *)

Lemma index_only_ret {A} (a : A) : index_only (ret a).
Proof. intros b b' e H. inversion H. Qed.

Lemma index_only_bind {A B} (m : M A) (k : A -> M B) :
  index_only m -> (forall a, index_only (k a)) -> index_only (bind m k).
Proof.
  intros Hm Hk b b' e H. apply bind_inv in H.
  destruct H as [[b1 [a [H1 H2]]] | [e' [H1 E]]].
  - eapply Hk; eauto.
  - inversion E; subst. eapply Hm; eauto.
Qed.

Lemma index_only_for_each {A} (l : list A) (body : A -> M unit) :
  (forall a, index_only (body a)) -> index_only (for_each l body).
Proof.
  intros Hb. induction l as [|a l IH]; simpl.
  - apply index_only_ret.
  - apply index_only_bind; auto.
Qed.

Lemma index_only_set_field (d : Dot) (c : Cell) : index_only (set_field d c).
Proof.
  intros b b' e H. apply set_field_inv in H.
  destruct H as [[E _] | [E _]]; congruence.
Qed.

Lemma index_only_contour (s : Ship) (vis : bool) : index_only (contour s vis).
Proof.
  unfold contour. apply index_only_for_each. intros cur.
  apply index_only_bind; [intros b b' e H; inversion H|]. intros b0.
  destruct (is_out b0 cur || contains (busy b0) cur); [apply index_only_ret|].
  apply index_only_bind; [|intros _ b b' e H; inversion H].
  destruct vis; [apply index_only_set_field | apply index_only_ret].
Qed.

Lemma index_only_shot_ships (rest : list Ship) (d : Dot) :
  forall i, index_only (shot_ships i rest d).
Proof.
  induction rest as [|s rest IH]; intros i; simpl.
  - apply index_only_ret.
  - destruct (is_hit s d); [|apply IH].
    apply index_only_bind; [apply index_only_set_field|]. intros _.
    apply index_only_bind.
    { intros b b' e H. unfold ship_lose_life in H.
      destruct (nth_error (ships b) i); inversion H. }
    intros _.
    match goal with |- index_only (if ?c then _ else _) => destruct c end;
      [apply index_only_ret|].
    apply index_only_bind; [intros b b' e H; inversion H|]. intros _.
    apply index_only_bind; [apply index_only_contour|]. intros _.
    apply index_only_ret.
Qed.

Lemma same_count_contour (s : Ship) (vis : bool) :
  stable same_count (contour s vis).
Proof.
  apply stable_contour; unfold same_count; simpl; try reflexivity.
  intros a b c H1 H2. congruence.
Qed.

Lemma same_count_set_field (d : Dot) (c : Cell) :
  stable same_count (set_field d c).
Proof.
  apply stable_set_field; unfold same_count; simpl; reflexivity.
Qed.

Lemma shot_ships_count (rest : list Ship) (d : Dot) :
  forall i b b' r, shot_ships i rest d b = (b', r) ->
  count b' = count b \/ count b' = count b + 1.
Proof.
  induction rest as [|s rest IH]; intros i b b' r H; cbn [shot_ships] in H.
  - inversion H; subst. left. reflexivity.
  - destruct (is_hit s d); [|eapply IH; eauto].
    apply bind_inv in H. destruct H as [[b1 [[] [H1 H2]]] | [e [H1 _]]].
    2:{ left. apply (same_count_set_field d CellX _ _ _ H1). }
    apply same_count_set_field in H1.
    apply bind_inv in H2. destruct H2 as [[b2 [[] [H2 H3]]] | [e [H2 _]]].
    2:{ unfold ship_lose_life in H2.
        destruct (nth_error (ships b1) i); inversion H2. }
    assert (E2 : count b2 = count b1).
    { unfold ship_lose_life in H2.
      destruct (nth_error (ships b1) i); inversion H2; subst; reflexivity. }
    destruct (lives (lose_life s) >? 0).
    + inversion H3; subst. left. unfold same_count in H1. congruence.
    + apply bind_inv in H3. destruct H3 as [[b3 [[] [H3 H4]]] | [e [H3 _]]];
        [|inversion H3].
      inversion H3; subst b3; clear H3.
      right. unfold same_count in H1.
      apply bind_inv in H4. destruct H4 as [[b4 [[] [H4 H5]]] | [e [H4 _]]].
      * inversion H5; subst. apply same_count_contour in H4.
        unfold same_count in H4. simpl in H4. lia.
      * apply same_count_contour in H4.
        unfold same_count in H4. simpl in H4. lia.
Qed.

(** Whatever its outcome, a shot changes the sunk counter by 0 or by 1. *)
Lemma shot_count (b b' : Board) (d : Dot) (r : Outcome bool) :
  shot d b = (b', r) -> count b' = count b \/ count b' = count b + 1.
Proof.
  unfold shot. unfold bind at 1. unfold get at 1.
  destruct (is_out b d); [intros H; inversion H; auto|].
  destruct (contains (busy b) d); [intros H; inversion H; auto|].
  unfold bind at 1. unfold busy_append at 1. cbn beta iota.
  unfold bind at 1. unfold get at 1. cbn beta iota.
  cbn [ships]. intros H. apply bind_inv in H.
  destruct H as [[b1 [a [H1 H2]]] | [e [H1 _]]].
  - apply shot_ships_count in H1. cbn [count] in H1.
    destruct a as [rep|].
    + inversion H2; subst. exact H1.
    + apply bind_inv in H2. destruct H2 as [[b2 [[] [H2 H3]]] | [e [H2 _]]].
      * inversion H3; subst. apply same_count_set_field in H2.
        unfold same_count in H2. lia.
      * apply same_count_set_field in H2. unfold same_count in H2. lia.
  - apply shot_ships_count in H1. exact H1.
Qed.

(** Once past its two guards, [shot] can raise nothing but an IndexError. *)
Lemma shot_raise_inv (b b' : Board) (d : Dot) (e : Exn) :
  shot d b = (b', Raise e) ->
  (e = BoardOutException /\ is_out b d = true /\ b' = b)
  \/ (e = BoardBusyException /\ is_out b d = false
      /\ contains (busy b) d = true /\ b' = b)
  \/ (e = IndexError /\ is_out b d = false /\ contains (busy b) d = false).
Proof.
  unfold shot. unfold bind at 1. unfold get at 1.
  destruct (is_out b d); [intros H; inversion H; subst; auto|].
  destruct (contains (busy b) d);
    [intros H; inversion H; subst; right; left; auto|].
  intros H. right. right. split; [|auto].
  unfold bind at 1 in H. unfold busy_append at 1 in H. cbn beta iota in H.
  unfold bind at 1 in H. unfold get at 1 in H. cbn beta iota in H.
  revert H. apply index_only_bind; [apply index_only_shot_ships|].
  intros [rep|]; [apply index_only_ret|].
  apply index_only_bind; [apply index_only_set_field|].
  intros _. apply index_only_ret.
Qed.

(** * Claims about [shot] and [add_ship] *)

Lemma nth_error_replace {A} (l1 l2 : list A) (a a' s s' : A) (i : nat) :
  nth_error (l1 ++ a :: l2) i = Some s ->
  nth_error (l1 ++ a' :: l2) i = Some s' ->
  (i = List.length l1 /\ s = a /\ s' = a') \/ (i <> List.length l1 /\ s' = s).
Proof.
  revert i. induction l1 as [|h l1 IH]; intros [|i] H1 H2; simpl in *.
  - left. inversion H1; inversion H2; auto.
  - right. split; [discriminate | congruence].
  - right. split; [discriminate | congruence].
  - destruct (IH i H1 H2) as [[-> [-> ->]] | [Hi ->]]; [left | right]; auto.
Qed.

Lemma demo_board_ok : field_ok demo_board.
Proof. split; [reflexivity | repeat constructor]. Qed.

(** The first vessel of a list with a given property splits the list in
    one way only. *)
Lemma first_holder_unique {A} (P : A -> Prop) (l1 l1' l2 l2' : list A)
      (s s' : A) :
  l1 ++ s :: l2 = l1' ++ s' :: l2' ->
  (forall t, In t l1 -> ~ P t) -> P s ->
  (forall t, In t l1' -> ~ P t) -> P s' ->
  l1 = l1' /\ s = s' /\ l2 = l2'.
Proof.
  revert l1'. induction l1 as [|h l1 IH]; intros [|h' l1'] E H1 Hs H1' Hs';
    cbn [app] in E.
  - inversion E. auto.
  - exfalso. inversion E; subst. apply (H1' h'); [left; reflexivity | exact Hs].
  - exfalso. inversion E; subst. apply (H1 s'); [left; reflexivity | exact Hs'].
  - inversion E; subst h'.
    destruct (IH l1' H2) as [-> [-> ->]]; auto.
    + intros t Ht. apply H1. right. exact Ht.
    + intros t Ht. apply H1'. right. exact Ht.
Qed.

(** C1.  On a well-shaped grid, a shot at an in-bounds cell that is not
    busy returns.  If no vessel of the grid holds the cell the result is
    [false] and the vessels are as they were.  If some vessel holds it,
    the first such vessel [s] of the list, and only that one, loses one
    life, and the result is [true] if and only if [lives s - 1 > 0], the
    lives that vessel has left after the decrement; so the result is
    [true] exactly when a vessel holding the cell lost a life to this shot
    and still has lives, and [false] when the vessel that lost a life has
    none left. *)
Theorem shot_repeat_iff (b : Board) (d : Dot) :
  field_ok b -> in_bounds (size b) d -> ~ In d (busy b) ->
  exists b' r,
    shot d b = (b', Return r)
    /\ (r = true <-> exists s', took_hit b b' d s' /\ 0 < lives s')
    /\ ((forall s, In s (ships b) -> ~ In d (dots s)) ->
        r = false /\ ships b' = ships b)
    /\ (forall s', took_hit b b' d s' -> lives s' <= 0 -> r = false)
    /\ ((exists s, In s (ships b) /\ In d (dots s)) ->
        exists s', took_hit b b' d s')
    /\ (forall l1 s l2,
          ships b = l1 ++ s :: l2 ->
          (forall t, In t l1 -> ~ In d (dots t)) -> In d (dots s) ->
          ships b' = l1 ++ lose_life s :: l2
          /\ took_hit b b' d (lose_life s)
          /\ (r = true <-> 0 < lives s - 1)).
Proof.
  intros Hok Hin Hfree.
  destruct (shot_fired b d Hok Hin Hfree) as [b' [r [E F]]].
  exists b', r. split; [exact E|]. clear E.
  assert (Hhit : forall l1 s l2, ships b = l1 ++ s :: l2 -> In d (dots s) ->
            took_hit b (mkBoard (size b) (field b') (busy b')
                                (l1 ++ lose_life s :: l2) (count b')
                                (is_hidden b)) d (lose_life s)).
  { intros l1 s l2 Hs Hs'. exists (List.length l1), s. cbn [ships].
    rewrite Hs, !nth_error_middle. auto. }
  destruct F as [f' Hno Hd | l1 s l2 f' Hs Hno Hs' Hd Hl | l1 s l2 f' Hs Hno Hs' Hd Hl];
    cbn [ships field busy count] in *.
  - split; [|split; [auto|split; [reflexivity|split]]].
    + split; [discriminate|].
      intros [s' [[i [s [H1 [H2 [H3 H4]]]]] _]]. cbn [ships] in H2.
      rewrite H1 in H2. inversion H2; subst. lia.
    + intros [s [Hs Hs']]. exfalso. exact (Hno s Hs Hs').
    + intros l1 s l2 Hs _ Hs'. exfalso. apply (Hno s); [|exact Hs'].
      rewrite Hs. apply in_elt.
  - split; [|split; [|split; [|split]]].
    + split; [intros _|reflexivity].
      exists (lose_life s). split; [apply Hhit; assumption | simpl; lia].
    + intros H. exfalso. apply (H s); [|exact Hs'].
      rewrite Hs. apply in_elt.
    + intros s' [i [s0 [H1 [H2 [H3 H4]]]]] Hle. exfalso.
      rewrite Hs in H1. cbn [ships] in H2.
      destruct (nth_error_replace _ _ _ _ _ _ _ H1 H2) as [[_ [-> ->]] | [_ ->]];
        simpl in *; lia.
    + intros _. exists (lose_life s). apply Hhit; assumption.
    + intros l1' s0 l2' Hs0 Hno0 Hs0'. rewrite Hs in Hs0.
      destruct (first_holder_unique (fun t => In d (dots t)) _ _ _ _ _ _
                  Hs0 Hno Hs' Hno0 Hs0') as [<- [<- <-]].
      split; [reflexivity|]. split; [apply Hhit; assumption|].
      split; [intros _; exact Hl | reflexivity].
  - split; [|split; [|split; [reflexivity|split]]].
    + split; [discriminate|].
      intros [s' [[i [s0 [H1 [H2 [H3 H4]]]]] Hpos]]. exfalso.
      rewrite Hs in H1. cbn [ships] in H2.
      destruct (nth_error_replace _ _ _ _ _ _ _ H1 H2) as [[_ [-> ->]] | [_ ->]];
        simpl in *; lia.
    + intros H. exfalso. apply (H s); [|exact Hs'].
      rewrite Hs. apply in_elt.
    + intros _. exists (lose_life s). apply Hhit; assumption.
    + intros l1' s0 l2' Hs0 Hno0 Hs0'. rewrite Hs in Hs0.
      destruct (first_holder_unique (fun t => In d (dots t)) _ _ _ _ _ _
                  Hs0 Hno Hs' Hno0 Hs0') as [<- [<- <-]].
      split; [reflexivity|]. split; [apply Hhit; assumption|].
      split; [discriminate | intros H; lia].
Qed.

Lemma shot_repeat_iff_witness :
  exists b',
    shot (mkDot 0 0) demo_board = (b', Return true)
    /\ map lives (ships b') = [1].
Proof.
  destruct (shot_repeat_iff demo_board (mkDot 0 0))
    as [b' [r [E [_ [_ [_ [_ H]]]]]]].
  - exact demo_board_ok.
  - unfold in_bounds. simpl. lia.
  - simpl. tauto.
  - destruct (H [] demo_ship []) as [Hs [_ Hr]].
    + reflexivity.
    + intros t [].
    + simpl. auto.
    + exists b'. split.
      * rewrite E. f_equal. f_equal. apply Hr. simpl. lia.
      * rewrite Hs. reflexivity.
Defined.

(** C2.  [add_ship] raises the placement failure exactly when some cell of
    the vessel is out of bounds or busy, and then the whole board (cell
    matrix, busy list, vessel list, sunk counter) is what it was. *)
Theorem add_ship_all_or_nothing (b : Board) (s : Ship) :
  ((exists b', add_ship s b = (b', Raise BoardShipFailureException))
   <-> (exists d, In d (dots s) /\ (is_out b d = true \/ In d (busy b))))
  /\ (forall b', add_ship s b = (b', Raise BoardShipFailureException) -> b' = b).
Proof.
  destruct (placeable b s) eqn:Ep.
  - assert (Hno : forall b', add_ship s b <> (b', Raise BoardShipFailureException)).
    { intros b' H. destruct (add_ship_inv s b b' _ Ep H) as [E | [E _]];
        discriminate. }
    split.
    + split.
      * intros [b' H]. exfalso. exact (Hno b' H).
      * intros [d [Hd Hbad]]. exfalso.
        rewrite placeable_true in Ep. destruct (Ep d Hd) as [H1 H2].
        destruct Hbad as [Hout | Hb]; [|tauto].
        apply is_out_true in Hout. tauto.
    + intros b' H. exfalso. exact (Hno b' H).
  - pose proof (add_ship_rejects s b Ep) as Hrej. split.
    + split.
      * intros _. apply placeable_false in Ep. destruct Ep as [d [Hd Hbad]].
        exists d. split; [exact Hd|]. rewrite is_out_true. exact Hbad.
      * intros _. exists b. exact Hrej.
    + intros b' H. rewrite Hrej in H. inversion H. reflexivity.
Qed.

Lemma add_ship_all_or_nothing_witness :
  add_ship (Ship_init (mkDot 0 5) true 2) demo_board
  = (demo_board, Raise BoardShipFailureException).
Proof.
  destruct (add_ship_all_or_nothing demo_board (Ship_init (mkDot 0 5) true 2))
    as [[_ Hfail] Hsame].
  destruct Hfail as [b' Hb'].
  - exists (mkDot 0 6). split; [simpl; tauto | left; reflexivity].
  - rewrite Hb'. rewrite (Hsame b' Hb'). reflexivity.
Defined.

Lemma touches_margin_rect (s : Ship) (d : Dot) : touches s d -> margin_rect s d.
Proof.
  intros [c [Hc [Hx Hy]]]. apply dots_In in Hc. destruct Hc as [i [Hi ->]].
  unfold margin_rect. destruct (horizontal s); simpl in *; lia.
Qed.

(** C3.  After a successful [add_ship], every in-bounds cell of the
    rectangle reaching one cell beyond the vessel's bounding box (the
    vessel's cells and every cell within one step of them) is busy, and
    from then on, as long as the busy list only grows, a vessel with a cell
    in that rectangle is refused. *)
Theorem add_ship_margin_busy (b b' : Board) (s : Ship) :
  add_ship s b = (b', Return tt) ->
  (forall d, in_bounds (size b') d -> margin_rect s d -> In d (busy b'))
  /\ (forall d, in_bounds (size b') d -> touches s d -> In d (busy b'))
  /\ (forall b2 s2, extends b' b2 ->
        (exists d, In d (dots s2) /\ margin_rect s d) ->
        add_ship s2 b2 = (b2, Raise BoardShipFailureException)).
Proof.
  intros H.
  assert (Hp : placeable b s = true).
  { destruct (placeable b s) eqn:Ep; [reflexivity|].
    rewrite (add_ship_rejects s b Ep) in H. discriminate. }
  destruct (add_ship_inv s b b' _ Hp H) as [E | [_ [f' ->]]]; [discriminate|].
  cbn [size busy].
  assert (Hrect : forall d, in_bounds (size b) d -> margin_rect s d ->
            In d (margin_busy (size b) (contour_cells s) (busy b ++ dots s))).
  { intros d Hin Hr. apply margin_busy_In. right.
    split; [apply contour_cells_In|]; assumption. }
  split; [exact Hrect|]. split.
  - intros d Hin Ht. apply Hrect; [exact Hin|]. apply touches_margin_rect, Ht.
  - intros b2 s2 [Hsz Hincl] [d [Hd Hr]]. cbn [size busy] in *.
    apply add_ship_rejects. apply placeable_false. exists d.
    split; [exact Hd|]. rewrite Hsz.
    destruct (is_out b d) eqn:Eout.
    + left. apply is_out_true. exact Eout.
    + right. apply Hincl, Hrect; [apply is_out_false|]; assumption.
Qed.

Lemma add_ship_margin_busy_witness :
  In (mkDot 1 2) (busy (fst (add_ship demo_ship (Board_init 6 false)))).
Proof.
  destruct (add_ship_margin_busy (Board_init 6 false)
              (fst (add_ship demo_ship (Board_init 6 false))) demo_ship)
    as [Hrect _].
  - reflexivity.
  - apply Hrect.
    + unfold in_bounds. simpl. lia.
    + unfold margin_rect. simpl. lia.
Defined.

Lemma growing_shot_body (d : Dot) :
  growing (b1 <- get ;;
           r <- shot_ships 0 (ships b1) d ;;
           match r with
           | Some repeat => ret repeat
           | None => set_field d CellDot ;; ret false
           end).
Proof.
  apply growing_bind; [apply growing_get|]. intros b2.
  apply growing_bind; [apply growing_shot_ships|]. intros [rep|].
  - apply growing_ret.
  - apply growing_bind; [apply growing_set_field|].
    intros; apply growing_ret.
Qed.

(** C8.  Once a shot at an in-bounds cell has returned (hit, sunk or miss),
    a second shot at the same cell raises the busy-cell exception and leaves
    the board alone; a shot outside the grid raises the out-of-bounds
    exception.  On a well-shaped grid the first shot at a free in-bounds
    cell does return. *)
Theorem shot_twice_busy (b : Board) (d : Dot) :
  (in_bounds (size b) d ->
   forall b1 r, shot d b = (b1, Return r) ->
                shot d b1 = (b1, Raise BoardBusyException))
  /\ (~ in_bounds (size b) d -> shot d b = (b, Raise BoardOutException))
  /\ (field_ok b -> in_bounds (size b) d -> ~ In d (busy b) ->
      exists b1 r, shot d b = (b1, Return r)).
Proof.
  split; [|split].
  - intros Hin b1 r H.
    assert (Hext : extends b b1) by (eapply growing_shot; eauto).
    apply shot_busy.
    + rewrite (extends_is_out b b1 d Hext). apply is_out_false. exact Hin.
    + apply contains_In.
      revert H. unfold shot. unfold bind at 1. unfold get at 1.
      apply is_out_false in Hin. rewrite Hin.
      destruct (contains (busy b) d) eqn:Eb; [discriminate|].
      unfold bind at 1. unfold busy_append at 1. cbn beta iota.
      intros H.
      pose proof (growing_shot_body d _ _ _ H) as Hg.
      destruct Hg as [_ Hincl]. apply Hincl. cbn [busy].
      apply in_or_app. right. left. reflexivity.
  - intros Hout. apply shot_out, is_out_true. exact Hout.
  - intros Hok Hin Hfree.
    destruct (shot_fired b d Hok Hin Hfree) as [b1 [r [E _]]].
    exists b1, r. exact E.
Qed.

Lemma shot_twice_busy_witness :
  shot (mkDot 0 0) (fst (shot (mkDot 0 0) demo_board))
  = (fst (shot (mkDot 0 0) demo_board), Raise BoardBusyException)
  /\ shot (mkDot 6 0) demo_board = (demo_board, Raise BoardOutException).
Proof.
  destruct (shot_twice_busy demo_board (mkDot 0 0)) as [Hbusy _].
  destruct (shot_twice_busy demo_board (mkDot 6 0)) as [_ [Hout _]].
  split.
  - apply (Hbusy ltac:(unfold in_bounds; simpl; lia) _ true). reflexivity.
  - apply Hout. unfold in_bounds. simpl. lia.
Defined.

(** C10.  When [shot] raises the out-of-bounds or the busy-cell exception,
    the board is what it was before the call. *)
Theorem shot_error_atomic (b b' : Board) (d : Dot) (e : Exn) :
  shot d b = (b', Raise e) ->
  e = BoardOutException \/ e = BoardBusyException ->
  b' = b.
Proof.
  intros H He. apply shot_raise_inv in H.
  destruct H as [[_ [_ E]] | [[_ [_ [_ E]]] | [E _]]]; auto.
  destruct He; congruence.
Qed.

Lemma shot_error_atomic_witness :
  fst (shot (mkDot 7 7) demo_board) = demo_board.
Proof.
  apply (shot_error_atomic demo_board _ (mkDot 7 7) BoardOutException).
  - reflexivity.
  - left. reflexivity.
Defined.

(** * Claims about the candidate sets of [ai_brain] *)

Lemma not_busy_In (enemy : Board) (l : list Dot) (d : Dot) :
  In d (not_busy enemy l) <-> In d l /\ ~ In d (busy enemy).
Proof.
  unfold not_busy. rewrite filter_In, negb_true_iff, contains_false. tauto.
Qed.

Lemma not_busy_all (enemy : Board) (l : list Dot) :
  (forall d, In d l -> ~ In d (busy enemy)) -> not_busy enemy l = l.
Proof.
  intros H. unfold not_busy. induction l as [|c l IH]; [reflexivity|].
  simpl. replace (contains (busy enemy) c) with false.
  - simpl. f_equal. apply IH. intros d Hd. apply H. right. exact Hd.
  - symmetry. apply contains_false, H. left. reflexivity.
Qed.

Lemma Dot_ext (a b : Dot) : x a = x b -> y a = y b -> a = b.
Proof. destruct a, b; simpl; intros -> ->; reflexivity. Qed.

Lemma cross_In (enemy : Board) (p d : Dot) :
  In d (ai_brain [p] enemy) <-> adjacent d p /\ ~ In d (busy enemy).
Proof.
  unfold adjacent. cbn [ai_brain]. rewrite not_busy_In.
  assert (In d [mkDot (x p + 1) (y p); mkDot (x p - 1) (y p);
                mkDot (x p) (y p + 1); mkDot (x p) (y p - 1)]
          <-> Z.abs (x d - x p) + Z.abs (y d - y p) = 1); [|tauto].
  split.
  - simpl. intros [<-|[<-|[<-|[<-|[]]]]]; simpl; lia.
  - intros H. simpl.
    assert (C : (x d = x p + 1 /\ y d = y p) \/ (x d = x p - 1 /\ y d = y p)
                \/ (x d = x p /\ y d = y p + 1) \/ (x d = x p /\ y d = y p - 1))
      by lia.
    destruct C as [[? ?]|[[? ?]|[[? ?]|[? ?]]]];
      [left | right; left | right; right; left | right; right; right; left];
      apply Dot_ext; simpl; lia.
Qed.

Lemma bracket_In (enemy : Board) (p0 p1 d : Dot) :
  In d (ai_brain [p0; p1] enemy) <->
  ((x p0 = x p1 /\ x d = x p0
    /\ (y d = Z.min (y p0) (y p1) - 1 \/ y d = Z.max (y p0) (y p1) + 1))
   \/ (x p0 <> x p1 /\ y d = y p0
       /\ (x d = Z.min (x p0) (x p1) - 1 \/ x d = Z.max (x p0) (x p1) + 1)))
  /\ ~ In d (busy enemy).
Proof.
  cbn [ai_brain]. rewrite not_busy_In.
  match goal with |- ?A /\ _ <-> ?B /\ _ => assert (A <-> B); [|tauto] end.
  destruct (x p0 =? x p1) eqn:E.
  - apply Z.eqb_eq in E. split.
    + simpl. intros [<-|[<-|[]]]; simpl; left; auto.
    + intros [[_ [Hx Hy]] | [Hne _]]; [|contradiction].
      simpl. destruct Hy as [Hy|Hy]; [left | right; left];
        apply Dot_ext; simpl; lia.
  - apply Z.eqb_neq in E. split.
    + simpl. intros [<-|[<-|[]]]; simpl; right; auto.
    + intros [[He _] | [_ [Hy Hx]]]; [contradiction|].
      simpl. destruct Hx as [Hx|Hx]; [left | right; left];
        apply Dot_ext; simpl; lia.
Qed.

(** C9.  With exactly one hit [p] in [prev], the candidates are exactly the
    four orthogonal neighbours of [p] that are not busy; for [p = (3,3)] and
    none of the four busy, they are the four neighbours of (3,3). *)
Theorem ai_brain_cross (enemy : Board) (p : Dot) :
  (forall d, In d (ai_brain [p] enemy) <->
             Z.abs (x d - x p) + Z.abs (y d - y p) = 1 /\ ~ In d (busy enemy))
  /\ (p = mkDot 3 3 ->
      (forall d, In d [mkDot 4 3; mkDot 2 3; mkDot 3 4; mkDot 3 2] ->
                 ~ In d (busy enemy)) ->
      ai_brain [p] enemy = [mkDot 4 3; mkDot 2 3; mkDot 3 4; mkDot 3 2]).
Proof.
  split.
  - intros d. apply cross_In.
  - intros -> Hfree. cbn [ai_brain x y]. apply not_busy_all. exact Hfree.
Qed.

Lemma ai_brain_cross_witness :
  ai_brain [mkDot 3 3] demo_board = [mkDot 4 3; mkDot 2 3; mkDot 3 4; mkDot 3 2].
Proof.
  destruct (ai_brain_cross demo_board (mkDot 3 3)) as [_ H].
  apply H; [reflexivity|]. intros d _. simpl. tauto.
Defined.

(** C4.  With exactly two hits in [prev], the candidates are exactly the
    two cells one step beyond either end of the line through the hits (in
    their row when they share one, otherwise in the column of the first
    hit) that are not busy; for hits (2,2) and (2,3) with neither (2,1) nor
    (2,4) busy they are (2,1) and (2,4). *)
Theorem ai_brain_bracket (enemy : Board) (p0 p1 : Dot) :
  (forall d, In d (ai_brain [p0; p1] enemy) <->
     ((x p0 = x p1 /\ x d = x p0
       /\ (y d = Z.min (y p0) (y p1) - 1 \/ y d = Z.max (y p0) (y p1) + 1))
      \/ (x p0 <> x p1 /\ y d = y p0
          /\ (x d = Z.min (x p0) (x p1) - 1 \/ x d = Z.max (x p0) (x p1) + 1)))
     /\ ~ In d (busy enemy))
  /\ (p0 = mkDot 2 2 -> p1 = mkDot 2 3 ->
      ~ In (mkDot 2 1) (busy enemy) -> ~ In (mkDot 2 4) (busy enemy) ->
      ai_brain [p0; p1] enemy = [mkDot 2 1; mkDot 2 4]).
Proof.
  split.
  - intros d. apply bracket_In.
  - intros -> -> H1 H2. cbn [ai_brain x y]. simpl Z.eqb. cbv iota.
    apply not_busy_all. simpl. intros d [<-|[<-|[]]]; assumption.
Qed.

Lemma ai_brain_bracket_witness :
  ai_brain [mkDot 2 2; mkDot 2 3] demo_board = [mkDot 2 1; mkDot 2 4].
Proof.
  destruct (ai_brain_bracket demo_board (mkDot 2 2) (mkDot 2 3)) as [_ H].
  apply H; try reflexivity; simpl; tauto.
Defined.

Lemma all_cells_In (d : Dot) : In d all_cells <-> in_bounds 6 d.
Proof.
  unfold all_cells, in_bounds. rewrite in_flat_map. split.
  - intros [i [Hi Hd]]. apply in_map_iff in Hd. destruct Hd as [j [<- Hj]].
    apply range_In in Hi. apply range_In in Hj. simpl. lia.
  - intros [Hx Hy]. exists (x d). split; [apply range_In; lia|].
    apply in_map_iff. exists (y d). split; [destruct d; reflexivity|].
    apply range_In. lia.
Qed.

(** A boolean property checked on the 36 cells holds on the whole board. *)
Lemma all_cells_forall (P : Dot -> bool) :
  forallb P all_cells = true -> forall d, in_bounds 6 d -> P d = true.
Proof.
  intros H d Hd. rewrite forallb_forall in H. apply H, all_cells_In, Hd.
Qed.

Lemma diagonals_In (d : Dot) : In d diagonals <-> on_diagonals d.
Proof.
  unfold on_diagonals. split.
  - intros H. split.
    + assert (F : forallb (fun c => contains all_cells c) diagonals = true)
        by reflexivity.
      rewrite forallb_forall in F. apply all_cells_In, contains_In, F, H.
    + assert (F : forallb (fun c => (y c =? x c) || (y c =? x c + 3)
                                    || (x c =? y c + 3)) diagonals = true)
        by reflexivity.
      rewrite forallb_forall in F. specialize (F d H).
      rewrite !orb_true_iff, !Z.eqb_eq in F. tauto.
  - intros [Hin H]. apply contains_In.
    pose proof (all_cells_forall
      (fun c => implb ((y c =? x c) || (y c =? x c + 3) || (x c =? y c + 3))
                      (contains diagonals c)) eq_refl d Hin) as F.
    cbv beta in F.
    replace ((y d =? x d) || (y d =? x d + 3) || (x d =? y d + 3)) with true in F;
      [exact F|].
    symmetry. rewrite !orb_true_iff, !Z.eqb_eq. tauto.
Qed.

Lemma offset_diagonals_In (d : Dot) :
  In d offset_diagonals <-> on_offset_diagonals d.
Proof.
  unfold on_offset_diagonals. split.
  - intros H. split.
    + assert (F : forallb (fun c => contains all_cells c) offset_diagonals = true)
        by reflexivity.
      rewrite forallb_forall in F. apply all_cells_In, contains_In, F, H.
    + assert (F : forallb (fun c => (y c =? x c - 1) || (y c =? x c + 2)
                                    || Dot_eq c (mkDot 0 5) || Dot_eq c (mkDot 5 0))
                          offset_diagonals = true)
        by reflexivity.
      rewrite forallb_forall in F. specialize (F d H).
      rewrite !orb_true_iff, !Z.eqb_eq, !Dot_eq_true in F. tauto.
  - intros [Hin H]. apply contains_In.
    pose proof (all_cells_forall
      (fun c => implb ((y c =? x c - 1) || (y c =? x c + 2)
                       || Dot_eq c (mkDot 0 5) || Dot_eq c (mkDot 5 0))
                      (contains offset_diagonals c)) eq_refl d Hin) as F.
    cbv beta in F.
    replace ((y d =? x d - 1) || (y d =? x d + 2)
             || Dot_eq d (mkDot 0 5) || Dot_eq d (mkDot 5 0)) with true in F;
      [exact F|].
    symmetry. rewrite !orb_true_iff, !Z.eqb_eq, !Dot_eq_true. tauto.
Qed.

(** C6.  With an empty [prev] and a 6x6 enemy grid, [ai_brain] returns the
    primary diagonal cells that are not busy; when there are none, the
    offset diagonal cells that are not busy; and when there are none of
    those either, all cells of the grid that are not busy. *)
Theorem ai_brain_search (enemy : Board) :
  size enemy = game_size ->
  exists tier1 tier2 tier3,
    (forall d, In d tier1 <-> on_diagonals d /\ ~ In d (busy enemy))
    /\ (forall d, In d tier2 <-> on_offset_diagonals d /\ ~ In d (busy enemy))
    /\ (forall d, In d tier3 <-> in_bounds (size enemy) d /\ ~ In d (busy enemy))
    /\ ai_brain [] enemy =
       match tier1 with
       | _ :: _ => tier1
       | [] => match tier2 with
               | _ :: _ => tier2
               | [] => tier3
               end
       end.
Proof.
  intros Hsz.
  exists (not_busy enemy diagonals), (not_busy enemy offset_diagonals),
         (not_busy enemy all_cells).
  split; [|split; [|split]].
  - intros d. rewrite not_busy_In, diagonals_In. tauto.
  - intros d. rewrite not_busy_In, offset_diagonals_In. tauto.
  - intros d. rewrite not_busy_In, all_cells_In, Hsz. tauto.
  - cbn [ai_brain]. destruct (not_busy enemy diagonals); [|reflexivity].
    cbn [is_empty].
    destruct (not_busy enemy offset_diagonals); reflexivity.
Qed.

Lemma ai_brain_search_witness :
  exists tier1 tier2 tier3,
    (forall d, In d tier1 <-> on_diagonals d /\ ~ In d (busy demo_board))
    /\ (forall d, In d tier2 <-> on_offset_diagonals d /\ ~ In d (busy demo_board))
    /\ (forall d, In d tier3 <-> in_bounds (size demo_board) d
                                /\ ~ In d (busy demo_board))
    /\ ai_brain [] demo_board =
       match tier1 with
       | _ :: _ => tier1
       | [] => match tier2 with
               | _ :: _ => tier2
               | [] => tier3
               end
       end.
Proof. apply (ai_brain_search demo_board). reflexivity. Defined.

(** * Fleet geometry and the life-cycle invariants *)

Lemma dots_margin_rect (s : Ship) (d : Dot) : In d (dots s) -> margin_rect s d.
Proof.
  intros H. apply touches_margin_rect. exists d. split; [exact H|].
  rewrite !Z.sub_diag. simpl. lia.
Qed.

Lemma apart_hull (s t : Ship) : apart (hull s) (hull t) <-> apart s t.
Proof. reflexivity. Qed.

Lemma separated_In (l : list Ship) (s t : Ship) :
  separated l -> In s l -> In t l -> s <> t -> apart s t.
Proof.
  induction l as [|h l IH]; intros Hsep Hs Ht Hne; [destruct Hs|].
  destruct Hsep as [Hh Hl]. destruct Hs as [->|Hs], Ht as [->|Ht].
  - congruence.
  - apply Hh, Ht.
  - apply Hh, Hs.
  - apply IH; assumption.
Qed.

Lemma separated_app (l : list Ship) (s : Ship) :
  separated l -> (forall t, In t l -> apart s t /\ apart t s) ->
  separated (l ++ [s]).
Proof.
  induction l as [|h l IH]; intros Hsep Hs; simpl.
  - split; [intros t []|exact I].
  - destruct Hsep as [Hh Hl]. split.
    + intros t Ht. apply in_app_or in Ht. destruct Ht as [Ht|[<-|[]]].
      * apply Hh, Ht.
      * destruct (Hs h (or_introl eq_refl)). split; assumption.
    + apply IH; [exact Hl|]. intros t Ht. apply Hs. right. exact Ht.
Qed.

Lemma separated_middle (l1 l2 : list Ship) (s : Ship) :
  separated (l1 ++ s :: l2) ->
  forall t, In t (l1 ++ l2) -> apart s t /\ apart t s.
Proof.
  induction l1 as [|h l1 IH]; intros Hsep t Ht; simpl in *.
  - apply Hsep, Ht.
  - destruct Hsep as [Hh Hl]. destruct Ht as [<-|Ht].
    + destruct (Hh s) as [H1 H2]; [apply in_elt|]. split; assumption.
    + apply IH; assumption.
Qed.

(** The geometric part of a fleet does not depend on the lives. *)
Lemma separated_hull (l l' : list Ship) :
  map hull l = map hull l' -> separated l -> separated l'.
Proof.
  revert l'. induction l as [|s l IH]; intros [|s' l'] E Hsep;
    try discriminate; [exact I|].
  cbn [map] in E.
  assert (Es : hull s = hull s') by exact (f_equal (hd (hull s)) E).
  assert (El : map hull l = map hull l') by exact (f_equal (@tl _) E).
  clear E. destruct Hsep as [Hs Hl].
  split; [|apply IH; assumption].
  intros t' Ht'.
  assert (Hex : exists t, In t l /\ hull t = hull t').
  { apply (in_map hull) in Ht'. rewrite <- El in Ht'.
    apply in_map_iff in Ht'. destruct Ht' as [t [E' Ht]]. exists t. auto. }
  destruct Hex as [t [Ht Et]]. destruct (Hs t Ht) as [H1 H2].
  rewrite <- apart_hull in H1, H2. rewrite Es, Et in H1, H2.
  split; apply apart_hull; assumption.
Qed.

Lemma fleet_ok_hull (n : Z) (l l' : list Ship) :
  map hull l = map hull l' -> fleet_ok n l -> fleet_ok n l'.
Proof.
  intros E [Hsep Hall]. split; [eapply separated_hull; eauto|].
  intros s' Hs'. apply (in_map hull) in Hs'. rewrite <- E in Hs'.
  apply in_map_iff in Hs'. destruct Hs' as [s [Es Hs]].
  destruct (Hall s Hs) as [Hlen Hin].
  assert (E1 : length s' = length s) by (change (length (hull s') = length (hull s)); congruence).
  assert (E2 : dots s' = dots s) by (change (dots (hull s') = dots (hull s)); congruence).
  rewrite E1, E2. auto.
Qed.

Lemma hull_lose_life_map (l1 l2 : list Ship) (s : Ship) :
  map hull (l1 ++ s :: l2) = map hull (l1 ++ lose_life s :: l2).
Proof. rewrite !map_app. reflexivity. Qed.

(** In a fleet, the vessel at one position is different from the vessels at
    all other positions, and shares no cell with them. *)
Lemma fleet_ok_middle (n : Z) (l1 l2 : list Ship) (s : Ship) :
  fleet_ok n (l1 ++ s :: l2) ->
  forall t, In t (l1 ++ l2) ->
    t <> s /\ apart s t /\ apart t s
    /\ (forall d, In d (dots s) -> ~ In d (dots t)).
Proof.
  intros [Hsep Hall] t Ht.
  destruct (separated_middle l1 l2 s Hsep t Ht) as [H1 H2].
  assert (Hdis : forall d, In d (dots s) -> ~ In d (dots t)).
  { intros d Hd Hd'. apply (H1 d Hd). apply dots_margin_rect, Hd'. }
  split; [|auto].
  intros ->. destruct (Hall s) as [Hlen _]; [apply in_elt|].
  assert (Hd : In (start s) (dots s)).
  { apply dots_In. exists 0. split; [lia|].
    destruct (horizontal s), (start s); simpl; f_equal; lia. }
  exact (Hdis _ Hd Hd).
Qed.

(** ** Counting free cells and sunk vessels *)

Lemma contains_app_last (bz : list Dot) (d c : Dot) :
  c <> d -> contains (bz ++ [d]) c = contains bz c.
Proof.
  intros Hne. destruct (contains bz c) eqn:E.
  - apply contains_In. apply in_or_app. left. apply contains_In. exact E.
  - apply contains_false. intros H. apply in_app_or in H.
    destruct H as [H|[H|[]]]; [|congruence].
    apply contains_false in E. contradiction.
Qed.

Lemma free_cells_ext (bz bz' : list Dot) (s : Ship) :
  (forall c, In c (dots s) -> (In c bz <-> In c bz')) ->
  free_cells bz s = free_cells bz' s.
Proof.
  intros H. unfold free_cells. do 2 f_equal. apply filter_ext_in.
  intros c Hc. f_equal. specialize (H c Hc).
  destruct (contains bz' c) eqn:E'.
  - apply contains_In, H, contains_In, E'.
  - apply contains_false. apply contains_false in E'. tauto.
Qed.

Lemma free_filter_hit (bz l : list Dot) (d : Dot) :
  NoDup l -> In d l -> ~ In d bz ->
  Z.of_nat (List.length (filter (fun c => negb (contains (bz ++ [d]) c)) l))
  = Z.of_nat (List.length (filter (fun c => negb (contains bz c)) l)) - 1.
Proof.
  intros Hnd Hd Hfree. induction Hnd as [|h l Hh Hl IH]; [destruct Hd|].
  cbn [filter]. destruct (Dot_eq_dec h d) as [->|Hne].
  - replace (contains (bz ++ [d]) d) with true.
    2:{ symmetry. apply contains_In, in_or_app. right. left. reflexivity. }
    replace (contains bz d) with false by (symmetry; apply contains_false, Hfree).
    cbn [negb List.length].
    replace (filter (fun c => negb (contains (bz ++ [d]) c)) l)
      with (filter (fun c => negb (contains bz c)) l); [lia|].
    apply filter_ext_in. intros c Hc. f_equal. symmetry.
    apply contains_app_last. intros ->. contradiction.
  - destruct Hd as [Hd|Hd]; [contradiction|].
    rewrite (contains_app_last bz d h Hne).
    destruct (negb (contains bz h)); cbn [List.length]; specialize (IH Hd); lia.
Qed.

Lemma free_cells_hit (bz : list Dot) (s : Ship) (d : Dot) :
  In d (dots s) -> ~ In d bz ->
  free_cells (bz ++ [d]) s = free_cells bz s - 1.
Proof. intros. apply free_filter_hit; [apply dots_NoDup | |]; assumption. Qed.

Lemma free_cells_nonneg (bz : list Dot) (s : Ship) : 0 <= free_cells bz s.
Proof. unfold free_cells. lia. Qed.

Lemma free_cells_exists (bz : list Dot) (s : Ship) :
  0 < free_cells bz s -> exists c, In c (dots s) /\ ~ In c bz.
Proof.
  unfold free_cells. intros H.
  destruct (filter (fun d => negb (contains bz d)) (dots s)) as [|c l] eqn:E;
    [simpl in H; lia|].
  assert (Hc : In c (filter (fun d => negb (contains bz d)) (dots s)))
    by (rewrite E; left; reflexivity).
  apply filter_In in Hc. destruct Hc as [Hc Hf]. exists c. split; [exact Hc|].
  apply contains_false, negb_true_iff, Hf.
Qed.

Lemma free_cells_zero (bz : list Dot) (s : Ship) :
  free_cells bz s = 0 -> forall c, In c (dots s) -> In c bz.
Proof.
  unfold free_cells. intros H c Hc.
  destruct (contains bz c) eqn:E; [apply contains_In, E|]. exfalso.
  assert (Hin : In c (filter (fun d => negb (contains bz d)) (dots s))).
  { apply filter_In. split; [exact Hc|]. rewrite E. reflexivity. }
  destruct (filter (fun d => negb (contains bz d)) (dots s));
    [destruct Hin | simpl in H; lia].
Qed.

Lemma filter_length_all {A} (f : A -> bool) (l : list A) :
  List.length (filter f l) = List.length l -> forall a, In a l -> f a = true.
Proof.
  induction l as [|h l IH]; intros H a Ha; [destruct Ha|].
  cbn [filter] in H. pose proof (filter_length_le f l) as Hle.
  destruct (f h) eqn:E; cbn [List.length] in H; [|lia].
  destruct Ha as [<-|Ha]; [exact E|]. apply IH; [lia | exact Ha].
Qed.

Lemma free_cells_full (bz : list Dot) (s : Ship) :
  0 <= length s -> free_cells bz s = length s ->
  forall c, In c (dots s) -> ~ In c bz.
Proof.
  intros Hlen H c Hc. unfold free_cells in H.
  rewrite <- (dots_length s Hlen) in H. apply Nat2Z.inj in H.
  apply contains_false, negb_true_iff.
  exact (filter_length_all _ _ H c Hc).
Qed.

Lemma free_cells_nil (s : Ship) : 0 <= length s -> free_cells [] s = length s.
Proof.
  intros Hlen. unfold free_cells. rewrite <- (dots_length s Hlen).
  do 2 f_equal. induction (dots s) as [|h l IH]; [reflexivity|].
  simpl. f_equal. exact IH.
Qed.

Lemma free_cells_pos (bz : list Dot) (s : Ship) (d : Dot) :
  In d (dots s) -> ~ In d bz -> 1 <= free_cells bz s.
Proof.
  intros Hd Hfree. unfold free_cells.
  assert (Hin : In d (filter (fun c => negb (contains bz c)) (dots s))).
  { apply filter_In. split; [exact Hd|].
    apply negb_true_iff, contains_false, Hfree. }
  destruct (filter (fun c => negb (contains bz c)) (dots s));
    [destruct Hin | simpl; lia].
Qed.

Lemma free_cells_le (bz : list Dot) (s : Ship) :
  0 <= length s -> free_cells bz s <= length s.
Proof.
  intros H. rewrite <- (dots_length s H). unfold free_cells.
  pose proof (filter_length_le (fun d => negb (contains bz d)) (dots s)). lia.
Qed.

Lemma free_cells_mono (bz bz' : list Dot) (s : Ship) :
  incl bz bz' -> free_cells bz' s <= free_cells bz s.
Proof.
  intros Hincl. unfold free_cells. apply inj_le.
  induction (dots s) as [|c l IH]; [reflexivity|].
  cbn [filter]. destruct (contains bz c) eqn:E.
  - replace (contains bz' c) with true; [exact IH|].
    symmetry. apply contains_In, Hincl, contains_In, E.
  - cbn [negb List.length]. destruct (negb (contains bz' c));
      cbn [List.length]; lia.
Qed.

Lemma sunk_ships_app (l1 l2 : list Ship) :
  sunk_ships (l1 ++ l2) = sunk_ships l1 + sunk_ships l2.
Proof. unfold sunk_ships. rewrite filter_app, length_app. lia. Qed.

Lemma sunk_ships_cons (s : Ship) (l : list Ship) :
  sunk_ships (s :: l) = (if lives s =? 0 then 1 else 0) + sunk_ships l.
Proof.
  unfold sunk_ships. cbn [filter]. destruct (lives s =? 0); cbn [List.length]; lia.
Qed.

Lemma sunk_ships_bounds (l : list Ship) :
  0 <= sunk_ships l <= Z.of_nat (List.length l).
Proof.
  unfold sunk_ships. pose proof (filter_length_le (fun s => lives s =? 0) l). lia.
Qed.

Lemma sunk_ships_afloat (l : list Ship) :
  sunk_ships l <> Z.of_nat (List.length l) ->
  exists s, In s l /\ lives s <> 0.
Proof.
  induction l as [|h l IH]; intros H; [exfalso; apply H; reflexivity|].
  rewrite sunk_ships_cons in H. destruct (lives h =? 0) eqn:E.
  - destruct IH as [s [Hs Hl]].
    + intros E'. apply H. cbn [List.length]. lia.
    + exists s. split; [right|]; assumption.
  - exists h. split; [left; reflexivity|]. apply Z.eqb_neq, E.
Qed.

Lemma sunk_ships_none (l : list Ship) :
  (forall s, In s l -> lives s <> 0) -> sunk_ships l = 0.
Proof.
  induction l as [|h l IH]; intros H; [reflexivity|].
  rewrite sunk_ships_cons, IH by (intros s Hs; apply H; right; exact Hs).
  replace (lives h =? 0) with false; [reflexivity|].
  symmetry. apply Z.eqb_neq, H. left. reflexivity.
Qed.

(** ** The playing invariant is kept by every shot *)

Lemma in_middle {A} (l1 l2 : list A) (a t : A) :
  In t (l1 ++ a :: l2) <-> t = a \/ In t (l1 ++ l2).
Proof.
  rewrite !in_app_iff. simpl. split.
  - intros [H|[H|H]]; auto.
  - intros [H|[H|H]]; auto.
Qed.

Lemma fired_inv (b : Board) (d : Dot) (b' : Board) (r : bool) :
  playing_inv b -> ~ In d (busy b) -> fired b d b' r -> playing_inv b'.
Proof.
  intros [Hok [Hfleet [Hlives Hcount]]] Hfree F.
  destruct F as [f' Hno Hd | l1 s l2 f' Hs Hno Hs' Hd Hl | l1 s l2 f' Hs Hno Hs' Hd Hl].
  - (* miss *)
    split; [exact Hd|]. split; [exact Hfleet|]. split; [|exact Hcount].
    cbn [ships busy]. intros s Hs. rewrite (Hlives s Hs).
    apply free_cells_ext. intros c Hc. rewrite in_app_iff. simpl.
    split; [tauto|]. intros [H|[H|[]]]; [exact H|].
    subst c. exfalso. exact (Hno s Hs Hc).
  - (* non-lethal hit *)
    rewrite Hs in *.
    pose proof (fleet_ok_middle _ _ _ _ Hfleet) as Hmid.
    assert (Hls : lives s = free_cells (busy b) s)
      by (apply Hlives, in_elt).
    split; [exact Hd|]. cbn [size ships busy count].
    split; [eapply fleet_ok_hull; [apply hull_lose_life_map | exact Hfleet]|].
    split.
    + intros t Ht. apply in_middle in Ht. destruct Ht as [->|Ht].
      * change (free_cells (busy b ++ [d]) (lose_life s))
          with (free_cells (busy b ++ [d]) s).
        rewrite free_cells_hit by assumption. simpl. lia.
      * rewrite (Hlives t) by (apply in_middle; right; exact Ht).
        apply free_cells_ext. intros c Hc. rewrite in_app_iff. simpl.
        split; [tauto|]. intros [H|[H|[]]]; [exact H|].
        subst c. exfalso. destruct (Hmid t Ht) as [_ [_ [_ Hdis]]].
        exact (Hdis d Hs' Hc).
    + rewrite Hcount, !sunk_ships_app, !sunk_ships_cons.
      change (lives (lose_life s)) with (lives s - 1).
      destruct (lives s =? 0) eqn:E1; [apply Z.eqb_eq in E1; lia|].
      destruct (lives s - 1 =? 0) eqn:E2; [apply Z.eqb_eq in E2; lia|].
      reflexivity.
  - (* lethal hit *)
    rewrite Hs in *.
    pose proof (fleet_ok_middle _ _ _ _ Hfleet) as Hmid.
    assert (Hls : lives s = free_cells (busy b) s)
      by (apply Hlives, in_elt).
    pose proof (free_cells_pos (busy b) s d Hs' Hfree) as Hpos.
    assert (Hz : free_cells (busy b ++ [d]) s = 0)
      by (rewrite free_cells_hit by assumption; lia).
    split; [exact Hd|]. cbn [size ships busy count].
    split; [eapply fleet_ok_hull; [apply hull_lose_life_map | exact Hfleet]|].
    split.
    + intros t Ht. apply in_middle in Ht. destruct Ht as [->|Ht].
      * change (free_cells ?bz (lose_life s)) with (free_cells bz s).
        rewrite (free_cells_ext _ (busy b ++ [d]) s); [simpl; lia|].
        intros c Hc. split; [intros _|apply margin_busy_incl].
        apply (free_cells_zero _ _ Hz c Hc).
      * rewrite (Hlives t) by (apply in_middle; right; exact Ht).
        apply free_cells_ext. intros c Hc.
        destruct (Hmid t Ht) as [_ [_ [Hap Hdis]]].
        rewrite margin_busy_In, contour_cells_In, in_app_iff. simpl.
        split; [tauto|]. intros [[H|[H|[]]]|[H _]]; [exact H| |].
        -- subst c. exfalso. exact (Hdis d Hs' Hc).
        -- exfalso. exact (Hap c Hc H).
    + rewrite Hcount, !sunk_ships_app, !sunk_ships_cons.
      change (lives (lose_life s)) with (lives s - 1).
      destruct (lives s =? 0) eqn:E1; [apply Z.eqb_eq in E1; lia|].
      destruct (lives s - 1 =? 0) eqn:E2; [|apply Z.eqb_neq in E2; lia].
      lia.
Qed.

(** Whatever a shot does on a board satisfying the invariant, the result is
    either the same board (an exception of the guards) or a [fired] one. *)
Lemma shot_cases (b : Board) (d : Dot) (b' : Board) (r : Outcome bool) :
  field_ok b -> shot d b = (b', r) ->
  (b' = b /\ (r = Raise BoardOutException \/ r = Raise BoardBusyException))
  \/ (in_bounds (size b) d /\ ~ In d (busy b)
      /\ exists rep, r = Return rep /\ fired b d b' rep).
Proof.
  intros Hok H. destruct (is_out b d) eqn:Eout.
  - rewrite (shot_out b d Eout) in H. inversion H; subst. auto.
  - destruct (contains (busy b) d) eqn:Eb.
    + rewrite (shot_busy b d Eout Eb) in H. inversion H; subst. auto.
    + right. apply is_out_false in Eout. apply contains_false in Eb.
      destruct (shot_fired b d Hok Eout Eb) as [b1 [rep [E F]]].
      rewrite E in H. inversion H; subst. eauto.
Qed.

Lemma shot_inv (b : Board) (d : Dot) (b' : Board) (r : Outcome bool) :
  playing_inv b -> shot d b = (b', r) -> playing_inv b'.
Proof.
  intros Hinv H. destruct (shot_cases b d b' r (proj1 Hinv) H)
    as [[-> _] | [_ [Hfree [rep [_ F]]]]]; [exact Hinv|].
  eapply fired_inv; eauto.
Qed.

(** ** The placing invariant *)

Lemma Board_init_placing (n : Z) (hid : bool) : placing_inv (Board_init n hid).
Proof.
  split; [|split; [reflexivity|split; [|split]]].
  - split; cbn [field size Board_init].
    + apply repeat_length.
    + apply Forall_forall. intros row Hrow. apply repeat_spec in Hrow.
      subst. apply repeat_length.
  - split; [exact I | intros s []].
  - intros s [].
  - intros s d [].
Qed.

Lemma touches_sym (s : Ship) (c : Dot) (t : Ship) :
  In c (dots t) -> touches s c -> exists e, In e (dots s) /\ touches t e.
Proof.
  intros Hc [e [He [Hx Hy]]]. exists e. split; [exact He|].
  exists c. split; [exact Hc|]. lia.
Qed.

Lemma add_ship_placing (b : Board) (s : Ship) (b' : Board) (r : Outcome unit) :
  placing_inv b -> 1 <= length s -> lives s = length s ->
  add_ship s b = (b', r) ->
  placing_inv b'
  /\ ((b' = b /\ r = Raise BoardShipFailureException)
      \/ (ships b' = ships b ++ [s] /\ size b' = size b /\ r = Return tt)).
Proof.
  intros Hinv Hlen Hfull H.
  destruct (placeable b s) eqn:Ep.
  2:{ rewrite (add_ship_rejects s b Ep) in H. inversion H; subst. auto. }
  destruct Hinv as [Hok [Hcount [[Hsep Hall] [Hlives Hbusy]]]].
  destruct (add_ship_ok s b Hok Ep) as [f' [Hd E]].
  rewrite E in H. inversion H; subst b' r; clear H E.
  split; [|right; auto].
  rewrite placeable_true in Ep.
  split; [exact Hd|]. cbn [size ships busy count].
  split; [exact Hcount|]. split; [split|split].
  - apply separated_app; [exact Hsep|]. intros t Ht. split.
    + intros c Hc Hr. destruct (Ep c Hc) as [Hin Hfree].
      apply Hfree. apply (Hbusy t c Ht Hin Hr).
    + intros c Hc Hr.
      apply (margin_rect_touches s c Hlen) in Hr.
      destruct (touches_sym s c t Hc Hr) as [e [He Ht']].
      destruct (Ep e He) as [Hin Hfree]. apply Hfree.
      apply (Hbusy t e Ht Hin). apply touches_margin_rect, Ht'.
  - intros t Ht. apply in_app_or in Ht. destruct Ht as [Ht|[<-|[]]].
    + apply Hall, Ht.
    + split; [exact Hlen|]. intros c Hc. apply Ep, Hc.
  - intros t Ht. apply in_app_or in Ht. destruct Ht as [Ht|[<-|[]]];
      [apply Hlives, Ht | exact Hfull].
  - intros t c Ht Hin Hr. apply margin_busy_In.
    apply in_app_or in Ht. destruct Ht as [Ht|[<-|[]]].
    + left. apply in_or_app. left. apply (Hbusy t c Ht Hin Hr).
    + right. split; [apply contour_cells_In, Hr | exact Hin].
Qed.

Lemma begin_playing (b : Board) : placing_inv b -> playing_inv (fst (begin b)).
Proof.
  intros [Hok [Hcount [Hfleet [Hlives Hbusy]]]].
  split; [exact Hok|]. cbn [begin fst size ships busy count].
  split; [exact Hfleet|]. split.
  - intros s Hs. rewrite free_cells_nil; [apply Hlives, Hs|].
    destruct Hfleet as [_ Hall]. destruct (Hall s Hs). lia.
  - rewrite Hcount. symmetry. apply sunk_ships_none. intros s Hs.
    rewrite (Hlives s Hs). destruct Hfleet as [_ Hall].
    destruct (Hall s Hs). lia.
Qed.

(** * The sunk counter along sequences of operations *)

Lemma run_adds_placing (adds : list Op) :
  forallb is_add adds = true ->
  forall b, placing_inv b -> placing_inv (run adds b).
Proof.
  induction adds as [|op adds IH]; intros Hadds b Hinv; [exact Hinv|].
  cbn [forallb] in Hadds. apply andb_true_iff in Hadds.
  destruct Hadds as [Hop Hadds]. cbn [run fold_left]. apply (IH Hadds).
  destruct op as [p h len| |d]; try discriminate.
  cbn [is_add] in Hop. apply Z.leb_le in Hop. cbn [run_op].
  destruct (add_ship (Ship_init p h len) b) as [b' r] eqn:E.
  exact (proj1 (add_ship_placing b (Ship_init p h len) b' r Hinv Hop eq_refl E)).
Qed.

Lemma run_fires_playing (fires : list Op) :
  forallb is_fire fires = true ->
  forall b, playing_inv b -> playing_inv (run fires b).
Proof.
  induction fires as [|op fires IH]; intros Hf b Hinv; [exact Hinv|].
  cbn [forallb] in Hf. apply andb_true_iff in Hf.
  destruct Hf as [Hop Hf]. cbn [run fold_left]. apply (IH Hf).
  destruct op as [p h len| |d]; try discriminate. cbn [run_op].
  destruct (shot d b) as [b' r] eqn:E. exact (shot_inv b d b' r Hinv E).
Qed.

(** C7, as stated, fails: after add, begin, fire, begin, fire at the same
    cell the one-cell vessel has been "sunk" twice; the counter is 2 and no
    vessel has lives = 0. *)
Lemma sunk_counter_any_sequence_fails :
  ~ (forall ops : list Op,
       count (run ops (Board_init 6 false))
       = sunk_ships (ships (run ops (Board_init 6 false)))).
Proof.
  intros H.
  specialize (H [OpAdd (mkDot 0 0) true 1; OpBegin; OpFire (mkDot 0 0);
                 OpBegin; OpFire (mkDot 0 0)]).
  vm_compute in H. discriminate.
Qed.

Lemma hits_true (b : Board) (d : Dot) :
  hits b d = true
  <-> in_bounds (size b) d /\ ~ In d (busy b)
      /\ exists s, In s (ships b) /\ In d (dots s).
Proof.
  unfold hits. rewrite !andb_true_iff, !negb_true_iff, is_out_false,
    contains_false, existsb_exists.
  split.
  - intros [[H1 H2] [s [Hs Hd]]]. apply is_hit_true in Hd. eauto.
  - intros [H1 [H2 [s [Hs Hd]]]]. apply is_hit_true in Hd. eauto.
Qed.

Lemma Board_init_counter (n : Z) (hid : bool) :
  counter_inv false (Board_init n hid).
Proof.
  split; [apply Board_init_placing|]. split; [intros s []|].
  split; [reflexivity | intros _ s []].
Qed.

Lemma add_ship_counter (hit : bool) (b : Board) (p : Dot) (h : bool) (len : Z) :
  counter_inv hit b -> 1 <= len ->
  counter_inv hit (fst (add_ship (Ship_init p h len) b)).
Proof.
  intros Hinv Hlen. pose proof Hinv as [Hok [Hall [Hcount Hfull]]].
  set (s := Ship_init p h len).
  destruct (placeable b s) eqn:Ep.
  2:{ rewrite (add_ship_rejects s b Ep). exact Hinv. }
  destruct (add_ship_ok s b Hok Ep) as [f' [Hd E]]. rewrite E.
  cbn [fst]. split; [exact Hd|]. cbn [ships busy count].
  assert (Hincl : incl (busy b)
            (margin_busy (size b) (contour_cells s) (busy b ++ dots s))).
  { intros c Hc. apply margin_busy_incl, in_or_app. left. exact Hc. }
  split; [|split].
  - intros t Ht. apply in_app_or in Ht. destruct Ht as [Ht|[<-|[]]].
    + destruct (Hall t Ht) as [H1 H2]. split; [exact H1|].
      pose proof (free_cells_mono _ _ t Hincl). lia.
    + split; [exact Hlen|].
      pose proof (free_cells_le
                    (margin_busy (size b) (contour_cells s) (busy b ++ dots s)) s).
      cbn [s Ship_init lives length] in *. lia.
  - rewrite sunk_ships_app, sunk_ships_cons. cbn [s Ship_init lives].
    replace (len =? 0) with false by (symmetry; apply Z.eqb_neq; lia).
    change (sunk_ships []) with 0. lia.
  - intros Hh t Ht. apply in_app_or in Ht. destruct Ht as [Ht|[<-|[]]].
    + apply (Hfull Hh t Ht).
    + reflexivity.
Qed.

Lemma begin_counter (b : Board) :
  counter_inv false b -> counter_inv false (fst (begin b)).
Proof.
  intros [Hok [Hall [Hcount Hfull]]].
  split; [exact Hok|]. cbn [begin fst ships busy count].
  split; [|split; [exact Hcount | exact Hfull]].
  intros s Hs. destruct (Hall s Hs) as [H1 _]. split; [exact H1|].
  rewrite free_cells_nil by lia. rewrite (Hfull eq_refl s Hs). lia.
Qed.

Lemma counter_inv_later (hit : bool) (b : Board) :
  counter_inv hit b -> forall hit', counter_inv (hit || hit') b.
Proof.
  intros [Hok [Hall [Hcount Hfull]]] hit'.
  split; [exact Hok|]. split; [exact Hall|]. split; [exact Hcount|].
  intros Hh. apply orb_false_iff in Hh. apply Hfull, Hh.
Qed.

(** A shot that passes the guards keeps the invariant, also where vessels
    overlap: the vessel it reaches has a free cell, hence a life to
    lose. *)
Lemma fired_counter (hit : bool) (b : Board) (d : Dot) (b' : Board) (r : bool) :
  counter_inv hit b -> in_bounds (size b) d -> ~ In d (busy b) ->
  fired b d b' r -> counter_inv (hit || hits b d) b'.
Proof.
  intros [Hok [Hall [Hcount Hfull]]] Hin Hfree F.
  destruct F as [f' Hno Hd | l1 s l2 f' Hs Hno Hs' Hd Hl | l1 s l2 f' Hs Hno Hs' Hd Hl].
  - (* miss *)
    split; [exact Hd|]. cbn [ships busy count].
    split; [|split; [exact Hcount|]].
    + intros s Hs. destruct (Hall s Hs) as [H1 H2]. split; [exact H1|].
      pose proof (free_cells_mono (busy b) (busy b ++ [d]) s
                    (incl_appl _ (incl_refl _))). lia.
    + intros Hh. apply orb_false_iff in Hh. apply Hfull, Hh.
  - (* non-lethal hit *)
    assert (Hin_s : In s (ships b)) by (rewrite Hs; apply in_elt).
    destruct (Hall s Hin_s) as [Hlen Hle].
    pose proof (free_cells_pos (busy b) s d Hs' Hfree) as Hpos.
    split; [exact Hd|]. cbn [ships busy count].
    split; [|split].
    + intros t Ht. apply in_middle in Ht. destruct Ht as [->|Ht].
      * split; [exact Hlen|].
        change (free_cells (busy b ++ [d]) (lose_life s))
          with (free_cells (busy b ++ [d]) s).
        rewrite free_cells_hit by assumption. simpl. lia.
      * assert (Ht' : In t (ships b)) by (rewrite Hs; apply in_middle; auto).
        destruct (Hall t Ht') as [H1 H2]. split; [exact H1|].
        pose proof (free_cells_mono (busy b) (busy b ++ [d]) t
                      (incl_appl _ (incl_refl _))). lia.
    + rewrite Hcount, Hs, !sunk_ships_app, !sunk_ships_cons.
      change (lives (lose_life s)) with (lives s - 1).
      destruct (lives s =? 0) eqn:E1; [apply Z.eqb_eq in E1; lia|].
      destruct (lives s - 1 =? 0) eqn:E2; [apply Z.eqb_eq in E2; lia|].
      reflexivity.
    + intros Hh. exfalso. apply orb_false_iff in Hh. destruct Hh as [_ Hh].
      assert (hits b d = true) by (apply hits_true; eauto). congruence.
  - (* lethal hit *)
    assert (Hin_s : In s (ships b)) by (rewrite Hs; apply in_elt).
    destruct (Hall s Hin_s) as [Hlen Hle].
    pose proof (free_cells_pos (busy b) s d Hs' Hfree) as Hpos.
    assert (Hincl : incl (busy b ++ [d])
              (margin_busy (size b) (contour_cells s) (busy b ++ [d])))
      by apply margin_busy_incl.
    split; [exact Hd|]. cbn [ships busy count].
    split; [|split].
    + intros t Ht. apply in_middle in Ht. destruct Ht as [->|Ht].
      * split; [exact Hlen|].
        change (free_cells ?bz (lose_life s)) with (free_cells bz s).
        pose proof (free_cells_mono _ _ s Hincl) as Hm.
        rewrite free_cells_hit in Hm by assumption. simpl. lia.
      * assert (Ht' : In t (ships b)) by (rewrite Hs; apply in_middle; auto).
        destruct (Hall t Ht') as [H1 H2]. split; [exact H1|].
        pose proof (free_cells_mono _ _ t Hincl) as Hm.
        pose proof (free_cells_mono (busy b) (busy b ++ [d]) t
                      (incl_appl _ (incl_refl _))). lia.
    + rewrite Hcount, Hs, !sunk_ships_app, !sunk_ships_cons.
      change (lives (lose_life s)) with (lives s - 1).
      destruct (lives s =? 0) eqn:E1; [apply Z.eqb_eq in E1; lia|].
      destruct (lives s - 1 =? 0) eqn:E2; [|apply Z.eqb_neq in E2; lia].
      lia.
    + intros Hh. exfalso. apply orb_false_iff in Hh. destruct Hh as [_ Hh].
      assert (hits b d = true) by (apply hits_true; eauto). congruence.
Qed.

Lemma shot_counter (hit : bool) (b : Board) (d : Dot) :
  counter_inv hit b -> counter_inv (hit || hits b d) (fst (shot d b)).
Proof.
  intros Hinv. destruct (shot d b) as [b' r] eqn:E. cbn [fst].
  destruct (shot_cases b d b' r (proj1 Hinv) E)
    as [[-> _] | [Hin [Hfree [rep [_ F]]]]].
  - apply counter_inv_later, Hinv.
  - eapply fired_counter; eauto.
Qed.

Lemma run_orderly (ops : list Op) :
  forall hit b, counter_inv hit b -> orderly hit b ops = true ->
  count (run ops b) = sunk_ships (ships (run ops b)).
Proof.
  induction ops as [|op ops IH]; intros hit b Hinv Hord.
  - apply Hinv.
  - cbn [orderly] in Hord. apply andb_true_iff in Hord.
    destruct Hord as [Hop Hord]. cbn [run fold_left].
    refine (IH _ (run_op b op) _ Hord).
    destruct op as [p h len| |d]; cbn [run_op].
    + apply add_ship_counter; [exact Hinv | apply Z.leb_le, Hop].
    + apply negb_true_iff in Hop. subst hit. apply begin_counter, Hinv.
    + apply shot_counter, Hinv.
Qed.

(** C7, amended.  In every grid state reached from a fresh board by
    [add_ship] (of newly built vessels of length at least 1), [begin] and
    [shot] operations in any order, as long as no [begin] comes after a
    shot that hit a vessel, the sunk counter equals the number of vessels
    with lives = 0; and on any grid a shot changes the counter by 0 or by
    exactly +1. *)
Theorem sunk_counter_life_cycle (n : Z) (hid : bool) (ops : list Op) :
  orderly false (Board_init n hid) ops = true ->
  (let b := run ops (Board_init n hid) in count b = sunk_ships (ships b))
  /\ (forall b d, count (fst (shot d b)) = count b
                  \/ count (fst (shot d b)) = count b + 1).
Proof.
  intros Hord. split.
  - cbv zeta. exact (run_orderly ops false _ (Board_init_counter n hid) Hord).
  - intros b d. destruct (shot d b) as [b' r] eqn:E.
    exact (shot_count b b' d r E).
Qed.

Lemma sunk_counter_life_cycle_witness :
  orderly false (Board_init 6 false) demo_ops = true
  /\ count (run demo_ops (Board_init 6 false)) = 2
  /\ map lives (ships (run demo_ops (Board_init 6 false))) = [0; 2; 0; 2].
Proof.
  split; [vm_compute; reflexivity|].
  destruct (sunk_counter_life_cycle 6 false demo_ops eq_refl) as [H _].
  cbv zeta in H. split; [rewrite H|]; vm_compute; reflexivity.
Defined.

(** * The AI never runs out of candidates *)

Lemma Ship_eq_dec (s t : Ship) : {s = t} + {s <> t}.
Proof.
  decide equality; try apply Z.eq_dec; try apply Bool.bool_dec;
    apply Dot_eq_dec.
Defined.

(** In the hunting phases every candidate is within one step of a cell of
    [prev]. *)
Lemma candidate_near_prev (enemy : Board) (prev : list Dot) (d : Dot) :
  (1 <= List.length prev <= 2)%nat ->
  (forall p0 p1, prev = [p0; p1] -> adjacent p0 p1) ->
  In d (ai_brain prev enemy) ->
  exists p, In p prev /\ Z.abs (x d - x p) <= 1 /\ Z.abs (y d - y p) <= 1.
Proof.
  intros Hlen Hadj Hd.
  destruct prev as [|p0 [|p1 [|p2 prev]]]; cbn [List.length] in Hlen; try lia.
  - apply cross_In in Hd. destruct Hd as [Hd _]. unfold adjacent in Hd.
    exists p0. split; [left; reflexivity | lia].
  - apply bracket_In in Hd. destruct Hd as [Hd _].
    specialize (Hadj p0 p1 eq_refl). unfold adjacent in Hadj.
    destruct (Z_le_gt_dec (y p0) (y p1)), (Z_le_gt_dec (x p0) (x p1));
      destruct Hd as [[He [Hx [Hy|Hy]]] | [Hne [Hy [Hx|Hx]]]];
      first [ exists p0; split; [left; reflexivity | lia]
            | exists p1; split; [right; left; reflexivity | lia] ].
Qed.

(** Two vessels of a fleet with cells within one step of each other are the
    same vessel. *)
Lemma near_same_ship (n : Z) (l : list Ship) (s s0 : Ship) (p d : Dot) :
  fleet_ok n l -> In s l -> In s0 l -> In p (dots s) -> In d (dots s0) ->
  Z.abs (x d - x p) <= 1 -> Z.abs (y d - y p) <= 1 -> s0 = s.
Proof.
  intros [Hsep _] Hs Hs0 Hp Hd Hx Hy.
  destruct (Ship_eq_dec s0 s) as [E|Hne]; [exact E|]. exfalso.
  apply (separated_In l s0 s Hsep Hs0 Hs Hne d Hd).
  apply touches_margin_rect. exists p. auto.
Qed.

Lemma lens_lengths (l : list Ship) (s : Ship) :
  map length l = lens -> In s l -> 1 <= length s <= 3.
Proof.
  intros E Hs. apply (in_map length) in Hs. rewrite E in Hs.
  unfold lens in Hs. simpl in Hs.
  repeat (destruct Hs as [<-|Hs]; [lia|]). destruct Hs.
Qed.

Lemma hunting_length (b : Board) (prev : list Dot) (s : Ship) :
  map length (ships b) = lens -> hunting b prev s ->
  (List.length prev <= 2)%nat.
Proof.
  intros Hlens [Hs [Hpos [Hl _]]].
  pose proof (lens_lengths _ _ Hlens Hs). lia.
Qed.

(** The vessel hit by a candidate of a hunting phase is the hunted one. *)
Lemma hunting_target (b : Board) (prev : list Dot) (s s0 : Ship) (d : Dot) :
  playing_inv b -> map length (ships b) = lens ->
  prev <> [] -> hunting b prev s ->
  In d (ai_brain prev b) -> In s0 (ships b) -> In d (dots s0) -> s0 = s.
Proof.
  intros [_ [Hfleet _]] Hlens Hne Hh Hcand Hs0 Hd.
  pose proof (hunting_length b prev s Hlens Hh) as Hlen.
  destruct Hh as [Hs [_ [_ [Hiff [_ Hadj]]]]].
  destruct (candidate_near_prev b prev d) as [p [Hp [Hx Hy]]]; auto.
  { destruct prev; [congruence | cbn [List.length] in *; lia]. }
  apply Hiff in Hp. destruct Hp as [Hp _].
  exact (near_same_ship _ _ s s0 p d Hfleet Hs Hs0 Hp Hd Hx Hy).
Qed.

Lemma hunt_step (b : Board) (prev : list Dot) (d : Dot) (b' : Board)
      (rep : bool) :
  playing_inv b -> map length (ships b) = lens -> hunt_inv b prev ->
  In d (ai_brain prev b) -> ~ In d (busy b) -> fired b d b' rep ->
  hunt_inv b' (if negb (count b =? count b') then []
               else if rep then prev ++ [d] else prev).
Proof.
  intros Hinv Hlens Hhunt Hcand Hfree F.
  pose proof Hinv as [Hok [Hfleet [Hlives Hcount]]].
  destruct F as [f' Hno Hd | l1 s0 l2 f' Hs Hno Hs' Hd Hl | l1 s0 l2 f' Hs Hno Hs' Hd Hl];
    cbn [count].
  - (* miss: [prev] stays *)
    rewrite Z.eqb_refl. cbn [negb].
    destruct prev as [|p prev]; [exact Hhunt|].
    destruct Hhunt as [s [Hin [Hpos [Hlen [Hiff [Hoth Hadj]]]]]].
    exists s. unfold hunting. cbn [ships busy].
    repeat split; auto.
    + apply Hiff, H.
    + apply in_or_app. left. apply Hiff, H.
    + intros [Hc Hb]. apply Hiff. split; [exact Hc|].
      apply in_app_or in Hb. destruct Hb as [Hb|[<-|[]]]; [exact Hb|].
      exfalso. exact (Hno s Hin Hc).
  - (* non-lethal hit: the cell joins [prev] *)
    rewrite Z.eqb_refl. cbn [negb].
    assert (Hin0 : In s0 (ships b)) by (rewrite Hs; apply in_elt).
    assert (Hl0 : lives s0 = free_cells (busy b) s0) by (apply Hlives, Hin0).
    pose proof (lens_lengths _ _ Hlens Hin0) as Hlen0.
    rewrite Hs in Hfleet.
    pose proof (fleet_ok_middle _ _ _ _ Hfleet) as Hmid.
    assert (Hothers : forall t, In t (l1 ++ lose_life s0 :: l2) ->
              t <> lose_life s0 -> In t (ships b) /\ t <> s0).
    { intros t Ht Hne. apply in_middle in Ht. destruct Ht as [->|Ht]; [congruence|].
      split; [rewrite Hs; apply in_middle; right; exact Ht|].
      apply (Hmid t Ht). }
    destruct prev as [|p prev].
    + (* search phase: a new hunt starts *)
      assert (Hfull : lives s0 = length s0).
      { destruct (Hhunt s0 Hin0) as [H|H]; [exact H | lia]. }
      exists (lose_life s0). unfold hunting. cbn [ships busy app List.length].
      split; [apply in_elt|]. split; [simpl; lia|]. split; [simpl; lia|].
      split; [|split].
      * intros c. change (dots (lose_life s0)) with (dots s0).
        rewrite in_app_iff. simpl. split.
        -- intros [<-|[]]. auto.
        -- intros [Hc [Hb|[<-|[]]]]; [|auto]. exfalso.
           rewrite Hl0 in Hfull.
           assert (H0 : 0 <= length s0) by lia.
           exact (free_cells_full (busy b) s0 H0 Hfull c Hc Hb).
      * intros t Ht Hne. apply Hhunt. apply (Hothers t Ht Hne).
      * intros p0 p1 E. discriminate.
    + (* hunting phase: the hit vessel is the hunted one *)
      destruct Hhunt as [s Hh].
      assert (E : s0 = s).
      { apply (hunting_target b (p :: prev) s s0 d); auto. discriminate. }
      subst s.
      pose proof (hunting_length b _ _ Hlens Hh) as Hplen.
      destruct Hh as [_ [Hpos [Hlen [Hiff [Hoth Hadj]]]]].
      exists (lose_life s0). unfold hunting.
      cbn [ships busy]. rewrite length_app. cbn [List.length] in *.
      split; [apply in_elt|]. split; [simpl; lia|]. split; [simpl; lia|].
      split; [|split].
      * intros c. change (dots (lose_life s0)) with (dots s0).
        rewrite !in_app_iff. cbn [In]. rewrite (Hiff c).
        split; [|tauto]. intros [[? ?]|[<-|[]]]; auto.
      * intros t Ht Hne. destruct (Hothers t Ht Hne). apply Hoth; assumption.
      * intros p0 p1 E.
        destruct prev as [|q prev]; [|destruct prev; cbn in E; inversion E;
          subst; cbn [List.length] in *; lia].
        cbn in E. inversion E; subst.
        apply cross_In in Hcand. destruct Hcand as [Ha _].
        unfold adjacent in *. lia.
  - (* lethal hit: [prev] is reset *)
    replace (count b =? count b + 1) with false by (symmetry; apply Z.eqb_neq; lia).
    cbn [negb hunt_inv ships].
    assert (Hin0 : In s0 (ships b)) by (rewrite Hs; apply in_elt).
    assert (Hl0 : lives s0 = free_cells (busy b) s0) by (apply Hlives, Hin0).
    pose proof (free_cells_pos (busy b) s0 d Hs' Hfree) as Hpos0.
    rewrite Hs in Hfleet.
    pose proof (fleet_ok_middle _ _ _ _ Hfleet) as Hmid.
    intros t Ht. apply in_middle in Ht. destruct Ht as [->|Ht].
    + right. simpl. lia.
    + assert (Ht' : In t (ships b)) by (rewrite Hs; apply in_middle; right; exact Ht).
      destruct prev as [|p prev]; [apply Hhunt, Ht'|].
      destruct Hhunt as [s Hh].
      assert (E : s0 = s).
      { apply (hunting_target b (p :: prev) s s0 d); auto. discriminate. }
      subst s. destruct Hh as [_ [_ [_ [_ [Hoth _]]]]].
      apply Hoth; [exact Ht'|]. apply (Hmid t Ht).
Qed.

Lemma In_nonempty {A} (l : list A) (a : A) : In a l -> l <> [].
Proof. intros H E. rewrite E in H. destruct H. Qed.

(** Under the game invariant, while the enemy still has a vessel afloat,
    [ai_brain] proposes at least one cell. *)
Lemma candidates_nonempty (b : Board) (prev : list Dot) :
  game_inv b prev -> count b <> 7 -> ai_brain prev b <> [].
Proof.
  intros [Hinv [Hsize [Hlens Hhunt]]] Hcount.
  pose proof Hinv as [Hok [[Hsep Hall] [Hlives Hc]]].
  destruct prev as [|p0 [|p1 [|p2 prev]]].
  - (* search phase *)
    assert (Hlen : List.length (ships b) = 7%nat).
    { rewrite <- (length_map length), Hlens. reflexivity. }
    destruct (sunk_ships_afloat (ships b)) as [t [Ht Hl]].
    { rewrite Hlen, <- Hc. exact Hcount. }
    destruct (free_cells_exists (busy b) t) as [c [Hc1 Hc2]].
    { pose proof (free_cells_nonneg (busy b) t). rewrite (Hlives t Ht) in Hl. lia. }
    assert (Hin : In c (not_busy b all_cells)).
    { apply not_busy_In. split; [|exact Hc2]. apply all_cells_In.
      destruct (Hall t Ht) as [_ Hb]. specialize (Hb c Hc1).
      rewrite Hsize in Hb. exact Hb. }
    cbn [ai_brain]. destruct (not_busy b diagonals); [|discriminate].
    cbn [is_empty]. destruct (not_busy b offset_diagonals); [|discriminate].
    cbn [is_empty]. exact (In_nonempty _ _ Hin).
  - (* cross phase *)
    destruct Hhunt as [s [Hs [Hpos [Hl [Hiff _]]]]].
    cbn [List.length] in Hl.
    destruct (proj1 (Hiff p0) (or_introl eq_refl)) as [Hp _].
    apply dots_In in Hp. destruct Hp as [i [Hi Ep]].
    pose (k := if i + 1 <? length s then i + 1 else i - 1).
    assert (Hk : 0 <= k < length s /\ (k = i + 1 \/ k = i - 1)).
    { unfold k. destruct (i + 1 <? length s) eqn:E;
        [apply Z.ltb_lt in E | apply Z.ltb_ge in E]; lia. }
    pose (c := if horizontal s then mkDot (x (start s)) (y (start s) + k)
               else mkDot (x (start s) + k) (y (start s))).
    assert (Hc1 : In c (dots s)) by (apply dots_In; exists k; split; [lia | reflexivity]).
    assert (Hadj : adjacent c p0).
    { unfold adjacent, c. rewrite Ep. destruct (horizontal s); simpl; lia. }
    apply (In_nonempty _ c). apply cross_In. split; [exact Hadj|].
    intros Hb. destruct (proj2 (Hiff c) (conj Hc1 Hb)) as [E|[]].
    unfold adjacent in Hadj. rewrite E in Hadj. lia.
  - (* bracket phase *)
    destruct Hhunt as [s [Hs [Hpos [Hl [Hiff [_ Hadj]]]]]].
    cbn [List.length] in Hl. specialize (Hadj p0 p1 eq_refl).
    pose proof (lens_lengths _ _ Hlens Hs) as Hlen.
    destruct (proj1 (Hiff p0) (or_introl eq_refl)) as [Hp0 _].
    destruct (proj1 (Hiff p1) (or_intror (or_introl eq_refl))) as [Hp1 _].
    apply dots_In in Hp0. destruct Hp0 as [i [Hi Ep0]].
    apply dots_In in Hp1. destruct Hp1 as [j [Hj Ep1]].
    pose (k := 3 - i - j).
    assert (Hij : Z.abs (i - j) = 1).
    { unfold adjacent in Hadj. rewrite Ep0, Ep1 in Hadj.
      destruct (horizontal s); simpl in Hadj; lia. }
    assert (Hk : 0 <= k < length s /\ k <> i /\ k <> j) by (unfold k; lia).
    pose (c := if horizontal s then mkDot (x (start s)) (y (start s) + k)
               else mkDot (x (start s) + k) (y (start s))).
    assert (Hc1 : In c (dots s)) by (apply dots_In; exists k; split; [lia | reflexivity]).
    apply (In_nonempty _ c). apply bracket_In. split.
    + unfold c, k. rewrite Ep0, Ep1. destruct (horizontal s); cbn [x y]; lia.
    + intros Hb. destruct (proj2 (Hiff c) (conj Hc1 Hb)) as [E|[E|[]]].
      * assert (k = i); [|lia]. unfold c in E. rewrite Ep0 in E.
        destruct (horizontal s); inversion E; lia.
      * assert (k = j); [|lia]. unfold c in E. rewrite Ep1 in E.
        destruct (horizontal s); inversion E; lia.
  - (* [prev] never holds three cells *)
    destruct Hhunt as [s Hh].
    pose proof (hunting_length b _ s Hlens Hh) as H.
    cbn [List.length] in H. lia.
Qed.

(** ** One move of the AI *)

Lemma choice_In {A} (l : list A) (r : Z) (a : A) : choice l r = Some a -> In a l.
Proof.
  unfold choice. destruct l as [|h t]; [discriminate|]. apply nth_error_In.
Qed.

Lemma choice_Some {A} (l : list A) (r : Z) :
  l <> [] -> exists a, choice l r = Some a.
Proof.
  intros Hne. unfold choice. destruct l as [|h t]; [congruence|].
  destruct (nth_error (h :: t)
              (Z.to_nat (r mod Z.of_nat (List.length (h :: t))))) as [a|] eqn:E.
  - exists a. reflexivity.
  - apply nth_error_None in E. cbn [List.length] in E.
    pose proof (Z.mod_pos_bound r (Z.of_nat (S (List.length t)))). lia.
Qed.

Lemma fired_lengths (b : Board) (d : Dot) (b' : Board) (r : bool) :
  fired b d b' r -> map length (ships b') = map length (ships b).
Proof.
  intros F. destruct F as [f' _ _ | l1 s l2 f' Hs _ _ _ _ | l1 s l2 f' Hs _ _ _ _];
    cbn [ships]; [reflexivity | |]; rewrite Hs, !map_app; reflexivity.
Qed.

(** A completed move is one shot at a candidate, which was free. *)
Lemma move_loop_moved (rnd : Rand) (c : Z) (prev : list Dot) (b : Board)
      (b' : Board) (prev' : list Dot) (rep : bool) (k' : nat) :
  field_ok b ->
  forall fuel k,
  move_loop fuel rnd k c prev b = Moved b' prev' rep k' ->
  exists d, In d (ai_brain prev b) /\ ~ In d (busy b) /\ fired b d b' rep
            /\ prev' = if negb (c =? count b') then []
                       else if rep then prev ++ [d] else prev.
Proof.
  intros Hok fuel. induction fuel as [|fuel IH]; intros k H; [discriminate|].
  cbn [move_loop] in H. unfold AI_ask in H.
  destruct (choice (ai_brain prev b) (rnd k)) as [d|] eqn:Ec; [|discriminate].
  destruct (shot d b) as [b1 r] eqn:Es.
  destruct (shot_cases b d b1 r Hok Es) as [[-> Hr] | [_ [Hfree [rep' [-> F]]]]].
  - destruct Hr as [-> | ->]; apply (IH _ H).
  - inversion H; subst. exists d. split; [eapply choice_In; eauto|]. auto.
Qed.

(** No uncaught exception escapes a move made under the game invariant. *)
Lemma move_loop_safe (rnd : Rand) (c : Z) (prev : list Dot) (b : Board) :
  game_inv b prev -> count b <> 7 ->
  forall fuel k e, move_loop fuel rnd k c prev b <> Uncaught e.
Proof.
  intros Hinv Hcount fuel.
  induction fuel as [|fuel IH]; intros k e; [discriminate|].
  cbn [move_loop]. unfold AI_ask.
  destruct (choice_Some (ai_brain prev b) (rnd k)
              (candidates_nonempty b prev Hinv Hcount)) as [d Ed].
  rewrite Ed. destruct (shot d b) as [b1 r] eqn:Es.
  destruct Hinv as [[Hok _] _].
  destruct (shot_cases b d b1 r Hok Es) as [[-> Hr] | [_ [_ [rep [-> _]]]]].
  - destruct Hr as [-> | ->]; apply IH.
  - discriminate.
Qed.

(** ** The board that comes out of [try_board] *)

Lemma try_attempts_placing (sz l : Z) (rnd : Rand) (b' : Board) (k' : nat) :
  1 <= l ->
  forall atts k b,
  placing_inv b ->
  try_attempts sz l rnd atts k b = Return (Some (b', k')) ->
  (placing_inv b' /\ size b' = size b
   /\ map length (ships b') = map length (ships b) ++ [l])
  \/ (b' = b /\ ~ In 1999 atts).
Proof.
  intros Hl atts. induction atts as [|a atts IH]; intros k b Hinv H.
  - inversion H; subst. right. auto.
  - cbn [try_attempts] in H.
    match type of H with context [add_ship ?s b] =>
      destruct (add_ship s b) as [b1 r] eqn:E;
      destruct (add_ship_placing b s b1 r Hinv Hl eq_refl E)
        as [Hinv1 [[-> ->] | [Hships [Hsz ->]]]]
    end.
    + destruct (a =? 1999) eqn:Ea; [discriminate|].
      apply Z.eqb_neq in Ea.
      destruct (IH _ _ Hinv H) as [Hplaced | [-> Hno]]; [left; exact Hplaced|].
      right. split; [reflexivity|]. intros [?|?]; [lia | contradiction].
    + inversion H; subst. left. split; [exact Hinv1|]. split; [exact Hsz|].
      rewrite Hships, map_app. reflexivity.
Qed.

Lemma try_lens_placing (sz : Z) (rnd : Rand) (b' : Board) (k' : nat) :
  forall ls k b,
  (forall l, In l ls -> 1 <= l) ->
  placing_inv b ->
  try_lens sz rnd ls k b = Return (Some (b', k')) ->
  placing_inv b' /\ size b' = size b
  /\ map length (ships b') = map length (ships b) ++ ls.
Proof.
  intros ls. induction ls as [|l ls IH]; intros k b Hls Hinv H.
  - inversion H; subst. rewrite app_nil_r. auto.
  - cbn [try_lens] in H.
    destruct (try_attempts sz l rnd (range 0 2000) k b) as [[[b1 k1]|]|e] eqn:E;
      try discriminate.
    destruct (try_attempts_placing sz l rnd b1 k1 (Hls l (or_introl eq_refl))
                _ _ _ Hinv E) as [[Hinv1 [Hsz1 Hlen1]] | [_ Hno]].
    + destruct (IH k1 b1) as [Hinv' [Hsz' Hlen']]; auto.
      { intros l' Hl'. apply Hls. right. exact Hl'. }
      split; [exact Hinv'|]. split; [congruence|].
      rewrite Hlen', Hlen1, <- app_assoc. reflexivity.
    + exfalso. apply Hno. apply range_In. lia.
Qed.

Lemma try_board_game_inv (rnd : Rand) (k : nat) (b : Board) (k' : nat) :
  try_board game_size rnd k = Return (Some (b, k')) -> game_inv b [].
Proof.
  unfold try_board. intros H.
  destruct (try_lens game_size rnd lens k (Board_init game_size false))
    as [[[b1 k1]|]|e] eqn:E; try discriminate.
  inversion H; subst; clear H.
  assert (Hls : forall l, In l lens -> 1 <= l).
  { unfold lens. simpl. intros l Hl.
    repeat (destruct Hl as [<-|Hl]; [lia|]). destruct Hl. }
  destruct (try_lens_placing game_size rnd b1 k' lens k
              (Board_init game_size false) Hls
              (Board_init_placing game_size false) E) as [Hinv [Hsz Hlen]].
  split; [apply begin_playing, Hinv|].
  cbn [begin fst size ships]. split; [exact Hsz|]. split; [exact Hlen|].
  cbn [hunt_inv]. intros t Ht. left.
  destruct Hinv as [_ [_ [_ [Hl _]]]]. apply Hl, Ht.
Qed.

Lemma ai_play_inv (b : Board) (prev : list Dot) :
  ai_play b prev -> game_inv b prev.
Proof.
  intros H. induction H as [rnd k b k' H | b prev fuel rnd k b' prev' rep k' _ IH Hc H].
  - exact (try_board_game_inv rnd k b k' H).
  - destruct IH as [Hinv [Hsz [Hlens Hhunt]]].
    destruct (move_loop_moved rnd (count b) prev b b' prev' rep k'
                (proj1 Hinv) fuel k H) as [d [Hd [Hfree [F ->]]]].
    split; [exact (fired_inv b d b' rep Hinv Hfree F)|].
    split; [rewrite (fired_size _ _ _ _ F); exact Hsz|].
    split; [rewrite (fired_lengths _ _ _ _ F); exact Hlens|].
    exact (hunt_step b prev d b' rep Hinv Hlens Hhunt Hd Hfree F).
Qed.

Lemma demo_game_try_board :
  try_board game_size demo_rnd 0 = Return (Some (demo_game, 21%nat)).
Proof. vm_compute. reflexivity. Qed.

(** C5.  In every state the AI can be asked to move in (the enemy board
    comes out of [try_board], is changed only by the AI's completed moves,
    and its sunk counter is not yet 7), [ai_brain] returns a non-empty
    list: [choice] in [ask] never sees an empty list, and no exception
    escapes [move]. *)
Theorem ai_candidates_nonempty (b : Board) (prev : list Dot) :
  ai_play b prev -> count b <> 7 ->
  ai_brain prev b <> []
  /\ (forall rnd k, AI_ask rnd k prev b <> None)
  /\ (forall fuel rnd k e, AI_move fuel rnd k prev b <> Uncaught e).
Proof.
  intros Hplay Hcount. pose proof (ai_play_inv b prev Hplay) as Hinv.
  pose proof (candidates_nonempty b prev Hinv Hcount) as Hne.
  split; [exact Hne|]. split.
  - intros rnd k. unfold AI_ask.
    destruct (choice_Some (ai_brain prev b) (rnd k) Hne) as [a ->]. discriminate.
  - intros fuel rnd k e. apply move_loop_safe; assumption.
Qed.

Lemma ai_candidates_nonempty_witness :
  ai_brain [mkDot 0 0] demo_game_hit <> [].
Proof.
  apply (ai_candidates_nonempty demo_game_hit [mkDot 0 0]).
  - apply (ai_play_move demo_game [] 1%nat (fun _ => 0) 0%nat
                        demo_game_hit [mkDot 0 0] true 1%nat).
    + exact (ai_play_start demo_rnd 0 demo_game 21 demo_game_try_board).
    + vm_compute. discriminate.
    + vm_compute. reflexivity.
  - vm_compute. discriminate.
Defined.

(** * Further properties of the program *)

(** ** Vessels and the margin pass *)

Lemma nth_error_range (a b : Z) (i : nat) :
  (i < Z.to_nat (b - a))%nat -> nth_error (range a b) i = Some (a + Z.of_nat i).
Proof.
  intros H. unfold range.
  apply (map_nth_error (fun k => a + Z.of_nat k) i).
  rewrite nth_error_nth' with (d := O) by (rewrite length_seq; exact H).
  rewrite seq_nth by exact H. reflexivity.
Qed.

(** X1.  A vessel occupies exactly [length] cells (none when the length is
    not positive), all different; the [i]-th one is the start moved [i]
    steps along the row when horizontal, along the column otherwise. *)
Theorem dots_geometry (s : Ship) :
  List.length (dots s) = Z.to_nat (length s)
  /\ NoDup (dots s)
  /\ (forall i, (i < Z.to_nat (length s))%nat ->
        nth_error (dots s) i
        = Some (if horizontal s
                then mkDot (x (start s)) (y (start s) + Z.of_nat i)
                else mkDot (x (start s) + Z.of_nat i) (y (start s)))).
Proof.
  split; [|split].
  - unfold dots, range. rewrite !length_map, length_seq. f_equal. lia.
  - apply dots_NoDup.
  - intros i Hi. unfold dots.
    pose proof (nth_error_range 0 (length s) i) as Hr.
    rewrite Z.sub_0_r in Hr. specialize (Hr Hi).
    match goal with |- nth_error (map ?f _) _ = _ =>
      rewrite (map_nth_error f i _ Hr) end.
    reflexivity.
Qed.

Lemma dots_geometry_witness :
  nth_error (dots demo_ship) 1 = Some (mkDot 0 1).
Proof.
  destruct (dots_geometry demo_ship) as [_ [_ H]].
  apply (H 1%nat). simpl. lia.
Defined.

Lemma growing_for_each {A} (l : list A) (body : A -> M unit) :
  (forall a, growing (body a)) -> growing (for_each l body).
Proof.
  apply stable_for_each; [apply extends_refl | apply extends_trans].
Qed.

Lemma growing_add_ship (s : Ship) : growing (add_ship s).
Proof.
  unfold add_ship. apply growing_bind.
  { apply growing_for_each. intros d.
    apply growing_bind; [apply growing_get|]. intros b0.
    destruct (is_out b0 d || contains (busy b0) d);
      [apply growing_raise | apply growing_ret]. }
  intros _. apply growing_bind.
  { apply growing_for_each. intros d.
    apply growing_bind; [apply growing_set_field|].
    intros _. apply growing_busy_append. }
  intros _. apply growing_bind; [apply growing_contour|].
  intros _. apply growing_ships_append.
Qed.

(** X2.  Whatever they do (return or raise, on any board), [shot],
    [add_ship] and [contour] keep the size of the board and never remove a
    cell from the busy list. *)
Theorem busy_only_grows (b : Board) :
  (forall d, extends b (fst (shot d b)))
  /\ (forall s, extends b (fst (add_ship s b)))
  /\ (forall s vis, extends b (fst (contour s vis b))).
Proof.
  split; [|split].
  - intros d. destruct (shot d b) as [b' r] eqn:E.
    exact (growing_shot d b b' r E).
  - intros s. destruct (add_ship s b) as [b' r] eqn:E.
    exact (growing_add_ship s b b' r E).
  - intros s vis. destruct (contour s vis b) as [b' r] eqn:E.
    exact (growing_contour s vis b b' r E).
Qed.

Lemma Board_init_ok (n : Z) (hid : bool) : field_ok (Board_init n hid).
Proof. apply Board_init_placing. Qed.

(** X3.  On a fresh board [add_ship] returns exactly for the vessels that
    lie inside the board, and raises the placement failure, leaving the
    board fresh, for all others. *)
Theorem fresh_board_accepts (n : Z) (hid : bool) (s : Ship) :
  ((exists b', add_ship s (Board_init n hid) = (b', Return tt)) <-> fits n s)
  /\ (~ fits n s ->
      add_ship s (Board_init n hid)
      = (Board_init n hid, Raise BoardShipFailureException)).
Proof.
  assert (Hp : placeable (Board_init n hid) s = true <-> fits n s).
  { rewrite placeable_true. unfold fits. cbn [size busy Board_init].
    split; intros H d Hd; [apply (H d Hd) | split; [apply (H d Hd) | intros []]]. }
  split.
  - split.
    + intros [b' E]. apply Hp.
      destruct (placeable (Board_init n hid) s) eqn:Ep; [reflexivity|].
      rewrite (add_ship_rejects _ _ Ep) in E. discriminate.
    + intros Hfit. apply Hp in Hfit.
      destruct (add_ship_ok s _ (Board_init_ok n hid) Hfit) as [f' [_ E]].
      eexists. exact E.
  - intros Hno. apply add_ship_rejects.
    destruct (placeable (Board_init n hid) s) eqn:Ep; [|reflexivity].
    exfalso. apply Hno, Hp. reflexivity.
Qed.

Lemma fresh_board_accepts_witness :
  add_ship (Ship_init (mkDot 5 5) false 2) (Board_init 6 false)
  = (Board_init 6 false, Raise BoardShipFailureException).
Proof.
  destruct (fresh_board_accepts 6 false (Ship_init (mkDot 5 5) false 2))
    as [_ H].
  apply H. intros Hfit.
  destruct (Hfit (mkDot 6 5)) as [Hx _]; [simpl; tauto | simpl in Hx; lia].
Defined.

(** A margin pass over cells that are all out of bounds or busy does
    nothing. *)
Lemma contour_loop_skip (vis : bool) (cells : list Dot) (b : Board) :
  (forall c, In c cells -> is_out b c = true \/ In c (busy b)) ->
  for_each cells (fun cur =>
    b <- get ;;
    if is_out b cur || contains (busy b) cur then ret tt
    else (if vis then set_field cur CellDot else ret tt) ;; busy_append cur) b
  = (b, Return tt).
Proof.
  induction cells as [|c cells IH]; intros H; [reflexivity|].
  cbn [for_each]. unfold bind at 1. unfold bind at 1. unfold get at 1.
  replace (is_out b c || contains (busy b) c) with true.
  - unfold ret at 1. apply IH. intros c' Hc'. apply H. right. exact Hc'.
  - symmetry. apply orb_true_iff.
    destruct (H c (or_introl eq_refl)) as [Ho|Hb]; [left; exact Ho|].
    right. apply contains_In, Hb.
Qed.

(** X4.  On a well-shaped board [contour] returns; afterwards the busy
    cells are the former ones and the in-bounds cells of the vessel's
    margin rectangle, nothing else changes except the field (which is
    untouched when the margin is not made visible), and a second pass
    changes nothing at all. *)
Theorem contour_effect (b : Board) (s : Ship) (vis : bool) :
  field_ok b ->
  exists b',
    contour s vis b = (b', Return tt)
    /\ (forall d, In d (busy b') <->
                  In d (busy b) \/ (margin_rect s d /\ in_bounds (size b) d))
    /\ size b' = size b /\ ships b' = ships b /\ count b' = count b
    /\ is_hidden b' = is_hidden b
    /\ field_ok b'
    /\ (vis = false -> field b' = field b)
    /\ (forall vis', contour s vis' b' = (b', Return tt)).
Proof.
  intros Hok. destruct (contour_ok s vis b Hok) as [f' [Hd [Hf E]]].
  eexists. split; [exact E|]. cbn [busy size ships count is_hidden field].
  split.
  { intros d. rewrite margin_busy_In, contour_cells_In. reflexivity. }
  repeat (split; [first [reflexivity | exact Hd | exact Hf]|]).
  intros vis'. unfold contour. apply contour_loop_skip.
  intros c Hc. cbn [busy].
  destruct (is_out _ c) eqn:Eo; [left; reflexivity|]. right.
  apply margin_busy_In. right. split; [exact Hc|].
  apply is_out_false in Eo. exact Eo.
Qed.

Lemma contour_effect_witness :
  In (mkDot 1 2) (busy (fst (contour demo_ship true demo_board))).
Proof.
  destruct (contour_effect demo_board demo_ship true demo_board_ok)
    as [b' [E [Hb _]]].
  rewrite E. apply Hb. right. split.
  - unfold margin_rect. simpl. lia.
  - unfold in_bounds. simpl. lia.
Defined.

(** ** The marks on the field *)

Lemma nth_error_list_set_same {A} (l : list A) (k : nat) (v : A) :
  (k < List.length l)%nat -> nth_error (list_set l k v) k = Some v.
Proof.
  revert k. induction l as [|h t IH]; intros [|k] H; simpl in *; try lia.
  - reflexivity.
  - apply IH. lia.
Qed.

Lemma nth_error_list_set_other {A} (l : list A) (k j : nat) (v : A) :
  j <> k -> nth_error (list_set l k v) j = nth_error l j.
Proof.
  revert k j. induction l as [|h t IH]; intros [|k] [|j] H; simpl; auto.
  congruence.
Qed.

Lemma getitem_in_range {A} (l : list A) (i : Z) :
  0 <= i < Z.of_nat (List.length l) -> getitem l i = nth_error l (Z.to_nat i).
Proof. intros H. unfold getitem. rewrite py_index_in_range by exact H. reflexivity. Qed.

(** Writing a cell of a well-shaped board: the cell reads back, the other
    cells of the board are as before. *)
Lemma set_field_get (b : Board) (d : Dot) (c : Cell) :
  field_ok b -> in_bounds (size b) d ->
  exists f', dims (size b) f'
    /\ set_field d c b =
       (mkBoard (size b) f' (busy b) (ships b) (count b) (is_hidden b), Return tt)
    /\ (forall d', in_bounds (size b) d' ->
          get_field (mkBoard (size b) f' (busy b) (ships b) (count b)
                             (is_hidden b)) d'
          = if Dot_eq d' d then Some c else get_field b d').
Proof.
  intros [Hlen Hrows] [Hx Hy]. unfold set_field, getitem, setitem.
  rewrite (py_index_in_range (List.length (field b)) (x d)) by lia.
  destruct (nth_error (field b) (Z.to_nat (x d))) as [row|] eqn:Erow.
  2:{ apply nth_error_None in Erow. lia. }
  assert (Hrow : List.length row = Z.to_nat (size b)).
  { apply nth_error_In in Erow.
    rewrite Forall_forall in Hrows. apply Hrows. exact Erow. }
  rewrite (py_index_in_range (List.length row) (y d)) by lia.
  eexists. split; [|split; [reflexivity|]].
  - split.
    + rewrite list_set_length. exact Hlen.
    + apply list_set_Forall; [exact Hrows|].
      rewrite list_set_length. exact Hrow.
  - intros d' [Hx' Hy']. unfold get_field. cbn [field].
    rewrite !getitem_in_range by (rewrite ?list_set_length; lia).
    destruct (Z.eq_dec (x d') (x d)) as [Ex|Ex].
    + rewrite Ex, nth_error_list_set_same, Erow by lia.
      rewrite !getitem_in_range by (rewrite ?list_set_length; lia).
      destruct (Z.eq_dec (y d') (y d)) as [Ey|Ey].
      * rewrite Ey, nth_error_list_set_same by lia.
        replace (Dot_eq d' d) with true; [reflexivity|].
        symmetry. apply Dot_eq_true, Dot_ext; assumption.
      * rewrite nth_error_list_set_other by lia.
        replace (Dot_eq d' d) with false; [reflexivity|].
        symmetry. destruct (Dot_eq d' d) eqn:E; [|reflexivity].
        apply Dot_eq_true in E. subst. congruence.
    + rewrite nth_error_list_set_other by lia.
      replace (Dot_eq d' d) with false; [reflexivity|].
      symmetry. destruct (Dot_eq d' d) eqn:E; [|reflexivity].
      apply Dot_eq_true in E. subst. congruence.
Qed.

Lemma keeps_marks_refl (b : Board) : keeps_marks b b.
Proof. split; [apply extends_refl|]. intros H. split; [exact H|reflexivity]. Qed.

Lemma keeps_marks_trans (a b c : Board) :
  keeps_marks a b -> keeps_marks b c -> keeps_marks a c.
Proof.
  intros [E1 F1] [E2 F2]. split; [eapply extends_trans; eauto|].
  intros Ha. destruct (F1 Ha) as [Hb G1]. destruct (F2 Hb) as [Hc G2].
  split; [exact Hc|]. intros d Hin Hd. destruct E1 as [Es Ei].
  rewrite G2; [apply G1; assumption | rewrite Es; exact Hin | apply Ei, Hd].
Qed.

(** [contour] never overwrites the mark of a cell that is already busy. *)
Lemma keeps_marks_contour (s : Ship) (vis : bool) :
  stable keeps_marks (contour s vis).
Proof.
  unfold contour.
  apply stable_for_each; [apply keeps_marks_refl | apply keeps_marks_trans|].
  intros cur b b' r H. unfold bind at 1 in H. unfold get at 1 in H.
  destruct (is_out b cur) eqn:Eo; cbn [orb] in H.
  { inversion H; subst. apply keeps_marks_refl. }
  destruct (contains (busy b) cur) eqn:Eb.
  { inversion H; subst. apply keeps_marks_refl. }
  apply is_out_false in Eo. apply contains_false in Eb.
  split.
  { revert H. apply growing_bind; [|intros; apply growing_busy_append].
    destruct vis; [apply growing_set_field | apply growing_ret]. }
  intros Hok. destruct vis.
  - destruct (set_field_get b cur CellDot Hok Eo) as [f' [Hd [E G]]].
    unfold bind in H. rewrite E in H. unfold busy_append in H.
    inversion H; subst; clear H. split; [exact Hd|].
    intros d Hin Hbusy. cbn [size field busy ships count is_hidden].
    specialize (G d Hin). unfold get_field in *. cbn [field] in *.
    rewrite G. replace (Dot_eq d cur) with false; [reflexivity|].
    symmetry. destruct (Dot_eq d cur) eqn:E'; [|reflexivity].
    apply Dot_eq_true in E'. subst. contradiction.
  - unfold bind, ret, busy_append in H. inversion H; subst; clear H.
    split; [exact Hok|]. reflexivity.
Qed.

Lemma paint_loop_marks (ds : list Dot) :
  forall b, field_ok b -> (forall d, In d ds -> in_bounds (size b) d) ->
  exists f', dims (size b) f' /\
    for_each ds (fun d => set_field d CellShip ;; busy_append d) b
    = (mkBoard (size b) f' (busy b ++ ds) (ships b) (count b) (is_hidden b),
       Return tt)
    /\ (forall d, in_bounds (size b) d ->
          get_field (mkBoard (size b) f' (busy b ++ ds) (ships b) (count b)
                             (is_hidden b)) d
          = if contains ds d then Some CellShip else get_field b d).
Proof.
  induction ds as [|c ds IH]; intros b Hok Hin.
  - exists (field b). split; [exact Hok|]. rewrite app_nil_r.
    split; [destruct b; reflexivity|]. reflexivity.
  - destruct (set_field_get b c CellShip Hok (Hin c (or_introl eq_refl)))
      as [f1 [Hd1 [E1 G1]]].
    cbn [for_each]. unfold bind at 1. unfold bind at 1. rewrite E1.
    unfold busy_append at 1. cbn [size field busy ships count is_hidden].
    match goal with |- context [for_each ds ?body ?b1] =>
      destruct (IH b1) as [f' [Hd [E G]]]; [exact Hd1 | |] end.
    + intros d' Hd'. apply Hin. right. exact Hd'.
    + cbn [size field busy ships count is_hidden] in *.
      exists f'. split; [exact Hd|].
      rewrite <- app_assoc in E. cbn [app] in E. split; [exact E|].
      intros d Hd0. specialize (G d Hd0). specialize (G1 d Hd0).
      unfold get_field in *. cbn [field] in *. rewrite G, G1.
      cbn [contains existsb]. fold (contains ds d).
      destruct (contains ds d); [rewrite orb_true_r; reflexivity|].
      rewrite orb_false_r. reflexivity.
Qed.

(** The field after a successful [add_ship]. *)
Lemma add_ship_paints (b b' : Board) (s : Ship) :
  field_ok b -> add_ship s b = (b', Return tt) ->
  (forall d, In d (dots s) -> get_field b' d = Some CellShip)
  /\ (forall d, in_bounds (size b) d -> ~ In d (dots s) ->
                get_field b' d = get_field b d)
  /\ ships b' = ships b ++ [s] /\ count b' = count b /\ field_ok b'.
Proof.
  intros Hok H.
  assert (Hp : placeable b s = true).
  { destruct (placeable b s) eqn:Ep; [reflexivity|].
    rewrite (add_ship_rejects s b Ep) in H. discriminate. }
  pose proof Hp as Hp'. rewrite placeable_true in Hp'.
  destruct (paint_loop_marks (dots s) b Hok) as [f1 [Hd1 [E1 G1]]].
  { intros d Hd. apply (Hp' d Hd). }
  unfold add_ship in H. unfold bind at 1 in H. rewrite validate_loop in H.
  fold (placeable b s) in H. rewrite Hp in H.
  unfold bind at 1 in H. rewrite E1 in H.
  unfold bind at 1 in H. rewrite contour_hidden in H.
  unfold ships_append in H. cbn [size field busy ships count is_hidden] in H.
  inversion H; subst b'; clear H.
  unfold get_field in *. cbn [field ships count] in *.
  split; [|split; [|split; [reflexivity|split; [reflexivity|exact Hd1]]]].
  - intros d Hd. rewrite (G1 d (proj1 (Hp' d Hd))).
    replace (contains (dots s) d) with true; [reflexivity|].
    symmetry. apply contains_In, Hd.
  - intros d Hin Hno. rewrite (G1 d Hin).
    replace (contains (dots s) d) with false; [reflexivity|].
    symmetry. apply contains_false, Hno.
Qed.

(** X5.  A successful [add_ship] on a well-shaped board writes the ship
    marker on the cells of the vessel and leaves every other cell of the
    board as it was; the vessel is appended to the list, the sunk counter
    is unchanged and the board is still well-shaped. *)
Theorem add_ship_marks (b b' : Board) (s : Ship) :
  field_ok b -> add_ship s b = (b', Return tt) ->
  (forall d, In d (dots s) -> get_field b' d = Some CellShip)
  /\ (forall d, in_bounds (size b) d -> ~ In d (dots s) ->
                get_field b' d = get_field b d)
  /\ ships b' = ships b ++ [s] /\ count b' = count b /\ field_ok b'.
Proof. exact (add_ship_paints b b' s). Qed.

Lemma add_ship_marks_witness :
  get_field (fst (add_ship demo_ship (Board_init 6 false))) (mkDot 0 1)
  = Some CellShip.
Proof.
  destruct (add_ship_marks (Board_init 6 false)
              (fst (add_ship demo_ship (Board_init 6 false))) demo_ship)
    as [H _].
  - apply Board_init_ok.
  - reflexivity.
  - apply H. simpl. tauto.
Defined.

Lemma ship_lose_life_frame (i : nat) (b b' : Board) (r : Outcome unit) :
  ship_lose_life i b = (b', r) ->
  r = Return tt /\ size b' = size b /\ field b' = field b
  /\ busy b' = busy b /\ count b' = count b.
Proof.
  unfold ship_lose_life. destruct (nth_error (ships b) i);
    intros H; inversion H; subst; auto.
Qed.

Lemma get_field_field (b b' : Board) (d : Dot) :
  field b' = field b -> get_field b' d = get_field b d.
Proof. intros H. unfold get_field. rewrite H. reflexivity. Qed.

Lemma Dot_eq_false (a b : Dot) : a <> b -> Dot_eq a b = false.
Proof.
  intros H. destruct (Dot_eq a b) eqn:E; [|reflexivity].
  apply Dot_eq_true in E. contradiction.
Qed.

(** The loop of [shot] on a well-shaped board whose busy list already
    holds the cell: no vessel holds the cell and nothing happens, or the
    cell is marked as hit and the marks on the other busy cells stay. *)
Lemma shot_ships_marks (d : Dot) (rest : list Ship) :
  forall i b b' o,
  field_ok b -> in_bounds (size b) d -> In d (busy b) ->
  shot_ships i rest d b = (b', Return o) ->
  (existsb (fun s => is_hit s d) rest = false /\ o = None /\ b' = b)
  \/ (existsb (fun s => is_hit s d) rest = true /\ o <> None
      /\ field_ok b' /\ get_field b' d = Some CellX
      /\ forall d', in_bounds (size b) d' -> d' <> d -> In d' (busy b) ->
                    get_field b' d' = get_field b d').
Proof.
  induction rest as [|s rest IH]; intros i b b' o Hok Hin Hbusy H.
  - inversion H; subst. left. auto.
  - cbn [shot_ships existsb] in *. destruct (is_hit s d) eqn:Ehit.
    2:{ cbn [orb]. eapply IH; eauto. }
    right. cbn [orb]. split; [reflexivity|].
    destruct (set_field_get b d CellX Hok Hin) as [f1 [Hd1 [E1 G1]]].
    unfold bind at 1 in H. rewrite E1 in H.
    apply bind_inv in H. destruct H as [[b2 [[] [H2 H3]]] | [e [_ ?]]];
      [|discriminate].
    apply ship_lose_life_frame in H2.
    cbn [size field busy count] in H2. destruct H2 as [_ [Hs2 [Hf2 [Hb2 _]]]].
    assert (Hok2 : field_ok b2).
    { unfold field_ok. rewrite Hs2, Hf2. exact Hd1. }
    assert (Hget2 : forall d', in_bounds (size b) d' ->
              get_field b2 d' = if Dot_eq d' d then Some CellX else get_field b d').
    { intros d' Hd'. rewrite <- (G1 d' Hd'). apply get_field_field.
      rewrite Hf2. reflexivity. }
    assert (Hfin : forall b3, keeps_marks b2 b3 ->
              field_ok b3 /\ get_field b3 d = Some CellX
              /\ forall d', in_bounds (size b) d' -> d' <> d -> In d' (busy b) ->
                            get_field b3 d' = get_field b d').
    { intros b3 [_ K]. destruct (K Hok2) as [Hok3 G3]. rewrite Hs2, Hb2 in G3.
      split; [exact Hok3|]. split.
      - rewrite (G3 d Hin Hbusy), (Hget2 d Hin).
        replace (Dot_eq d d) with true; [reflexivity|].
        symmetry. apply Dot_eq_true. reflexivity.
      - intros d' Hd' Hne Hb'. rewrite (G3 d' Hd' Hb'), (Hget2 d' Hd').
        rewrite (Dot_eq_false d' d Hne). reflexivity. }
    destruct (lives (lose_life s) >? 0).
    + inversion H3; subst. split; [discriminate|].
      apply Hfin, keeps_marks_refl.
    + apply bind_inv in H3. destruct H3 as [[b3 [[] [H3 H4]]] | [e [_ ?]]];
        [|discriminate].
      apply bind_inv in H4. destruct H4 as [[b4 [[] [H4 H5]]] | [e [_ ?]]];
        [|discriminate].
      inversion H5; subst; clear H5. split; [discriminate|].
      apply Hfin. inversion H3; subst b3; clear H3.
      apply keeps_marks_contour in H4. destruct H4 as [[E4 I4] K4].
      split; [split; [exact E4 | exact I4]|].
      intros Hk. apply K4. exact Hk.
Qed.

(** X6.  A shot at a free in-bounds cell of a well-shaped board returns;
    it marks the cell as hit when some vessel holds it and as a miss
    otherwise, and the marks on the cells that were busy before the shot
    are not touched (sinking a vessel only marks margin cells that were
    not busy). *)
Theorem shot_marks (b : Board) (d : Dot) :
  field_ok b -> in_bounds (size b) d -> ~ In d (busy b) ->
  exists b' r,
    shot d b = (b', Return r)
    /\ get_field b' d
       = Some (if existsb (fun s => is_hit s d) (ships b) then CellX
               else CellDot)
    /\ (forall d', in_bounds (size b) d' -> In d' (busy b) ->
                   get_field b' d' = get_field b d').
Proof.
  intros Hok Hin Hfree.
  destruct (shot_fired b d Hok Hin Hfree) as [b' [r [E _]]].
  exists b', r. split; [exact E|].
  revert E. unfold shot. unfold bind at 1. unfold get at 1.
  replace (is_out b d) with false by (symmetry; apply is_out_false, Hin).
  replace (contains (busy b) d) with false
    by (symmetry; apply contains_false, Hfree).
  unfold bind at 1. unfold busy_append at 1. cbn beta iota.
  unfold bind at 1. unfold get at 1. cbn beta iota.
  cbn [ships].
  set (b1 := mkBoard (size b) (field b) (busy b ++ [d]) (ships b) (count b)
                     (is_hidden b)).
  intros E. apply bind_inv in E.
  destruct E as [[b2 [o [H1 H2]]] | [e [_ ?]]]; [|discriminate].
  assert (Hd1 : In d (busy b1)) by (apply in_or_app; right; left; reflexivity).
  destruct (shot_ships_marks d (ships b) 0 b1 b2 o Hok Hin Hd1 H1)
    as [[Hno [-> ->]] | [Hyes [Ho [Hok2 [Gd G]]]]].
  - rewrite Hno.
    destruct (set_field_get b1 d CellDot Hok Hin) as [f1 [Hd [E1 G1]]].
    unfold bind in H2. rewrite E1 in H2. inversion H2; subst; clear H2.
    unfold get_field in G1 |- *. cbn [field size b1] in G1 |- *.
    split.
    + rewrite (G1 d Hin). replace (Dot_eq d d) with true; [reflexivity|].
      symmetry. apply Dot_eq_true. reflexivity.
    + intros d' Hd' Hb'. rewrite (G1 d' Hd').
      rewrite Dot_eq_false; [reflexivity|]. intros ->. contradiction.
  - rewrite Hyes. destruct o as [rep|]; [|congruence].
    inversion H2; subst; clear H2. split; [exact Gd|].
    intros d' Hd' Hb'. rewrite G; [reflexivity | exact Hd' | |].
    + intros ->. contradiction.
    + apply in_or_app. left. exact Hb'.
Qed.

Lemma shot_marks_witness :
  get_field (fst (shot (mkDot 0 0) demo_board)) (mkDot 0 0) = Some CellX.
Proof.
  destruct (shot_marks demo_board (mkDot 0 0)) as [b' [r [E [H _]]]].
  - exact demo_board_ok.
  - unfold in_bounds. simpl. lia.
  - simpl. tauto.
  - rewrite E. exact H.
Defined.

(** ** Placement keeps vessels apart *)

Lemma separated_nth (l : list Ship) :
  separated l ->
  forall i j s t, i <> j -> nth_error l i = Some s -> nth_error l j = Some t ->
                  apart s t.
Proof.
  induction l as [|h l IH]; intros Hsep i j s t Hne Hi Hj.
  - destruct i; discriminate.
  - destruct Hsep as [Hh Hl]. destruct i as [|i], j as [|j]; simpl in *.
    + congruence.
    + inversion Hi; subst. apply Hh. eapply nth_error_In; eauto.
    + inversion Hj; subst. apply Hh. eapply nth_error_In; eauto.
    + apply (IH Hl i j); auto.
Qed.

Lemma run_size (ops : list Op) : forall b, size (run ops b) = size b.
Proof.
  induction ops as [|op ops IH]; intros b; [reflexivity|].
  cbn [run fold_left]. fold (run ops (run_op b op)). rewrite IH.
  destruct op as [p h len| |d]; cbn [run_op].
  - destruct (add_ship (Ship_init p h len) b) as [b' r] eqn:E.
    apply (growing_add_ship _ _ _ _ E).
  - reflexivity.
  - destruct (shot d b) as [b' r] eqn:E. apply (growing_shot _ _ _ _ E).
Qed.

Lemma run_app (ops1 ops2 : list Op) (b : Board) :
  run (ops1 ++ ops2) b = run ops2 (run ops1 b).
Proof. unfold run. apply fold_left_app. Qed.

Lemma fleet_ok_apart (n : Z) (l : list Ship) :
  fleet_ok n l ->
  forall i j s t, i <> j -> nth_error l i = Some s -> nth_error l j = Some t ->
    fits n s /\ forall c, In c (dots s) -> ~ touches t c.
Proof.
  intros [Hsep Hall] i j s t Hne Hi Hj. split.
  - destruct (Hall s) as [_ H]; [eapply nth_error_In; eauto | exact H].
  - intros c Hc Ht. apply (separated_nth l Hsep i j s t Hne Hi Hj c Hc).
    apply touches_margin_rect, Ht.
Qed.

(** X7.  The no-touching rule.  When vessels of length at least 1 are
    added to a fresh board, the vessels that were accepted lie inside the
    board and no cell of one is a cell of, or within one step of, another;
    this still holds after [begin] and any shots. *)
Theorem placed_vessels_apart (n : Z) (hid : bool) (adds fires : list Op) :
  forallb is_add adds = true -> forallb is_fire fires = true ->
  forall b, b = run adds (Board_init n hid)
            \/ b = run (adds ++ OpBegin :: fires) (Board_init n hid) ->
  forall i j s t, i <> j ->
    nth_error (ships b) i = Some s -> nth_error (ships b) j = Some t ->
    fits n s /\ forall c, In c (dots s) -> ~ touches t c.
Proof.
  intros Hadds Hfires b Hb.
  pose proof (run_adds_placing adds Hadds _ (Board_init_placing n hid)) as Hp.
  assert (Hfleet : fleet_ok n (ships b)).
  { destruct Hb as [-> | ->].
    - destruct Hp as [_ [_ [Hf _]]]. rewrite run_size in Hf. exact Hf.
    - rewrite run_app. cbn [run fold_left run_op].
      fold (run fires (fst (begin (run adds (Board_init n hid))))).
      apply begin_playing in Hp.
      pose proof (run_fires_playing fires Hfires _ Hp) as [_ [Hf _]].
      assert (Hsz : size (run fires (fst (begin (run adds (Board_init n hid)))))
                    = n).
      { rewrite run_size. cbn [begin fst size]. apply run_size. }
      rewrite Hsz in Hf. exact Hf. }
  apply fleet_ok_apart. exact Hfleet.
Qed.

Lemma placed_vessels_apart_witness :
  ~ touches (Ship_init (mkDot 3 3) false 1) (mkDot 0 1).
Proof.
  destruct (placed_vessels_apart 6 false
              [OpAdd (mkDot 0 0) true 2; OpAdd (mkDot 3 3) false 1] []
              eq_refl eq_refl _ (or_introl eq_refl)
              0%nat 1%nat demo_ship (Ship_init (mkDot 3 3) false 1))
    as [_ H].
  - discriminate.
  - reflexivity.
  - reflexivity.
  - apply H. simpl. tauto.
Defined.

(** ** The busy list is a duplicate-free set of cells of the board *)

Lemma margin_busy_NoDup (n : Z) (cells : list Dot) :
  forall bz, NoDup bz -> NoDup (margin_busy n cells bz).
Proof.
  unfold margin_busy.
  induction cells as [|c cells IH]; intros bz Hnd; [exact Hnd|].
  cbn [fold_left]. apply IH.
  destruct (negb (((0 <=? x c) && (x c <? n)) && ((0 <=? y c) && (y c <? n))));
    cbn [orb]; [exact Hnd|].
  destruct (contains bz c) eqn:E; [exact Hnd|].
  apply NoDup_app; [exact Hnd | repeat constructor; intros [] |].
  intros a Ha [<-|[]]. apply contains_false in E. contradiction.
Qed.

Lemma margin_busy_length (n : Z) (cells : list Dot) :
  forall bz, (List.length bz <= List.length (margin_busy n cells bz))%nat.
Proof.
  unfold margin_busy.
  induction cells as [|c cells IH]; intros bz; [apply Nat.le_refl|].
  cbn [fold_left]. eapply Nat.le_trans; [|apply IH].
  destruct (_ || _); [apply Nat.le_refl|]. rewrite length_app. lia.
Qed.

Lemma Board_init_tidy (n : Z) (hid : bool) : tidy (Board_init n hid).
Proof.
  split; [apply Board_init_ok|]. split; [constructor | intros d []].
Qed.

Lemma tidy_add_ship (b : Board) (s : Ship) (b' : Board) (r : Outcome unit) :
  tidy b -> add_ship s b = (b', r) -> tidy b'.
Proof.
  intros [Hok [Hnd Hin]] H. destruct (placeable b s) eqn:Ep.
  2:{ rewrite (add_ship_rejects s b Ep) in H. injection H as <- <-.
      exact (conj Hok (conj Hnd Hin)). }
  destruct (add_ship_ok s b Hok Ep) as [f' [Hd E]].
  rewrite E in H. inversion H; subst b' r; clear H E.
  rewrite placeable_true in Ep.
  split; [exact Hd|]. cbn [busy size]. split.
  - apply margin_busy_NoDup. apply NoDup_app; [exact Hnd | apply dots_NoDup|].
    intros a Ha Hs. exact (proj2 (Ep a Hs) Ha).
  - intros d Hd'. apply margin_busy_In in Hd'.
    destruct Hd' as [Hd'|[_ Hd']]; [|exact Hd'].
    apply in_app_or in Hd'. destruct Hd' as [Hd'|Hd']; [apply Hin, Hd'|].
    apply (Ep d Hd').
Qed.

Lemma tidy_shot (b : Board) (d : Dot) (b' : Board) (r : Outcome bool) :
  tidy b -> shot d b = (b', r) ->
  tidy b'
  /\ (forall rep, r = Return rep ->
                  (List.length (busy b) < List.length (busy b'))%nat).
Proof.
  intros [Hok [Hnd Hin]] H.
  destruct (shot_cases b d b' r Hok H) as [[-> Hr] | [Hd [Hfree [rep [-> F]]]]].
  { split; [exact (conj Hok (conj Hnd Hin))|].
    intros rep E. destruct Hr as [Hr|Hr]; rewrite Hr in E; discriminate. }
  assert (Hnd1 : NoDup (busy b ++ [d])).
  { apply NoDup_app; [exact Hnd | repeat constructor; intros [] |].
    intros a Ha [<-|[]]. contradiction. }
  assert (Hin1 : forall c, In c (busy b ++ [d]) -> in_bounds (size b) c).
  { intros c Hc. apply in_app_or in Hc.
    destruct Hc as [Hc|[<-|[]]]; [apply Hin, Hc | exact Hd]. }
  destruct F as [f' _ Hdm | l1 s l2 f' _ _ _ Hdm _ | l1 s l2 f' _ _ _ Hdm _].
  - split; [split; [exact Hdm|split; assumption]|].
    intros _ _. cbn [busy]. rewrite length_app. simpl. lia.
  - split; [split; [exact Hdm|split; assumption]|].
    intros _ _. cbn [busy]. rewrite length_app. simpl. lia.
  - split.
    + split; [exact Hdm|]. cbn [busy size]. split.
      * apply margin_busy_NoDup, Hnd1.
      * intros c Hc. apply margin_busy_In in Hc.
        destruct Hc as [Hc|[_ Hc]]; [apply Hin1, Hc | exact Hc].
    + intros _ _. cbn [busy].
      pose proof (margin_busy_length (size b) (contour_cells s) (busy b ++ [d])) as Hl.
      rewrite length_app in Hl. simpl in Hl. lia.
Qed.

Lemma tidy_run (ops : list Op) : forall b, tidy b -> tidy (run ops b).
Proof.
  induction ops as [|op ops IH]; intros b Ht; [exact Ht|].
  cbn [run fold_left]. fold (run ops (run_op b op)). apply IH.
  destruct op as [p h len| |d]; cbn [run_op].
  - destruct (add_ship (Ship_init p h len) b) as [b' r] eqn:E.
    exact (tidy_add_ship b _ b' r Ht E).
  - destruct Ht as [Hok _]. split; [exact Hok|].
    cbn [begin fst busy]. split; [constructor | intros d []].
  - destruct (shot d b) as [b' r] eqn:E.
    exact (proj1 (tidy_shot b d b' r Ht E)).
Qed.

Lemma board_cells_In (n : Z) (d : Dot) : In d (board_cells n) <-> in_bounds n d.
Proof.
  unfold board_cells, in_bounds. rewrite in_flat_map. split.
  - intros [i [Hi Hd]]. apply in_map_iff in Hd. destruct Hd as [j [<- Hj]].
    apply range_In in Hi. apply range_In in Hj. simpl. lia.
  - intros [Hx Hy]. exists (x d). split; [apply range_In; lia|].
    apply in_map_iff. exists (y d). split; [destruct d; reflexivity|].
    apply range_In. lia.
Qed.

Lemma grid_length (rows cols : list Z) :
  List.length (flat_map (fun i => map (fun j => mkDot i j) cols) rows)
  = (List.length rows * List.length cols)%nat.
Proof.
  induction rows as [|i rows IH]; [reflexivity|].
  cbn [flat_map List.length]. rewrite length_app, length_map, IH. lia.
Qed.

Lemma board_cells_length (n : Z) :
  List.length (board_cells n) = (Z.to_nat n * Z.to_nat n)%nat.
Proof.
  unfold board_cells. rewrite grid_length.
  assert (Hr : List.length (range 0 n) = Z.to_nat n).
  { unfold range. rewrite length_map, length_seq. f_equal. lia. }
  rewrite Hr. reflexivity.
Qed.

Lemma tidy_busy_length (b : Board) :
  tidy b ->
  (List.length (busy b) <= Z.to_nat (size b) * Z.to_nat (size b))%nat.
Proof.
  intros [_ [Hnd Hin]]. rewrite <- board_cells_length.
  apply NoDup_incl_length; [exact Hnd|].
  intros d Hd. apply board_cells_In, Hin, Hd.
Qed.

(** X8.  After any sequence of [add_ship], [begin] and [shot] calls on a
    fresh board of side [n], whatever each call did, the board still has
    side [n] with an [n] by [n] field, and its busy list holds cells of the
    board only, each at most once (so at most [n * n] of them). *)
Theorem any_sequence_tidy (n : Z) (hid : bool) (ops : list Op) :
  let b := run ops (Board_init n hid) in
  size b = n /\ field_ok b /\ NoDup (busy b)
  /\ (forall d, In d (busy b) -> in_bounds n d)
  /\ (List.length (busy b) <= Z.to_nat n * Z.to_nat n)%nat.
Proof.
  cbv zeta.
  pose proof (tidy_run ops _ (Board_init_tidy n hid)) as Ht.
  pose proof (tidy_busy_length _ Ht) as Hl.
  destruct Ht as [Hok [Hnd Hin]].
  rewrite run_size in Hin, Hl. cbn [size Board_init] in Hin, Hl.
  split; [apply run_size|]. auto.
Qed.

Lemma returned_shots_tidy (ds : list Dot) :
  forall b, tidy b ->
  (returned_shots ds b + List.length (busy b)
   <= Z.to_nat (size b) * Z.to_nat (size b))%nat.
Proof.
  induction ds as [|d ds IH]; intros b Ht.
  - apply tidy_busy_length, Ht.
  - cbn [returned_shots]. destruct (shot d b) as [b' r] eqn:E.
    destruct (tidy_shot b d b' r Ht E) as [Ht' Hgrow].
    pose proof (growing_shot d b b' r E) as [Hsz Hincl].
    specialize (IH b' Ht'). rewrite Hsz in IH.
    destruct r as [rep|e].
    + specialize (Hgrow rep eq_refl). lia.
    + pose proof (NoDup_incl_length (proj1 (proj2 Ht)) Hincl). lia.
Qed.

(** X9.  Every shot that returns makes the busy list longer, so on a board
    reached by any sequence of operations from a fresh board of side [n],
    at most [n * n] minus the number of busy cells of the shots of any
    further sequence can return; all others raise. *)
Theorem returned_shots_bounded (n : Z) (hid : bool) (ops : list Op)
        (ds : list Dot) :
  let b := run ops (Board_init n hid) in
  (returned_shots ds b + List.length (busy b)
   <= Z.to_nat n * Z.to_nat n)%nat.
Proof.
  cbv zeta.
  pose proof (returned_shots_tidy ds _ (tidy_run ops _ (Board_init_tidy n hid)))
    as H.
  rewrite run_size in H. exact H.
Qed.

(** ** Lives along the life cycle *)

Lemma free_cells_all_busy (bz : list Dot) (s : Ship) :
  (forall c, In c (dots s) -> In c bz) -> free_cells bz s = 0.
Proof.
  intros H. unfold free_cells.
  replace (filter (fun d => negb (contains bz d)) (dots s)) with (@nil Dot);
    [reflexivity|].
  symmetry. induction (dots s) as [|c l IH]; [reflexivity|].
  cbn [filter]. replace (contains bz c) with true.
  - cbn [negb]. apply IH. intros c' Hc'. apply H. right. exact Hc'.
  - symmetry. apply contains_In, H. left. reflexivity.
Qed.

Lemma playing_inv_lives (b : Board) (s : Ship) :
  playing_inv b -> In s (ships b) ->
  lives s = free_cells (busy b) s
  /\ 0 <= lives s <= length s
  /\ (lives s = 0 <-> forall c, In c (dots s) -> In c (busy b)).
Proof.
  intros [_ [[_ Hall] [Hl _]]] Hs. destruct (Hall s Hs) as [Hlen _].
  rewrite (Hl s Hs). split; [reflexivity|]. split.
  - split; [apply free_cells_nonneg | apply free_cells_le; lia].
  - split; [apply free_cells_zero | apply free_cells_all_busy].
Qed.

(** X10.  Along the life cycle of a grid (vessels of length at least 1
    added to a fresh board, one [begin], then shots) the lives of every
    vessel equal the number of its cells that are not busy; they stay
    between 0 and the length, and are 0 exactly when all its cells are
    busy. *)
Theorem lives_are_free_cells (n : Z) (hid : bool) (adds fires : list Op) :
  forallb is_add adds = true -> forallb is_fire fires = true ->
  let b := run (adds ++ OpBegin :: fires) (Board_init n hid) in
  forall s, In s (ships b) ->
    lives s = free_cells (busy b) s
    /\ 0 <= lives s <= length s
    /\ (lives s = 0 <-> forall c, In c (dots s) -> In c (busy b)).
Proof.
  intros Hadds Hfires. cbv zeta. intros s Hs.
  apply playing_inv_lives; [|exact Hs].
  rewrite run_app. cbn [run fold_left run_op].
  apply (run_fires_playing fires Hfires).
  apply begin_playing.
  apply (run_adds_placing adds Hadds _ (Board_init_placing n hid)).
Qed.

Lemma lives_are_free_cells_witness :
  Forall (fun s => lives s = 1)
         (ships (run ([OpAdd (mkDot 0 0) true 2]
                      ++ OpBegin :: [OpFire (mkDot 0 1)])
                     (Board_init 6 false))).
Proof.
  apply Forall_forall. intros s Hs.
  destruct (lives_are_free_cells 6 false [OpAdd (mkDot 0 0) true 2]
              [OpFire (mkDot 0 1)] eq_refl eq_refl s Hs) as [H _].
  rewrite H. vm_compute in Hs. destruct Hs as [<-|[]]. reflexivity.
Defined.

(** X11.  A shot on a well-shaped board, whatever its outcome, changes at
    most one vessel: either the list of vessels is unchanged, or the first
    vessel of the list that holds the cell has lost exactly one life.  No
    vessel is ever moved, resized, added or removed. *)
Theorem shot_changes_one_vessel (b b' : Board) (d : Dot) (r : Outcome bool) :
  field_ok b -> shot d b = (b', r) ->
  (ships b' = ships b
   \/ exists l1 s l2,
        ships b = l1 ++ s :: l2 /\ ships b' = l1 ++ lose_life s :: l2
        /\ In d (dots s) /\ (forall t, In t l1 -> ~ In d (dots t)))
  /\ map hull (ships b') = map hull (ships b).
Proof.
  intros Hok H.
  destruct (shot_cases b d b' r Hok H) as [[-> _] | [_ [_ [rep [_ F]]]]].
  { split; [left|]; reflexivity. }
  destruct F as [f' _ _ | l1 s l2 f' Hs Hno Hd _ _ | l1 s l2 f' Hs Hno Hd _ _];
    cbn [ships].
  - split; [left|]; reflexivity.
  - split; [right; exists l1, s, l2; auto|].
    rewrite Hs. symmetry. apply hull_lose_life_map.
  - split; [right; exists l1, s, l2; auto|].
    rewrite Hs. symmetry. apply hull_lose_life_map.
Qed.

Lemma shot_changes_one_vessel_witness :
  map hull (ships (fst (shot (mkDot 0 0) demo_board)))
  = map hull (ships demo_board).
Proof.
  destruct (shot_changes_one_vessel demo_board
              (fst (shot (mkDot 0 0) demo_board)) (mkDot 0 0)
              (snd (shot (mkDot 0 0) demo_board)) demo_board_ok) as [_ H].
  - reflexivity.
  - exact H.
Defined.

(** X12.  [begin] only empties the busy list; on a well-shaped board every
    in-bounds cell can then be fired at (the shot returns), including the
    cells of the vessels and the margins that placement had made busy. *)
Theorem begin_reopens (b : Board) :
  field_ok b ->
  busy (fst (begin b)) = [] /\ ships (fst (begin b)) = ships b
  /\ field (fst (begin b)) = field b /\ count (fst (begin b)) = count b
  /\ size (fst (begin b)) = size b
  /\ (forall d, in_bounds (size b) d ->
        exists b' r, shot d (fst (begin b)) = (b', Return r)).
Proof.
  intros Hok. repeat (split; [reflexivity|]).
  intros d Hd.
  destruct (shot_fired (fst (begin b)) d Hok Hd) as [b' [r [E _]]].
  - intros [].
  - exists b', r. exact E.
Qed.

Lemma begin_reopens_witness :
  exists b' r,
    shot (mkDot 0 0)
         (fst (begin (fst (add_ship demo_ship (Board_init 6 false)))))
    = (b', Return r).
Proof.
  destruct (begin_reopens (fst (add_ship demo_ship (Board_init 6 false))))
    as [_ [_ [_ [_ [_ H]]]]].
  - split; [reflexivity | repeat constructor].
  - apply H. unfold in_bounds. simpl. lia.
Defined.

(** ** The board built by [try_board] *)

Lemma Board_init_setup (n : Z) : setup_inv (Board_init n false).
Proof.
  split; [apply Board_init_placing|]. split; [reflexivity|].
  intros d [Hx Hy]. cbn [size Board_init] in Hx, Hy.
  unfold get_field. cbn [field ships Board_init existsb].
  rewrite getitem_in_range by (rewrite repeat_length; lia).
  rewrite nth_error_repeat by lia.
  rewrite getitem_in_range by (rewrite repeat_length; lia).
  rewrite nth_error_repeat by lia. reflexivity.
Qed.

Lemma add_ship_setup (b : Board) (s : Ship) (b' : Board) (r : Outcome unit) :
  setup_inv b -> 1 <= length s -> lives s = length s ->
  add_ship s b = (b', r) ->
  (b' = b /\ r = Raise BoardShipFailureException)
  \/ (r = Return tt /\ setup_inv b' /\ size b' = size b
      /\ ships b' = ships b ++ [s]).
Proof.
  intros [Hp [Hh Hshow]] Hlen Hfull H.
  destruct (add_ship_placing b s b' r Hp Hlen Hfull H)
    as [Hp' [[-> ->] | [Hships [Hsz ->]]]]; [left; auto|].
  right. split; [reflexivity|]. split; [|auto].
  split; [exact Hp'|].
  destruct (add_ship_paints b b' s (proj1 Hp) H) as [Hm1 [Hm2 _]].
  assert (Ep : placeable b s = true).
  { destruct (placeable b s) eqn:Ep; [reflexivity|].
    rewrite (add_ship_rejects s b Ep) in H. discriminate. }
  destruct (add_ship_ok s b (proj1 Hp) Ep) as [f' [_ E]].
  rewrite E in H. split.
  - inversion H; subst b'. exact Hh.
  - intros d Hd. rewrite Hsz in Hd. rewrite Hships, existsb_app.
    cbn [existsb]. rewrite orb_false_r.
    destruct (is_hit s d) eqn:Ehit.
    + rewrite orb_true_r. apply Hm1, is_hit_true, Ehit.
    + rewrite orb_false_r, (Hm2 d Hd) by (apply is_hit_false, Ehit).
      apply Hshow, Hd.
Qed.

Lemma try_attempts_setup (sz l : Z) (rnd : Rand) :
  1 <= l ->
  forall atts k b,
  setup_inv b ->
  match try_attempts sz l rnd atts k b with
  | Raise _ => False
  | Return None => True
  | Return (Some (b', k')) =>
      (setup_inv b' /\ size b' = size b
       /\ map length (ships b') = map length (ships b) ++ [l])
      \/ (b' = b /\ ~ In 1999 atts)
  end.
Proof.
  intros Hl atts. induction atts as [|a atts IH]; intros k b Hinv.
  - cbn [try_attempts]. right. auto.
  - cbn [try_attempts].
    match goal with |- context [add_ship ?s b] =>
      destruct (add_ship s b) as [b1 r] eqn:E;
      destruct (add_ship_setup b s b1 r Hinv Hl eq_refl E)
        as [[-> ->] | [-> [Hinv1 [Hsz Hships]]]]
    end.
    + destruct (a =? 1999) eqn:Ea; [exact I|]. apply Z.eqb_neq in Ea.
      specialize (IH (S (S (S k))) b Hinv).
      destruct (try_attempts sz l rnd atts (S (S (S k))) b)
        as [[[b' k']|]|e]; auto.
      destruct IH as [Hplaced | [-> Hno]]; [left; exact Hplaced|].
      right. split; [reflexivity|]. intros [?|?]; [lia | contradiction].
    + left. split; [exact Hinv1|]. split; [exact Hsz|].
      rewrite Hships, map_app. reflexivity.
Qed.

Lemma try_lens_setup (sz : Z) (rnd : Rand) :
  forall ls k b,
  (forall l, In l ls -> 1 <= l) ->
  setup_inv b ->
  match try_lens sz rnd ls k b with
  | Raise _ => False
  | Return None => True
  | Return (Some (b', k')) =>
      setup_inv b' /\ size b' = size b
      /\ map length (ships b') = map length (ships b) ++ ls
  end.
Proof.
  intros ls. induction ls as [|l ls IH]; intros k b Hls Hinv.
  - cbn [try_lens]. rewrite app_nil_r. auto.
  - cbn [try_lens].
    pose proof (try_attempts_setup sz l rnd (Hls l (or_introl eq_refl))
                  (range 0 2000) k b Hinv) as Ha.
    destruct (try_attempts sz l rnd (range 0 2000) k b) as [[[b1 k1]|]|e];
      [|exact I|exact Ha].
    destruct Ha as [[Hinv1 [Hsz1 Hlen1]] | [_ Hno]].
    2:{ exfalso. apply Hno, range_In. lia. }
    specialize (IH k1 b1 (fun l' Hl' => Hls l' (or_intror Hl')) Hinv1).
    destruct (try_lens sz rnd ls k1 b1) as [[[b2 k2]|]|e]; auto.
    destruct IH as [Hinv2 [Hsz2 Hlen2]].
    split; [exact Hinv2|]. split; [congruence|].
    rewrite Hlen2, Hlen1, <- app_assoc. reflexivity.
Qed.

Lemma lens_positive : forall l, In l lens -> 1 <= l.
Proof.
  unfold lens. simpl. intros l Hl.
  repeat (destruct Hl as [<-|Hl]; [lia|]). destruct Hl.
Qed.

(** The board [try_board] returns, when it returns one. *)
Lemma try_board_setup (sz : Z) (rnd : Rand) (k : nat) (b : Board) (k' : nat) :
  try_board sz rnd k = Return (Some (b, k')) ->
  size b = sz /\ map length (ships b) = lens
  /\ busy b = [] /\ count b = 0 /\ is_hidden b = false
  /\ field_ok b /\ fleet_ok sz (ships b)
  /\ (forall s, In s (ships b) -> lives s = length s)
  /\ shows_fleet b.
Proof.
  unfold try_board. intros E.
  pose proof (try_lens_setup sz rnd lens k (Board_init sz false) lens_positive
                (Board_init_setup sz)) as H.
  destruct (try_lens sz rnd lens k (Board_init sz false)) as [[[b0 k0]|]|e];
    try discriminate E.
  injection E as <- <-.
  destruct H as [[Hp [Hh Hshow]] [Hsz Hlen]].
  destruct Hp as [Hok [Hc [Hfleet [Hl _]]]].
  cbn [begin fst size ships busy count is_hidden].
  cbn [size Board_init] in Hsz. rewrite Hsz in Hfleet.
  repeat (split; [first [assumption | reflexivity]|]).
  exact Hshow.
Qed.

(** X13.  For a board side of at least 1 (so that every [randint] call
    has a non-empty range), [try_board] does not raise: it returns a board
    or gives up with [None].  When it returns a board, the board has the
    requested side and holds exactly the vessels of lengths 3, 2, 2, 1, 1,
    1, 1 in that order, all with full lives, inside the board and pairwise
    not touching; nothing is busy, nothing is sunk, the board is not
    hidden, and its field shows the ship marker exactly on the cells of
    the vessels. *)
Theorem try_board_fleet (sz : Z) (rnd : Rand) (k : nat) :
  1 <= sz ->
  match try_board sz rnd k with
  | Raise _ => False
  | Return None => True
  | Return (Some (b, _)) =>
      size b = sz /\ map length (ships b) = lens
      /\ busy b = [] /\ count b = 0 /\ is_hidden b = false
      /\ field_ok b /\ fleet_ok sz (ships b)
      /\ (forall s, In s (ships b) -> lives s = length s)
      /\ shows_fleet b
  end.
Proof.
  intros _.
  destruct (try_board sz rnd k) as [[[b k']|]|e] eqn:E.
  - exact (try_board_setup sz rnd k b k' E).
  - exact I.
  - unfold try_board in E.
    pose proof (try_lens_setup sz rnd lens k (Board_init sz false)
                  lens_positive (Board_init_setup sz)) as H.
    destruct (try_lens sz rnd lens k (Board_init sz false)) as [[[b0 k0]|]|e0];
      [discriminate E | discriminate E | exact H].
Qed.

Lemma try_board_fleet_witness :
  size demo_game = 6 /\ map length (ships demo_game) = [3; 2; 2; 1; 1; 1; 1]
  /\ busy demo_game = [] /\ count demo_game = 0.
Proof.
  assert (Hsz : 1 <= game_size) by (unfold game_size; lia).
  pose proof (try_board_fleet game_size demo_rnd 0 Hsz) as H.
  rewrite demo_game_try_board in H.
  destruct H as [H1 [H2 [H3 [H4 _]]]]. auto.
Defined.

(** ** The win condition *)

Lemma sunk_ships_all (l : list Ship) :
  (forall s, In s l -> lives s = 0) -> sunk_ships l = Z.of_nat (List.length l).
Proof.
  induction l as [|h l IH]; intros H; [reflexivity|].
  rewrite sunk_ships_cons, IH by (intros s Hs; apply H; right; exact Hs).
  rewrite (H h (or_introl eq_refl)). cbn [List.length Z.eqb]. lia.
Qed.

Lemma sunk_ships_full (l : list Ship) :
  sunk_ships l = Z.of_nat (List.length l) <-> forall s, In s l -> lives s = 0.
Proof.
  split; [|apply sunk_ships_all].
  intros H s Hs. destruct (Z.eq_dec (lives s) 0) as [E|E]; [exact E|].
  exfalso. revert H. induction l as [|h l IH]; [destruct Hs|].
  rewrite sunk_ships_cons. pose proof (sunk_ships_bounds l) as Hb.
  cbn [List.length]. destruct Hs as [->|Hs].
  - replace (lives s =? 0) with false by (symmetry; apply Z.eqb_neq, E). lia.
  - intros H. apply (IH Hs). destruct (lives h =? 0); lia.
Qed.

Lemma after_shots_playing (ds : list Dot) :
  forall b, playing_inv b ->
  playing_inv (after_shots ds b)
  /\ map length (ships (after_shots ds b)) = map length (ships b).
Proof.
  induction ds as [|d ds IH]; intros b Hinv; [auto|].
  cbn [after_shots fold_left]. fold (after_shots ds (fst (shot d b))).
  destruct (shot d b) as [b1 r] eqn:E. cbn [fst].
  destruct (IH b1 (shot_inv b d b1 r Hinv E)) as [H1 H2].
  split; [exact H1|]. rewrite H2.
  destruct (shot_cases b d b1 r (proj1 Hinv) E) as [[-> _] | [_ [_ [rep [_ F]]]]];
    [reflexivity | exact (fired_lengths _ _ _ _ F)].
Qed.

(** X14.  On a board built by [try_board], after any shots, the sunk
    counter is between 0 and 7, and it is 7 exactly when every one of the
    seven vessels has no life left. *)
Theorem seven_iff_all_sunk (sz : Z) (rnd : Rand) (k : nat) (b : Board)
        (k' : nat) (ds : list Dot) :
  try_board sz rnd k = Return (Some (b, k')) ->
  let b' := after_shots ds b in
  0 <= count b' <= 7
  /\ (count b' = 7 <-> forall s, In s (ships b') -> lives s = 0).
Proof.
  intros H. cbv zeta.
  pose proof (try_board_setup sz rnd k b k' H) as Hf.
  destruct Hf as [Hsz [Hlen [Hbusy [Hc [_ [Hok [Hfleet [Hl _]]]]]]]].
  assert (Hinv : playing_inv b).
  { split; [exact Hok|]. rewrite Hsz. split; [exact Hfleet|]. split.
    - intros s Hs. rewrite Hbusy, free_cells_nil; [apply Hl, Hs|].
      destruct Hfleet as [_ Hall]. destruct (Hall s Hs). lia.
    - rewrite Hc. symmetry. apply sunk_ships_none. intros s Hs.
      rewrite (Hl s Hs). destruct Hfleet as [_ Hall]. destruct (Hall s Hs). lia. }
  destruct (after_shots_playing ds b Hinv) as [[_ [_ [_ Hcount]]] Hlens].
  rewrite Hlen in Hlens.
  assert (H7 : List.length (ships (after_shots ds b)) = 7%nat).
  { rewrite <- (length_map length), Hlens. reflexivity. }
  rewrite Hcount. pose proof (sunk_ships_bounds (ships (after_shots ds b))) as Hb.
  rewrite H7 in Hb. split; [lia|].
  rewrite <- sunk_ships_full, H7. reflexivity.
Qed.

Lemma seven_iff_all_sunk_witness :
  0 <= count (after_shots [mkDot 0 0; mkDot 4 0] demo_game) <= 7.
Proof.
  apply (seven_iff_all_sunk game_size demo_rnd 0 demo_game 21
           [mkDot 0 0; mkDot 4 0] demo_game_try_board).
Defined.

(** ** More on the AI's candidates *)

Lemma grid_NoDup (rows cols : list Z) :
  NoDup rows -> NoDup cols ->
  NoDup (flat_map (fun i => map (fun j => mkDot i j) cols) rows).
Proof.
  intros Hr Hc. induction Hr as [|i rows Hi Hr IH]; [constructor|].
  cbn [flat_map]. apply NoDup_app; [|exact IH|].
  - clear -Hc. induction Hc as [|j cols Hj Hc IH]; [constructor|].
    cbn [map]. constructor; [|exact IH].
    rewrite in_map_iff. intros [j' [E Hj']]. inversion E; subst. contradiction.
  - intros d Hd Hd'. apply in_map_iff in Hd. destruct Hd as [j [<- _]].
    apply in_flat_map in Hd'. destruct Hd' as [i' [Hi' Hd']].
    apply in_map_iff in Hd'. destruct Hd' as [j' [E _]].
    inversion E; subst. contradiction.
Qed.

Lemma all_cells_NoDup : NoDup all_cells.
Proof. apply grid_NoDup; apply range_NoDup. Qed.

Lemma diagonals_NoDup : NoDup diagonals.
Proof.
  repeat (constructor;
          [intros H; cbn in H;
           repeat (destruct H as [H|H]; [discriminate H|]); exact H|]).
  constructor.
Qed.

Lemma offset_diagonals_NoDup : NoDup offset_diagonals.
Proof.
  repeat (constructor;
          [intros H; cbn in H;
           repeat (destruct H as [H|H]; [discriminate H|]); exact H|]).
  constructor.
Qed.

Lemma not_busy_NoDup (enemy : Board) (l : list Dot) :
  NoDup l -> NoDup (not_busy enemy l).
Proof. apply NoDup_filter. Qed.

Lemma ai_brain_free (prev : list Dot) (enemy : Board) (d : Dot) :
  In d (ai_brain prev enemy) -> ~ In d (busy enemy).
Proof.
  intros Hd.
  assert (Hnb : forall l, In d (not_busy enemy l) -> ~ In d (busy enemy))
    by (intros l Hl; apply not_busy_In in Hl; tauto).
  destruct prev as [|p0 [|p1 [|p2 prev]]]; cbn [ai_brain] in Hd;
    try (eapply Hnb; exact Hd);
    destruct (not_busy enemy diagonals) eqn:E1; cbn [is_empty] in Hd;
    try (rewrite <- E1 in Hd; eapply Hnb; exact Hd);
    destruct (not_busy enemy offset_diagonals) eqn:E2; cbn [is_empty] in Hd;
    try (rewrite <- E2 in Hd; eapply Hnb; exact Hd);
    eapply Hnb; exact Hd.
Qed.

(** X15.  Whatever [prev] and the enemy board are, [ai_brain] proposes no
    cell twice and no busy cell, so a shot at a candidate never raises the
    busy-cell exception. *)
Theorem ai_brain_candidates (prev : list Dot) (enemy : Board) :
  NoDup (ai_brain prev enemy)
  /\ (forall d, In d (ai_brain prev enemy) ->
        ~ In d (busy enemy)
        /\ snd (shot d enemy) <> Raise BoardBusyException).
Proof.
  pose proof (ai_brain_free prev enemy) as Hfree.
  split.
  - assert (Hs : NoDup (let shot_set := not_busy enemy diagonals in
                        if is_empty shot_set then
                          let shot_set := not_busy enemy offset_diagonals in
                          if is_empty shot_set then not_busy enemy all_cells
                          else shot_set
                        else shot_set)).
    { cbv zeta.
      destruct (is_empty (not_busy enemy diagonals));
        [|apply not_busy_NoDup, diagonals_NoDup].
      destruct (is_empty (not_busy enemy offset_diagonals));
        [apply not_busy_NoDup, all_cells_NoDup
        |apply not_busy_NoDup, offset_diagonals_NoDup]. }
    destruct prev as [|p0 [|p1 [|p2 prev]]]; cbn [ai_brain]; try exact Hs.
    + apply not_busy_NoDup.
      repeat (constructor;
              [intros H; cbn in H;
               repeat (destruct H as [H|H];
                       [apply (f_equal (fun d => (x d, y d))) in H;
                        cbn in H; inversion H; lia|]); exact H|]).
      constructor.
    + apply not_busy_NoDup. destruct (x p0 =? x p1);
        (constructor; [|constructor; [intros []|constructor]]);
        intros [H|[]]; apply (f_equal (fun d => (x d, y d))) in H;
        cbn [x y] in H; inversion H; lia.
  - intros d Hd. split; [apply Hfree, Hd|].
    destruct (shot d enemy) as [b' [rep|e]] eqn:E; [discriminate|].
    cbn [snd]. intros He. inversion He; subst.
    apply shot_raise_inv in E.
    destruct E as [[E _] | [[_ [_ [E _]]] | [E _]]]; try discriminate.
    apply contains_In in E. exact (Hfree d Hd E).
Qed.

Lemma search_candidates_in_bounds (enemy : Board) (d : Dot) :
  In d (ai_brain [] enemy) -> in_bounds 6 d.
Proof.
  intros Hd. cbn [ai_brain] in Hd.
  destruct (not_busy enemy diagonals) eqn:E1; cbn [is_empty] in Hd.
  - destruct (not_busy enemy offset_diagonals) eqn:E2; cbn [is_empty] in Hd.
    + apply not_busy_In in Hd. apply all_cells_In, Hd.
    + rewrite <- E2 in Hd. apply not_busy_In in Hd.
      destruct Hd as [Hd _]. apply offset_diagonals_In in Hd. apply Hd.
  - rewrite <- E1 in Hd. apply not_busy_In in Hd.
    destruct Hd as [Hd _]. apply diagonals_In in Hd. apply Hd.
Qed.

(** X16.  In the search phase (empty [prev]) of a game in progress the
    cell the AI picks is always a legal target: [move] completes at its
    first attempt, with one random draw and no retry. *)
Theorem search_move_first_try (b : Board) :
  ai_play b [] -> count b <> 7 ->
  forall fuel rnd k,
  exists b' prev' repeat,
    AI_move (S fuel) rnd k [] b = Moved b' prev' repeat (S k).
Proof.
  intros Hplay Hcount fuel rnd k.
  pose proof (ai_play_inv b [] Hplay) as Hinv.
  pose proof (candidates_nonempty b [] Hinv Hcount) as Hne.
  destruct (choice_Some (ai_brain [] b) (rnd k) Hne) as [d Ed].
  pose proof (choice_In _ _ _ Ed) as Hd.
  destruct Hinv as [[Hok _] [Hsz _]].
  assert (Hin : in_bounds (size b) d).
  { rewrite Hsz. apply (search_candidates_in_bounds b d Hd). }
  pose proof (ai_brain_free [] b d Hd) as Hfree.
  destruct (shot_fired b d Hok Hin Hfree) as [b' [rep [E _]]].
  unfold AI_move. cbn [move_loop]. unfold AI_ask. rewrite Ed, E.
  eexists. eexists. eexists. reflexivity.
Qed.

Lemma search_move_first_try_witness :
  exists b' prev' repeat,
    AI_move 1 (fun _ => 7) 0 [] demo_game = Moved b' prev' repeat 1%nat.
Proof.
  apply (search_move_first_try demo_game).
  - exact (ai_play_start demo_rnd 0 demo_game 21 demo_game_try_board).
  - vm_compute. discriminate.
Defined.

Lemma move_loop_tidy (rnd : Rand) (c : Z) (prev : list Dot) (b : Board)
      (b' : Board) (prev' : list Dot) (rep : bool) (k' : nat) :
  tidy b ->
  forall fuel k,
  move_loop fuel rnd k c prev b = Moved b' prev' rep k' -> tidy b'.
Proof.
  intros Ht fuel. induction fuel as [|fuel IH]; intros k H; [discriminate|].
  cbn [move_loop] in H.
  destruct (AI_ask rnd k prev b) as [d|]; [|discriminate].
  destruct (shot d b) as [b1 r] eqn:Es.
  pose proof (tidy_shot b d b1 r Ht Es) as [Ht1 _].
  destruct (shot_cases b d b1 r (proj1 Ht) Es) as [[-> Hr] | [_ [_ [rep' [-> _]]]]].
  - destruct Hr as [-> | ->]; apply (IH _ H).
  - inversion H; subst. exact Ht1.
Qed.

Lemma ai_play_tidy (b : Board) (prev : list Dot) : ai_play b prev -> tidy b.
Proof.
  intros H. induction H as [rnd k b k' H | b prev fuel rnd k b' prev' rep k' _ IH _ H].
  - pose proof (try_board_setup game_size rnd k b k' H) as Hf.
    destruct Hf as [_ [_ [Hbusy [_ [_ [Hok _]]]]]].
    split; [exact Hok|]. rewrite Hbusy. split; [constructor | intros d []].
  - exact (move_loop_tidy rnd (count b) prev b b' prev' rep k' IH fuel k H).
Qed.

Lemma move_loop_stuck (rnd : Rand) (c : Z) (prev : list Dot) (b : Board) :
  forall fuel k,
  (forall j, exists d, AI_ask rnd (k + j) prev b = Some d
                       /\ ~ in_bounds (size b) d) ->
  move_loop fuel rnd k c prev b = OutOfFuel.
Proof.
  intros fuel. induction fuel as [|fuel IH]; intros k H; [reflexivity|].
  cbn [move_loop]. destruct (H O) as [d [Ed Hout]].
  rewrite Nat.add_0_r in Ed. rewrite Ed.
  rewrite (shot_out b d) by (apply is_out_true, Hout).
  apply IH. intros j. destruct (H (S j)) as [d' Hd'].
  exists d'. replace (S k + j)%nat with (k + S j)%nat by lia. exact Hd'.
Qed.

(** X17.  The hunting phases do not filter by the bounds of the grid.  In
    a game in progress, every orthogonal neighbour of the single hit that
    lies outside the grid is a candidate; a shot at a candidate outside
    the grid raises the out-of-bounds exception and leaves the board as it
    was; and as long as the random source keeps picking such candidates
    [move] keeps retrying (it runs out of any fuel). *)
Theorem hunt_may_leave_grid (b : Board) (prev : list Dot) :
  ai_play b prev ->
  (forall p d, prev = [p] -> adjacent d p -> ~ in_bounds (size b) d ->
               In d (ai_brain prev b))
  /\ (forall d, In d (ai_brain prev b) -> ~ in_bounds (size b) d ->
                shot d b = (b, Raise BoardOutException))
  /\ (forall rnd k,
        (forall j, exists d, AI_ask rnd (k + j) prev b = Some d
                             /\ ~ in_bounds (size b) d) ->
        forall fuel, AI_move fuel rnd k prev b = OutOfFuel).
Proof.
  intros Hplay. split; [|split].
  - intros p d -> Hadj Hout. apply cross_In. split; [exact Hadj|].
    intros Hb. apply Hout.
    destruct (ai_play_tidy _ _ Hplay) as [_ [_ Hin]]. apply Hin, Hb.
  - intros d _ Hout. apply shot_out, is_out_true, Hout.
  - intros rnd k H fuel. apply move_loop_stuck, H.
Qed.

Lemma hunt_may_leave_grid_witness :
  In (mkDot (-1) 0) (ai_brain [mkDot 0 0] demo_game_hit)
  /\ forall fuel, AI_move fuel (fun _ => 1) 0 [mkDot 0 0] demo_game_hit
                  = OutOfFuel.
Proof.
  destruct (hunt_may_leave_grid demo_game_hit [mkDot 0 0]) as [H1 [_ H3]].
  - apply (ai_play_move demo_game [] 1%nat (fun _ => 0) 0%nat
                        demo_game_hit [mkDot 0 0] true 1%nat).
    + exact (ai_play_start demo_rnd 0 demo_game 21 demo_game_try_board).
    + vm_compute. discriminate.
    + vm_compute. reflexivity.
  - split.
    + apply (H1 (mkDot 0 0)); [reflexivity | reflexivity |].
      intros [Hx _]. cbn [x] in Hx. lia.
    + apply H3. intros j. exists (mkDot (-1) 0).
      split; [vm_compute; reflexivity|].
      intros [Hx _]. cbn [x] in Hx. lia.
Defined.

(** X18.  In a game in progress [prev] never holds more than two cells.
    When it is empty every enemy vessel is untouched or sunk; otherwise its
    cells are exactly the busy cells of one enemy vessel that is still
    afloat, and two cells in it are orthogonal neighbours. *)
Theorem prev_tracks_wounded_vessel (b : Board) (prev : list Dot) :
  ai_play b prev ->
  (List.length prev <= 2)%nat
  /\ (prev = [] ->
      forall s, In s (ships b) -> lives s = length s \/ lives s = 0)
  /\ (prev <> [] ->
      exists s, In s (ships b) /\ 0 < lives s
                /\ lives s = length s - Z.of_nat (List.length prev)
                /\ forall c, In c prev <-> In c (dots s) /\ In c (busy b))
  /\ (forall p0 p1, prev = [p0; p1] -> adjacent p0 p1).
Proof.
  intros Hplay. destruct (ai_play_inv b prev Hplay) as [_ [_ [Hlens Hhunt]]].
  destruct prev as [|p prev].
  - split; [cbn; lia|]. split; [intros _; exact Hhunt|].
    split; [congruence | discriminate].
  - destruct Hhunt as [s Hh].
    pose proof (hunting_length b _ s Hlens Hh) as Hlen.
    destruct Hh as [Hs [Hpos [Hl [Hiff [_ Hadj]]]]].
    split; [exact Hlen|]. split; [discriminate|].
    split; [|exact Hadj]. intros _. exists s. auto.
Qed.

Lemma prev_tracks_wounded_vessel_witness :
  exists s, In s (ships demo_game_hit) /\ 0 < lives s
            /\ lives s = length s - 1
            /\ forall c, In c [mkDot 0 0] <->
                         In c (dots s) /\ In c (busy demo_game_hit).
Proof.
  destruct (prev_tracks_wounded_vessel demo_game_hit [mkDot 0 0])
    as [_ [_ [H _]]].
  - apply (ai_play_move demo_game [] 1%nat (fun _ => 0) 0%nat
                        demo_game_hit [mkDot 0 0] true 1%nat).
    + exact (ai_play_start demo_rnd 0 demo_game 21 demo_game_try_board).
    + vm_compute. discriminate.
    + vm_compute. reflexivity.
  - apply H. discriminate.
Defined.

(** ** What the search patterns cover *)

Lemma dots_prefix (s : Ship) (len : Z) (d : Dot) :
  len <= length s ->
  In d (dots (Ship_init (start s) (horizontal s) len)) -> In d (dots s).
Proof.
  intros Hlen Hd. apply dots_In in Hd. destruct Hd as [i [Hi E]].
  cbn [start horizontal length Ship_init] in Hi, E.
  apply dots_In. exists i. split; [lia | exact E].
Qed.

Lemma pattern_covers (pattern : list Dot) (len : Z) :
  1 <= len -> forallb (covered_from pattern len) all_cells = true ->
  forall s, fits 6 s -> len <= length s ->
  exists d, In d (dots s) /\ In d pattern.
Proof.
  intros Hlen Hall s Hfit Hs.
  assert (Hstart : in_bounds 6 (start s)).
  { apply Hfit, dots_In. exists 0. split; [lia|].
    destruct (horizontal s), (start s); cbn [x y]; f_equal; lia. }
  pose proof (all_cells_forall _ Hall (start s) Hstart) as Hc.
  unfold covered_from in Hc. rewrite forallb_forall in Hc.
  specialize (Hc (horizontal s)).
  assert (Hh : In (horizontal s) [true; false])
    by (destruct (horizontal s); simpl; auto).
  specialize (Hc Hh).
  replace (forallb (contains all_cells)
             (dots (Ship_init (start s) (horizontal s) len))) with true in Hc.
  - cbn [implb] in Hc. apply existsb_exists in Hc. destruct Hc as [d [Hd Hp]].
    exists d. split; [apply (dots_prefix s len d Hs Hd)|].
    apply contains_In, Hp.
  - symmetry. apply forallb_forall. intros d Hd.
    apply contains_In, all_cells_In, Hfit, (dots_prefix s len d Hs Hd).
Qed.

(** X19.  The search patterns of [ai_brain] on the 6x6 board: every vessel
    of length at least 3 has a cell on the primary diagonals, and every
    vessel of length at least 2 has a cell on the primary or the offset
    diagonals. *)
Theorem search_patterns_cover (s : Ship) :
  fits 6 s ->
  (3 <= length s -> exists d, In d (dots s) /\ In d diagonals)
  /\ (2 <= length s ->
      exists d, In d (dots s) /\ In d (diagonals ++ offset_diagonals)).
Proof.
  intros Hfit. split; intros Hlen.
  - apply (pattern_covers diagonals 3); [lia | reflexivity | exact Hfit | exact Hlen].
  - apply (pattern_covers (diagonals ++ offset_diagonals) 2);
      [lia | reflexivity | exact Hfit | exact Hlen].
Qed.

Lemma search_patterns_cover_witness :
  exists d, In d (dots demo_ship) /\ In d (diagonals ++ offset_diagonals).
Proof.
  destruct (search_patterns_cover demo_ship) as [_ H].
  - intros d Hd. simpl in Hd. destruct Hd as [<-|[<-|[]]];
      unfold in_bounds; simpl; lia.
  - apply H. simpl. lia.
Defined.

(** X20.  In a game in progress with empty [prev], when no cell of the
    primary and of the offset diagonals is left (so that [ai_brain] falls
    back to all remaining cells), every enemy vessel still afloat is a
    single-cell vessel. *)
Theorem last_tier_single_cells (b : Board) :
  ai_play b [] ->
  not_busy b diagonals = [] -> not_busy b offset_diagonals = [] ->
  forall s, In s (ships b) -> lives s <> 0 -> length s = 1.
Proof.
  intros Hplay H1 H2 s Hs Hl.
  destruct (ai_play_inv b [] Hplay) as [Hinv [Hsz [Hlens Hhunt]]].
  pose proof (lens_lengths _ _ Hlens Hs) as Hlen.
  destruct (Z.eq_dec (length s) 1) as [E|E]; [exact E|]. exfalso.
  destruct Hinv as [_ [[_ Hall] [Hlives _]]].
  assert (Hfit : fits 6 s).
  { intros d Hd. change 6 with game_size. rewrite <- Hsz.
    apply (Hall s Hs), Hd. }
  destruct (pattern_covers (diagonals ++ offset_diagonals) 2
              ltac:(lia) eq_refl s Hfit ltac:(lia)) as [d [Hd Hp]].
  assert (Hfree : ~ In d (busy b)).
  { destruct (Hhunt s Hs) as [Hfull|H0]; [|contradiction].
    rewrite (Hlives s Hs) in Hfull.
    apply (free_cells_full (busy b) s ltac:(lia) Hfull d Hd). }
  apply in_app_or in Hp. destruct Hp as [Hp|Hp].
  - assert (Hin : In d (not_busy b diagonals)) by (apply not_busy_In; auto).
    rewrite H1 in Hin. destruct Hin.
  - assert (Hin : In d (not_busy b offset_diagonals))
      by (apply not_busy_In; auto).
    rewrite H2 in Hin. destruct Hin.
Qed.

Lemma ai_moves_play (n fuel : nat) (rnd : Rand) :
  forall k prev b b' prev',
  ai_play b prev -> ai_moves n fuel rnd k prev b = Some (b', prev') ->
  ai_play b' prev'.
Proof.
  induction n as [|n IH]; intros k prev b b' prev' Hplay H.
  - inversion H; subst. exact Hplay.
  - cbn [ai_moves] in H. destruct (count b =? 7) eqn:Ec; [discriminate|].
    apply Z.eqb_neq in Ec.
    destruct (AI_move fuel rnd k prev b) as [b1 prev1 rep k1| |] eqn:Em;
      try discriminate.
    apply (IH k1 prev1 b1); [|exact H].
    exact (ai_play_move b prev fuel rnd k b1 prev1 rep k1 Hplay Ec Em).
Qed.

Lemma last_tier_single_cells_witness :
  Forall (fun s => lives s <> 0 -> length s = 1) (ships demo_game_late).
Proof.
  apply Forall_forall.
  apply (last_tier_single_cells demo_game_late).
  - apply (ai_moves_play 17 10 (fun k => Z.of_nat k) 0 [] demo_game).
    + exact (ai_play_start demo_rnd 0 demo_game 21 demo_game_try_board).
    + vm_compute. reflexivity.
  - vm_compute. reflexivity.
  - vm_compute. reflexivity.
Defined.

(** ** The game loop *)








(** ** The text of a board *)

Lemma digits_plain (d : Decimal.uint) : ~ In ship_marker (digits d).
Proof.
  induction d; cbn [digits]; intros H;
    try (destruct H as [H|H]; [discriminate H | exact (IHd H)]).
  destruct H.
Qed.

Lemma format_int_plain (i : Z) : ~ In ship_marker (format_int i).
Proof.
  unfold format_int. destruct (Z.to_int i) as [d|d].
  - apply digits_plain.
  - intros [H|H]; [discriminate H | exact (digits_plain d H)].
Qed.

Lemma symbol_marker (c : Cell) : In ship_marker (symbol c) <-> c = CellShip.
Proof.
  destruct c; cbn; split; intros H;
    try discriminate; try (destruct H as [H|[]]; discriminate H); auto.
Qed.

Lemma join_marker (row : list Cell) :
  In ship_marker (join (lit " | ") (map symbol row)) <-> In CellShip row.
Proof.
  induction row as [|c row IH]; [simpl; tauto|].
  destruct row as [|c' row].
  - cbn [map join]. rewrite symbol_marker. simpl. split; [auto|].
    intros [H|[]]. auto.
  - cbn [map join] in *. rewrite !in_app_iff, symbol_marker, IH.
    split.
    + intros [H|[H|H]]; [left; auto | | right; exact H].
      cbn in H. repeat (destruct H as [H|H]; [discriminate H|]). destruct H.
    + intros [H|H]; [left; auto | right; right; exact H].
Qed.

Lemma str_row_marker (res : pystr) (ir : Z * list Cell) :
  In ship_marker (str_row res ir) <-> In ship_marker res \/ In CellShip (snd ir).
Proof.
  unfold str_row. rewrite !in_app_iff, join_marker.
  pose proof (format_int_plain (fst ir + 1)) as Hf.
  split.
  - intros [H|[H|[H|[H|[H|[H|H]]]]]]; auto; exfalso;
      try (exact (Hf H));
      cbn in H; repeat (destruct H as [H|H]; [discriminate H|]); destruct H.
  - intros [H|H]; auto 10.
Qed.

Lemma fold_str_row_marker (irs : list (Z * list Cell)) :
  forall res,
  In ship_marker (fold_left str_row irs res) <->
  In ship_marker res \/ exists ir, In ir irs /\ In CellShip (snd ir).
Proof.
  induction irs as [|ir irs IH]; intros res; cbn [fold_left].
  - split; [auto|]. intros [H|[ir [[] _]]]. exact H.
  - rewrite IH, str_row_marker. split.
    + intros [[H|H]|[ir' [H1 H2]]]; [left; exact H | |].
      * right. exists ir. split; [left; reflexivity | exact H].
      * right. exists ir'. split; [right; exact H1 | exact H2].
    + intros [H|[ir' [[<-|H1] H2]]]; [left; left; exact H | left; right; exact H2 |].
      right. exists ir'. auto.
Qed.

Lemma enumerate_snd {A} (l : list A) : map snd (enumerate l) = l.
Proof.
  unfold enumerate. generalize O as a.
  induction l as [|h l IH]; intros a; [reflexivity|].
  cbn [List.length seq map combine snd]. f_equal. apply IH.
Qed.

Lemma header_plain (n : Z) :
  ~ In ship_marker
      (lit "    "
       ++ List.concat (map (fun i => lit " " ++ format_int i ++ lit " |")
                           (range 1 (n + 1)))).
Proof.
  rewrite in_app_iff. intros [H|H].
  - cbn in H. repeat (destruct H as [H|H]; [discriminate H|]). destruct H.
  - apply in_concat in H. destruct H as [s [Hs H]].
    apply in_map_iff in Hs. destruct Hs as [i [<- _]].
    rewrite !in_app_iff in H. destruct H as [H|[H|H]].
    + cbn in H. destruct H as [H|[]]. discriminate H.
    + exact (format_int_plain i H).
    + cbn in H. repeat (destruct H as [H|H]; [discriminate H|]). destruct H.
Qed.

Lemma Board_str_unfold (b : Board) :
  Board_str b =
  let res :=
    fold_left str_row (enumerate (field b))
      (lit "    "
       ++ List.concat (map (fun i => lit " " ++ format_int i ++ lit " |")
                           (range 1 (size b + 1)))) ++ [10%N] in
  if is_hidden b then replace_char ship_marker 79%N res else res.
Proof. reflexivity. Qed.

(** X22.  The text of a board holds a ship marker exactly when the board
    is not hidden and some cell of its field holds the ship marker. *)
Theorem Board_str_shows_ships (b : Board) :
  In ship_marker (Board_str b) <->
  is_hidden b = false /\ exists row, In row (field b) /\ In CellShip row.
Proof.
  rewrite Board_str_unfold. cbv zeta.
  assert (Hplain :
    In ship_marker
       (fold_left str_row (enumerate (field b))
          (lit "    "
           ++ List.concat (map (fun i => lit " " ++ format_int i ++ lit " |")
                               (range 1 (size b + 1)))) ++ [10%N])
    <-> exists row, In row (field b) /\ In CellShip row).
  { rewrite in_app_iff, fold_str_row_marker. split.
    - intros [[H|[ir [H1 H2]]]|H].
      + exfalso. exact (header_plain _ H).
      + exists (snd ir). split; [|exact H2].
        rewrite <- (enumerate_snd (field b)). apply in_map, H1.
      + destruct H as [H|[]]. discriminate H.
    - intros [row [H1 H2]]. left. right.
      rewrite <- (enumerate_snd (field b)) in H1.
      apply in_map_iff in H1. destruct H1 as [ir [<- H1]]. exists ir. auto. }
  destruct (is_hidden b).
  - split; [|intros [H _]; discriminate H].
    intros H. exfalso. unfold replace_char in H.
    apply in_map_iff in H. destruct H as [c [H _]].
    destruct (N.eqb c ship_marker) eqn:E; [discriminate H|].
    apply N.eqb_neq in E. congruence.
  - rewrite Hplain. tauto.
Qed.

Lemma replace_char_plain (s : pystr) (new : N) :
  ~ In ship_marker s -> replace_char ship_marker new s = s.
Proof.
  intros H. unfold replace_char. rewrite <- (map_id s) at 2.
  apply map_ext_in. intros c Hc.
  destruct (N.eqb c ship_marker) eqn:E; [|reflexivity].
  apply N.eqb_eq in E. subst. contradiction.
Qed.

Lemma replace_char_app (old new : N) (s t : pystr) :
  replace_char old new (s ++ t) = replace_char old new s ++ replace_char old new t.
Proof. apply map_app. Qed.

Lemma replace_symbol (c : Cell) :
  replace_char ship_marker 79%N (symbol c) = symbol (hide_cell c).
Proof. destruct c; reflexivity. Qed.

Lemma replace_join (row : list Cell) :
  replace_char ship_marker 79%N (join (lit " | ") (map symbol row))
  = join (lit " | ") (map symbol (map hide_cell row)).
Proof.
  induction row as [|c row IH]; [reflexivity|].
  destruct row as [|c' row].
  - cbn [map join]. apply replace_symbol.
  - cbn [map join] in *. rewrite !replace_char_app, replace_symbol, IH.
    reflexivity.
Qed.

Lemma replace_str_row (res : pystr) (ir : Z * list Cell) :
  replace_char ship_marker 79%N (str_row res ir)
  = str_row (replace_char ship_marker 79%N res)
            (fst ir, map hide_cell (snd ir)).
Proof.
  unfold str_row. cbn [fst snd].
  rewrite !replace_char_app, replace_join.
  rewrite (replace_char_plain (format_int (fst ir + 1)))
    by apply format_int_plain.
  reflexivity.
Qed.

Lemma replace_fold_str_row (irs : list (Z * list Cell)) :
  forall res,
  replace_char ship_marker 79%N (fold_left str_row irs res)
  = fold_left str_row (map (fun ir => (fst ir, map hide_cell (snd ir))) irs)
              (replace_char ship_marker 79%N res).
Proof.
  induction irs as [|ir irs IH]; intros res; [reflexivity|].
  cbn [fold_left map]. rewrite IH, replace_str_row. reflexivity.
Qed.

Lemma enumerate_map {A B} (g : A -> B) (l : list A) :
  enumerate (map g l) = map (fun ir => (fst ir, g (snd ir))) (enumerate l).
Proof.
  unfold enumerate. rewrite length_map. generalize O as a.
  induction l as [|h l IH]; intros a; [reflexivity|].
  cbn [List.length seq map combine fst snd]. f_equal. apply IH.
Qed.

(** X23.  The text of a hidden board is exactly the text of the same
    board, not hidden, with every ship cell of the field replaced by an
    untouched cell: hits, misses and margins show, vessels do not. *)
Theorem Board_str_hidden (b : Board) :
  is_hidden b = true -> Board_str b = Board_str (hidden_view b).
Proof.
  intros Hh. rewrite !Board_str_unfold. cbv zeta.
  rewrite Hh. cbn [hidden_view is_hidden field size].
  rewrite replace_char_app, replace_fold_str_row, enumerate_map.
  rewrite (replace_char_plain _ _ (header_plain (size b))).
  reflexivity.
Qed.

Lemma Board_str_hidden_witness :
  Board_str (ai_board (Game_init demo_game demo_game))
  = Board_str (hidden_view (ai_board (Game_init demo_game demo_game))).
Proof. apply Board_str_hidden. reflexivity. Defined.
